(** * Slice sampling demo (slice.py): a shallow embedding and its properties

    The Python module [slice.py] holds one class, [Elliptical], that drives a
    step-by-step demonstration of univariate slice sampling: sample [x],
    evaluate [f(x)], sample the height [y], show the slice, and search for an
    interval around [x] by stepping out or by doubling.

    Modelling choices, all visible in the definitions below:
    - A Python float is modelled by the rational [Q] it stands for.  The
      distances [__fx] compares, [np.abs(self.X - x)], are rounded to double
      precision ([rnd53]), because rounding decides which grid point wins.
      The ends of the intervals ([x - w*u], [l + w], [l - w], ...) and the
      grid of [np.arange] are computed exactly; the statements about them
      are limited to facts that do not rest on that exactness (order,
      counts, exit conditions, default widths).  Infinities and NaN are not
      modelled.
    - Grid indices and loop indices are [nat], integer counters are [Z].
    - The global generator [np.random] is a stream of samples of [0,1)
      together with the number of samples consumed so far.
    - An exception is an outcome [Raise]; a [while] loop takes a fuel argument
      that bounds the number of executions of its body, and the outcome
      [OutOfFuel] says that the loop was still running when the fuel ran out.
    - The display ([Figure]) is modelled by the list of frames handed to
      [Figure.refresh], newest first; [time.sleep] is not modelled. *)

From Stdlib Require Import QArith ZArith List Lia Lqa Qround Qabs Qpower Bool.
From stdpp Require Import base list.

Open Scope Q_scope.

(** ** Outcomes and the state monad of the sampler *)

Inductive Exn : Type :=
| ValueError
| IndexError
| RuntimeError
| ZeroDivisionError.

Inductive Outcome (A : Type) : Type :=
| Ok (a : A)
| Raise (e : Exn)
| OutOfFuel.

Arguments Ok {A} a.
Arguments Raise {A} e.
Arguments OutOfFuel {A}.

Definition obind {A B} (o : Outcome A) (f : A -> Outcome B) : Outcome B :=
  match o with
  | Ok a => f a
  | Raise e => Raise e
  | OutOfFuel => OutOfFuel
  end.

Declare Scope outcome_scope.
Delimit Scope outcome_scope with outcome.
Notation "'let*' x := c1 'in' c2" := (obind c1 (fun x => c2))
  (at level 10, x pattern, c1 at level 100, c2 at level 200) : outcome_scope.

(** ** Comparisons on floats *)

Definition Qltb (a b : Q) : bool := negb (Qle_bool b a).

(** ** Rounding to double precision *)

(** [n * 2^k] for [k >= 0], and [n] for [k < 0]. *)
Definition scale2 (n k : Z) : Z := (n * 2 ^ Z.max 0 k)%Z.

(** The integer nearest to [n / d], the even one of the two on a tie; for
    [0 <= n] and [0 < d]. *)
Definition round_half_even (n d : Z) : Z :=
  let q := (n / d)%Z in
  let r := (n mod d)%Z in
  match (2 * r ?= d)%Z with
  | Lt => q
  | Gt => (q + 1)%Z
  | Eq => if Z.even q then q else (q + 1)%Z
  end.

(** The exponent [e] with [2^e <= n/d < 2^(e+1)], for [0 < n] and [0 < d]:
    the difference of the bit lengths, or one below it. *)
Definition binade (n d : Z) : Z :=
  let e0 := (Z.log2 n - Z.log2 d)%Z in
  if (scale2 d e0 <=? scale2 n (- e0))%Z then e0 else (e0 - 1)%Z.

(** The rounding of one float64 operation: the nearest number with 53
    significant bits, ties to even.  With [2^e <= |q| < 2^(e+1)] the result
    is [m * 2^(e-52)] for the integer [m] nearest to [|q| / 2^(e-52)].  The
    exponent is not bounded: there is no overflow to infinity and no
    underflow.  (The difference of two doubles that is below the normal
    range is exact in float64, and is exact here.) *)
Definition rnd53 (q : Q) : Q :=
  let n := Z.abs (Qnum q) in
  let d := Zpos (Qden q) in
  if (n =? 0)%Z then 0
  else
    let sh := (52 - binade n d)%Z in
    let m := round_half_even (scale2 n sh) (scale2 d (- sh)) in
    Qmake (Z.sgn (Qnum q) * scale2 m (- sh)) (Z.to_pos (scale2 1 sh)).

(** ** The numpy and list primitives the module uses *)

(** [a[i]] for a list or an array and an index that is not negative. *)
Definition getitem {A} (a : list A) (i : nat) : Outcome A :=
  match a !! i with
  | Some v => Ok v
  | None => Raise IndexError
  end.

(** [a % b] on Python integers: the result has the sign of [b]; a zero [b]
    raises. *)
Definition py_mod (a b : Z) : Outcome Z :=
  if (b =? 0)%Z then Raise ZeroDivisionError else Ok (a mod b)%Z.

(** [np.argmin]: the index of the first occurrence of the minimum;
    [ValueError] on an empty array. *)
Fixpoint argmin_from (best_i : nat) (best : Q) (i : nat) (a : list Q) : nat :=
  match a with
  | [] => best_i
  | v :: a' =>
      if Qltb v best then argmin_from i v (S i) a'
      else argmin_from best_i best (S i) a'
  end.

Definition argmin (a : list Q) : Outcome nat :=
  match a with
  | [] => Raise ValueError
  | v :: a' => Ok (argmin_from 0 v 1 a')
  end.

(** [np.sign]: -1, 0 or 1. *)
Definition np_sign (q : Q) : Z := Z.sgn (Qnum q).

(** [np.diff]: [out[i] = a[i+1] - a[i]]. *)
Definition np_diff (a : list Z) : list Z := zip_with Z.sub (tail a) a.

(** [np.argwhere(a != 0).reshape(-1).tolist()]: the indices of the entries
    that are not zero, in increasing order. *)
Fixpoint argwhere_from (i : nat) (a : list Z) : list nat :=
  match a with
  | [] => []
  | d :: a' =>
      if (d =? 0)%Z then argwhere_from (S i) a'
      else i :: argwhere_from (S i) a'
  end.

Definition argwhere_nonzero (a : list Z) : list nat := argwhere_from 0 a.

(** [np.arange(start, stop, step)]: [ceil((stop - start)/step)] values
    [start + i*step]; a zero step is an error. *)
Definition arange_len (start stop step : Q) : nat :=
  Z.to_nat (Qceiling ((stop - start) / step)).

Definition arange (start stop step : Q) : Outcome (list Q) :=
  if Qeq_bool step 0 then Raise ZeroDivisionError
  else Ok (map (fun i : nat => start + inject_Z (Z.of_nat i) * step)
               (seq 0 (arange_len start stop step))).

(** [range(stop, start, -1)]. *)
Definition range_down (stop start : nat) : list nat :=
  rev (seq (S start) (stop - start)).

Fixpoint mapM {A B} (f : A -> Outcome B) (l : list A) : Outcome (list B) :=
  match l with
  | [] => Ok []
  | a :: l' => (let* b := f a in let* bs := mapM f l' in Ok (b :: bs))%outcome
  end.

Fixpoint foldM {A B} (f : A -> B -> Outcome A) (acc : A) (l : list B) : Outcome A :=
  match l with
  | [] => Ok acc
  | b :: l' => (let* acc' := f acc b in foldM f acc' l')%outcome
  end.

(** ** Region extraction: [Elliptical.__find_patches] *)

(** One iteration of [for i in range(1, len(diff))]: the test reads the entry
    before [i] as the loop has left it.  Both accesses are in range. *)
Definition collapse_step (diff : list Z) (i : nat) : list Z :=
  if negb (default 0%Z (diff !! (i - 1)%nat) =? 0)%Z
  then <[i := 0%Z]> diff
  else diff.

Definition collapse (diff : list Z) : list Z :=
  fold_left collapse_step (seq 1 (length diff - 1)) diff.

Definition patch_step (X' Y : list Q) (threshold : Q) (intersections : list nat)
    (acc : list (list Q) * list (list Q)) (ind : nat)
  : Outcome (list (list Q) * list (list Q)) :=
  (let* start := getitem intersections (ind - 1) in
   let* end_ := getitem intersections ind in
   let midpoint := ((start + end_) / 2)%nat in
   let* ym := getitem Y midpoint in
   if Qle_bool threshold ym then
     let* lower := mapM (getitem X') (range_down end_ start) in
     let* upper := mapM (fun i => let* xv := getitem X' i in
                                  let* yv := getitem Y i in Ok (xv, yv))
                        (seq start (end_ - start)) in
     Ok (fst acc ++ [lower ++ map fst upper],
         snd acc ++ [map (fun _ => threshold) lower ++ map snd upper])
   else Ok acc)%outcome.

Definition __find_patches (X Y : list Q) (threshold : Q)
  : Outcome (list (list Q) * list (list Q)) :=
  let signs := map (fun yv => np_sign (yv - threshold)) Y in
  let diff := collapse (np_diff signs) in
  let intersections := (0%nat :: argwhere_nonzero diff) ++ [length X] in
  (let* x0 := getitem X 0 in
   let X' := (x0 :: X) ++ [List.last X x0] in
   foldM (patch_step X' Y threshold intersections) ([], [])
         (seq 1 (length intersections - 1)))%outcome.

(** ** The sampler object *)

Inductive UpdateFn : Type := Stepout | Double.

Record Frame : Type := mkFrame {
  shown_x : Q;
  shown_fx : Q;
  shown_y : Q;
  shown_horizontal : Q;
  shown_slice : Q * Q;
  shown_mode : Z
}.

Record Elliptical : Type := mkElliptical {
  mode : Z;
  num_modes : Z;
  update_fn : UpdateFn;
  X : list Q;
  Y : list Q;
  patch_xs : list (list Q);
  patch_ys : list (list Q);
  slice : Q * Q;
  curr_x : Q;
  fx : Q;
  curr_y : Q;
  horizontal : Q;
  figure : list Frame
}.

Definition set_mode (v : Z) (e : Elliptical) : Elliptical :=
  mkElliptical v (num_modes e) (update_fn e) (X e) (Y e) (patch_xs e) (patch_ys e)
    (slice e) (curr_x e) (fx e) (curr_y e) (horizontal e) (figure e).
Definition set_update_fn (v : UpdateFn) (e : Elliptical) : Elliptical :=
  mkElliptical (mode e) (num_modes e) v (X e) (Y e) (patch_xs e) (patch_ys e)
    (slice e) (curr_x e) (fx e) (curr_y e) (horizontal e) (figure e).
Definition set_slice (v : Q * Q) (e : Elliptical) : Elliptical :=
  mkElliptical (mode e) (num_modes e) (update_fn e) (X e) (Y e) (patch_xs e) (patch_ys e)
    v (curr_x e) (fx e) (curr_y e) (horizontal e) (figure e).
Definition set_curr_x (v : Q) (e : Elliptical) : Elliptical :=
  mkElliptical (mode e) (num_modes e) (update_fn e) (X e) (Y e) (patch_xs e) (patch_ys e)
    (slice e) v (fx e) (curr_y e) (horizontal e) (figure e).
Definition set_fx (v : Q) (e : Elliptical) : Elliptical :=
  mkElliptical (mode e) (num_modes e) (update_fn e) (X e) (Y e) (patch_xs e) (patch_ys e)
    (slice e) (curr_x e) v (curr_y e) (horizontal e) (figure e).
Definition set_curr_y (v : Q) (e : Elliptical) : Elliptical :=
  mkElliptical (mode e) (num_modes e) (update_fn e) (X e) (Y e) (patch_xs e) (patch_ys e)
    (slice e) (curr_x e) (fx e) v (horizontal e) (figure e).
Definition set_horizontal (v : Q) (e : Elliptical) : Elliptical :=
  mkElliptical (mode e) (num_modes e) (update_fn e) (X e) (Y e) (patch_xs e) (patch_ys e)
    (slice e) (curr_x e) (fx e) (curr_y e) v (figure e).
Definition set_figure (v : list Frame) (e : Elliptical) : Elliptical :=
  mkElliptical (mode e) (num_modes e) (update_fn e) (X e) (Y e) (patch_xs e) (patch_ys e)
    (slice e) (curr_x e) (fx e) (curr_y e) (horizontal e) v.

(** [Elliptical.__init__].  The density of the module is a fixed mixture of
    three normal densities; here it is the argument [density]. *)
Definition __init__ (density : Q -> Q) (x_low x_high x_step : Q) : Outcome Elliptical :=
  (let* grid := arange x_low x_high x_step in
   let values := map density grid in
   let* (pxs, pys) := __find_patches grid values 0 in
   Ok (mkElliptical (-1) 5 Stepout grid values pxs pys
         (-1, -1) (-1) (-1) (-1) (-1) []))%outcome.

(** ** The world: the sampler and the global random generator *)

Record World : Type := mkWorld {
  obj : Elliptical;
  stream : nat -> Q;
  pos : nat
}.

Definition M (A : Type) : Type := World -> Outcome A * World.

Definition ret {A} (a : A) : M A := fun s => (Ok a, s).

Definition bind {A B} (m : M A) (f : A -> M B) : M B :=
  fun s =>
    match m s with
    | (Ok a, s') => f a s'
    | (Raise e, s') => (Raise e, s')
    | (OutOfFuel, s') => (OutOfFuel, s')
    end.

Definition raise {A} (e : Exn) : M A := fun s => (Raise e, s).
Definition out_of_fuel {A} : M A := fun s => (OutOfFuel, s).
Definition lift {A} (o : Outcome A) : M A := fun s => (o, s).
Definition get_self : M Elliptical := fun s => (Ok (obj s), s).
Definition modify_self (f : Elliptical -> Elliptical) : M unit :=
  fun s => (Ok tt, mkWorld (f (obj s)) (stream s) (pos s)).

Declare Scope sampler_scope.
Delimit Scope sampler_scope with sampler.
Notation "'let*' x := c1 'in' c2" := (bind c1 (fun x => c2))
  (at level 10, x pattern, c1 at level 100, c2 at level 200) : sampler_scope.

(** [np.random.uniform()]: the next sample of the stream. *)
Definition random_uniform : M Q :=
  fun s => (Ok (stream s (pos s)), mkWorld (obj s) (stream s) (S (pos s))).

(** [np.random.uniform(low=low, high=high)]. *)
Definition random_uniform_in (low high : Q) : M Q :=
  (let* u := random_uniform in ret (low + (high - low) * u))%sampler.

(** One entry of [np.abs(self.X - x)]: the difference is rounded, the
    absolute value is exact. *)
Definition distance (x xi : Q) : Q := Qabs (rnd53 (xi - x)).

(** [Elliptical.__fx]: the density at the grid point nearest to [x]. *)
Definition nearest_value (e : Elliptical) (x : Q) : Outcome Q :=
  (let* ind := argmin (map (distance x) (X e)) in
   getitem (Y e) ind)%outcome.

Definition __fx (x : Q) : M Q :=
  (let* e := get_self in lift (nearest_value e x))%sampler.

(** [Elliptical.__refresh]: hand the current state to the display. *)
Definition frame_of (e : Elliptical) : Frame :=
  mkFrame (curr_x e) (fx e) (curr_y e) (horizontal e) (slice e) (mode e).

Definition refresh_obj (e : Elliptical) : Elliptical :=
  set_figure (frame_of e :: figure e) e.

Definition __refresh : M unit := modify_self refresh_obj.

(** [Elliptical.__sample_x]. *)
Definition __sample_x : M Q :=
  (let* e := get_self in random_uniform_in (fst (slice e)) (snd (slice e)))%sampler.

(** [Elliptical.change_update_fn]. *)
Definition change_update_fn (fn : Z) : M unit :=
  if (fn =? 0)%Z then modify_self (set_update_fn Stepout)
  else if (fn =? 1)%Z then modify_self (set_update_fn Double)
  else raise RuntimeError.

(** ** Interval search *)

(** The first loop of [stepout]. *)
Fixpoint stepout_left (fuel : nat) (y w l r : Q) (j : Z) : M (Q * Z) :=
  if (0 <? j)%Z then
    (let* fl := __fx l in
     if Qltb y fl then
       match fuel with
       | O => out_of_fuel
       | S fuel' =>
           let l := l - w in
           let j := (j - 1)%Z in
           let* _ := modify_self (set_slice (l, r)) in
           let* _ := __refresh in
           stepout_left fuel' y w l r j
       end
     else ret (l, j))%sampler
  else ret (l, j).

(** The second loop of [stepout]. *)
Fixpoint stepout_right (fuel : nat) (y w l r : Q) (k : Z) : M (Q * Z) :=
  if (0 <? k)%Z then
    (let* fr := __fx r in
     if Qltb y fr then
       match fuel with
       | O => out_of_fuel
       | S fuel' =>
           let r := r + w in
           let k := (k - 1)%Z in
           let* _ := modify_self (set_slice (l, r)) in
           let* _ := __refresh in
           stepout_right fuel' y w l r k
       end
     else ret (r, k))%sampler
  else ret (r, k).

(** [Elliptical.stepout(x, y, w, m)]. *)
Definition stepout (fuel : nat) (x y w : Q) (m : Z) : M (Q * Q) :=
  (let* u := random_uniform in
   let l := x - w * u in
   let r := l + w in
   let* v := random_uniform in
   let j := Qfloor (inject_Z m * v) in
   let k := (m - 1 - j)%Z in
   let* (l, _) := stepout_left fuel y w l r j in
   let* (r, _) := stepout_right fuel y w l r k in
   ret (l, r))%sampler.

(** The guard of the loop of [double], after [k > 0]: [or] evaluates its
    second operand only when the first is false. *)
Definition double_guard (y l r : Q) : M bool :=
  (let* fl := __fx l in
   if Qltb y fl then ret true
   else (let* fr := __fx r in ret (Qltb y fr)))%sampler.

(** The loop of [double].  The body never assigns [k]. *)
Fixpoint double_loop (fuel : nat) (y l r : Q) (k : Z) : M (Q * Q) :=
  if (0 <? k)%Z then
    (let* g := double_guard y l r in
     if g : bool then
       match fuel with
       | O => out_of_fuel
       | S fuel' =>
           let* v := random_uniform in
           let width := r - l in
           let (l, r) := if Qltb v (1 # 2) then (l - width, r) else (l, r + width) in
           let* _ := modify_self (set_slice (l, r)) in
           let* _ := __refresh in
           double_loop fuel' y l r k
       end
     else ret (l, r))%sampler
  else ret (l, r).

(** [Elliptical.double(x, y, w, p)]. *)
Definition double (fuel : nat) (x y w : Q) (p : Z) : M (Q * Q) :=
  (let* u := random_uniform in
   let l := x - w * u in
   let r := l + w in
   let k := p in
   double_loop fuel y l r k)%sampler.

(** [self.update_fn(x, y)]: the call of Mode 4, with the default widths and
    budgets of the two methods. *)
Definition call_update_fn (fuel : nat) (x y : Q) : M (Q * Q) :=
  (let* e := get_self in
   match update_fn e with
   | Stepout => stepout fuel x y 1 40
   | Double => double fuel x y (1 # 4) 5
   end)%sampler.

(** ** The state machine: [Elliptical.next_step] *)

(** The rejection loop of Mode 0. *)
Fixpoint reject_loop (fuel : nat) : M unit :=
  (let* e := get_self in
   let* f := __fx (curr_x e) in
   if Qltb f (curr_y e) then
     match fuel with
     | O => out_of_fuel
     | S fuel' =>
         let* x := __sample_x in
         let* _ := modify_self (set_curr_x x) in
         reject_loop fuel'
     end
   else ret tt)%sampler.

Definition next_step (fuel : nat) : M unit :=
  (let* e := get_self in
   let* m := lift (py_mod (mode e + 1) (num_modes e)) in
   let* _ := modify_self (set_mode m) in
   let* e := get_self in
   let* _ :=
     if (mode e =? 0)%Z then
       (let* x := __sample_x in
        let* _ := modify_self (set_curr_x x) in
        let* _ := reject_loop fuel in
        let* _ := modify_self (set_horizontal (-1)) in
        let* _ := modify_self (set_fx (-1)) in
        modify_self (set_curr_y (-1)))
     else if (mode e =? 1)%Z then
       (let* f := __fx (curr_x e) in
        modify_self (set_fx f))
     else if (mode e =? 2)%Z then
       (let* yv := random_uniform_in 0 (fx e) in
        let* _ := modify_self (set_curr_y yv) in
        modify_self (set_slice (-1, -1)))
     else if (mode e =? 3)%Z then
       modify_self (set_horizontal (curr_y e))
     else if (mode e =? 4)%Z then
       (let* sl := call_update_fn fuel (curr_x e) (curr_y e) in
        modify_self (set_slice sl))
     else ret tt in
   __refresh)%sampler.

(** * Vocabulary of the statements *)

(** ** Well-formed grids *)

Definition wf_grid (e : Elliptical) : Prop :=
  X e <> [] /\ length (Y e) = length (X e).

(** The density value [__fx] returns on a well-formed grid. *)
Definition fx_at (e : Elliptical) (x : Q) : Q :=
  match nearest_value e x with
  | Ok v => v
  | _ => 0
  end.


(** ** Intervals written to [self.slice] *)

(** One [self.slice = [l, r]; self.__refresh()]. *)
Definition emit (e : Elliptical) (sl : Q * Q) : Elliptical :=
  refresh_obj (set_slice sl e).

Definition emit_all (e : Elliptical) (tr : list (Q * Q)) : Elliptical :=
  fold_left emit tr e.

(** The intervals [n] leftward steps of width [w] write, in order. *)
Fixpoint left_trace (l r w : Q) (n : nat) : list (Q * Q) :=
  match n with
  | O => []
  | S n' => (l - w, r) :: left_trace (l - w) r w n'
  end.

Fixpoint right_trace (l r w : Q) (n : nat) : list (Q * Q) :=
  match n with
  | O => []
  | S n' => (l, r + w) :: right_trace l (r + w) w n'
  end.

Fixpoint steps_down (l w : Q) (n : nat) : Q :=
  match n with
  | O => l
  | S n' => steps_down (l - w) w n'
  end.

Fixpoint steps_up (r w : Q) (n : nat) : Q :=
  match n with
  | O => r
  | S n' => steps_up (r + w) w n'
  end.

(** Each interval of [tr] contains the one before it, starting from [prev]:
    the left ends do not increase and the right ends do not decrease. *)
Fixpoint widening (prev : Q * Q) (tr : list (Q * Q)) : Prop :=
  match tr with
  | [] => True
  | cur :: tr' =>
      fst cur <= fst prev /\ snd prev <= snd cur /\ widening cur tr'
  end.

(** Each interval of [tr] is the one before it extended by its own width, to
    the left or to the right. *)
Fixpoint doubling_chain (prev : Q * Q) (tr : list (Q * Q)) : Prop :=
  match tr with
  | [] => True
  | cur :: tr' =>
      (cur = (fst prev - (snd prev - fst prev), snd prev) \/
       cur = (fst prev, snd prev + (snd prev - fst prev))) /\
      doubling_chain cur tr'
  end.

Definition brackets (x : Q) (sl : Q * Q) : Prop := fst sl <= x /\ x <= snd sl.

(** The initial interval of both searches, [l = x - w * u] and [r = l + w]
    (lines 100-101 and 124-125), as float64 arithmetic computes it: each
    operation is rounded. *)
Definition initial_interval_rounded (x w u : Q) : Q * Q :=
  let l := rnd53 (x - rnd53 (w * u)) in
  (l, rnd53 (l + w)).

(** The budgets [j] and [k] of [stepout]. *)
Definition budget_left (m : Z) (v : Q) : Z := Qfloor (inject_Z m * v).
Definition budget_right (m : Z) (v : Q) : Z := (m - 1 - budget_left m v)%Z.

(** The guard of the loop of [double] after [k > 0], on a well-formed grid. *)
Definition double_guard_at (e : Elliptical) (y l r : Q) : bool :=
  Qltb y (fx_at e l) || Qltb y (fx_at e r).

(** Everything but the selected update function is the same in [s'] as in
    [s]: each other attribute of the sampler, and the random generator. *)
Definition same_but_update_fn (s s' : World) : Prop :=
  mode (obj s') = mode (obj s) /\ num_modes (obj s') = num_modes (obj s) /\
  X (obj s') = X (obj s) /\ Y (obj s') = Y (obj s) /\
  patch_xs (obj s') = patch_xs (obj s) /\ patch_ys (obj s') = patch_ys (obj s) /\
  slice (obj s') = slice (obj s) /\ curr_x (obj s') = curr_x (obj s) /\
  fx (obj s') = fx (obj s) /\ curr_y (obj s') = curr_y (obj s) /\
  horizontal (obj s') = horizontal (obj s) /\ figure (obj s') = figure (obj s) /\
  stream s' = stream s /\ pos s' = pos s.

(** ** A small sampler used to exercise the statements *)

(** A bump: 1 on [-1, 1], 0 elsewhere. *)
Definition demo_density (x : Q) : Q :=
  if Qle_bool (-1) x && Qle_bool x 1 then 1 else 0.

(** The sampler [__init__ demo_density (-2) 3 1] builds. *)
Definition demo_sampler : Elliptical :=
  mkElliptical (-1) 5 Stepout [-2; -1; 0; 1; 2] [0; 1; 1; 1; 0]
    [[]; [0; -1; -2; -2; -2; -1]; [2; 1; 0; 1]]
    [[]; [0; 0; 0; 0; 1; 1]; [0; 0; 1; 0]]
    (-1, -1) (-1) (-1) (-1) (-1) [].

(** The same sampler after Modes 0 to 3, with [x = -1] and [y = 1/2]. *)
Definition demo_ready (f : UpdateFn) : Elliptical :=
  mkElliptical 3 5 f [-2; -1; 0; 1; 2] [0; 1; 1; 1; 0]
    [[]; [0; -1; -2; -2; -2; -1]; [2; 1; 0; 1]]
    [[]; [0; 0; 0; 0; 1; 1]; [0; 0; 1; 0]]
    (-1, -1) (-1) 1 (1 # 2) (1 # 2) [].

(** Streams of samples. *)
Definition constant_stream (q : Q) : nat -> Q := fun _ => q.
Definition stream_of (l : list Q) (d : Q) : nat -> Q := fun n => nth n l d.

(** ** The work of each mode *)

(** The mode [next_step] moves to. *)
Definition next_mode (e : Elliptical) : Z := ((mode e + 1) mod num_modes e)%Z.

(** The body of [next_step] for the mode already stored in the sampler. *)
Definition mode_work (fuel : nat) (e : Elliptical) : M unit :=
  (if (mode e =? 0)%Z then
     (let* x := __sample_x in
      let* _ := modify_self (set_curr_x x) in
      let* _ := reject_loop fuel in
      let* _ := modify_self (set_horizontal (-1)) in
      let* _ := modify_self (set_fx (-1)) in
      modify_self (set_curr_y (-1)))
   else if (mode e =? 1)%Z then
     (let* f := __fx (curr_x e) in
      modify_self (set_fx f))
   else if (mode e =? 2)%Z then
     (let* yv := random_uniform_in 0 (fx e) in
      let* _ := modify_self (set_curr_y yv) in
      modify_self (set_slice (-1, -1)))
   else if (mode e =? 3)%Z then
     modify_self (set_horizontal (curr_y e))
   else if (mode e =? 4)%Z then
     (let* sl := call_update_fn fuel (curr_x e) (curr_y e) in
      modify_self (set_slice sl))
   else ret tt)%sampler.

(** ** Runs of boundary markers *)

(** What the loop of [__find_patches] over [diff] computes, entry by entry:
    an entry is zeroed when the entry before it, as the loop left it, is not
    zero. *)
Fixpoint collapse_from (prev : Z) (l : list Z) : list Z :=
  match l with
  | [] => []
  | d :: l' =>
      let d' := if (prev =? 0)%Z then d else 0%Z in
      d' :: collapse_from d' l'
  end.

(** Index [i] lies in a run of entries of [diff] that are not zero, and the
    run starts at index [s]: the entry before [s], if any, is zero. *)
Definition in_run (diff : list Z) (s i : nat) : Prop :=
  (s <= i)%nat /\
  (s = 0%nat \/ diff !! (s - 1)%nat = Some 0%Z) /\
  (forall j, (s <= j <= i)%nat -> exists d, diff !! j = Some d /\ d <> 0%Z).

(** ** Vocabulary of the further properties *)

(** [Figure.radio_handler] and [Figure.callback]: the handlers the widgets
    call, on the sampler of the module. *)
Definition radio_handler (new : Z) : M unit := change_update_fn new.
Definition callback (fuel : nat) : M unit := next_step fuel.

(** The sampler after [n] rounds of the body of the rejection loop of Mode 0,
    drawing from position [p] of the stream [st]. *)
Fixpoint resample (e : Elliptical) (st : nat -> Q) (p : nat) (n : nat) : Elliptical :=
  match n with
  | O => e
  | S n' =>
      resample
        (set_curr_x (fst (slice e) + (snd (slice e) - fst (slice e)) * st p) e)
        st (S p) n'
  end.

(** What [next_step] never touches. *)
Definition same_setup (e e' : Elliptical) : Prop :=
  X e' = X e /\ Y e' = Y e /\
  patch_xs e' = patch_xs e /\ patch_ys e' = patch_ys e /\
  num_modes e' = num_modes e /\ update_fn e' = update_fn e.

(** [n] presses of the button, stopping at the first that does not return. *)
Fixpoint press (fuel : nat) (n : nat) : M unit :=
  match n with
  | O => ret tt
  | S n' => bind (callback fuel) (fun _ => press fuel n')
  end.

(** The x and the y coordinates of each patch come in lists of equal
    length. *)
Definition same_lengths (acc : list (list Q) * list (list Q)) : Prop :=
  Forall2 (fun xs ys : list Q => length xs = length ys) (fst acc) (snd acc).

(** The first grid point is the least. *)
Definition first_is_least (grid : list Q) : Prop :=
  forall (x0 xj : Q) (j : nat),
    grid !! 0%nat = Some x0 -> grid !! j = Some xj -> x0 <= xj.
(** * Properties *)

(** ** Comparisons *)

Lemma Qltb_true (a b : Q) : Qltb a b = true <-> a < b.
Proof.
  unfold Qltb. rewrite negb_true_iff. split.
  - intros H. destruct (Qlt_le_dec a b) as [Hlt | Hle]; [exact Hlt |].
    apply Qle_bool_iff in Hle. congruence.
  - intros H. destruct (Qle_bool b a) eqn:E; [| reflexivity].
    apply Qle_bool_iff in E. lra.
Qed.

Lemma Qltb_false (a b : Q) : Qltb a b = false <-> b <= a.
Proof.
  unfold Qltb. rewrite negb_false_iff. apply Qle_bool_iff.
Qed.

(** ** Indexing *)

Lemma getitem_Ok {A} (a : list A) (i : nat) (v : A) :
  getitem a i = Ok v <-> a !! i = Some v.
Proof.
  unfold getitem. destruct (a !! i); split; intros H; congruence.
Qed.

Lemma getitem_lt {A} (a : list A) (i : nat) :
  (i < length a)%nat -> exists v, getitem a i = Ok v /\ a !! i = Some v.
Proof.
  intros H. destruct (lookup_lt_is_Some_2 a i H) as [v Hv].
  exists v. split; [| exact Hv]. unfold getitem. now rewrite Hv.
Qed.

Lemma getitem_ge {A} (a : list A) (i : nat) :
  (length a <= i)%nat -> getitem a i = Raise IndexError.
Proof.
  intros H. unfold getitem. now rewrite (lookup_ge_None_2 a i H).
Qed.

(** ** [np.argmin] returns the first index of the minimum *)

Lemma argmin_from_spec (a : list Q) :
  forall (pre : list Q) (bi : nat) (b : Q),
    pre !! bi = Some b ->
    (forall j v, pre !! j = Some v -> b <= v) ->
    (forall j v, (j < bi)%nat -> pre !! j = Some v -> b < v) ->
    let r := argmin_from bi b (length pre) a in
    exists m, (pre ++ a) !! r = Some m /\
      (forall j v, (pre ++ a) !! j = Some v -> m <= v) /\
      (forall j v, (j < r)%nat -> (pre ++ a) !! j = Some v -> m < v).
Proof.
  induction a as [| v a IH]; intros pre bi b Hb Hmin Hfirst; simpl.
  - exists b. rewrite app_nil_r. auto.
  - assert (Hlen : length (pre ++ [v]) = S (length pre)).
    { rewrite length_app. simpl. lia. }
    replace (pre ++ v :: a) with ((pre ++ [v]) ++ a)
      by (rewrite <- app_assoc; reflexivity).
    rewrite <- Hlen.
    destruct (Qltb v b) eqn:E.
    + apply Qltb_true in E.
      apply IH.
      * rewrite lookup_app_r by lia. now rewrite Nat.sub_diag.
      * intros j u Hj. destruct (decide (j < length pre)%nat) as [Hlt | Hge].
        -- rewrite lookup_app_l in Hj by lia. specialize (Hmin j u Hj). lra.
        -- rewrite lookup_app_r in Hj by lia.
           destruct (j - length pre)%nat eqn:Ej; simpl in Hj; [| discriminate].
           injection Hj as <-. lra.
      * intros j u Hlt Hj. rewrite lookup_app_l in Hj by lia.
        specialize (Hmin j u Hj). lra.
    + apply Qltb_false in E.
      apply IH.
      * rewrite lookup_app_l; [exact Hb |]. now apply lookup_lt_Some in Hb.
      * intros j u Hj. destruct (decide (j < length pre)%nat) as [Hlt | Hge].
        -- rewrite lookup_app_l in Hj by lia. now apply (Hmin j).
        -- rewrite lookup_app_r in Hj by lia.
           destruct (j - length pre)%nat eqn:Ej; simpl in Hj; [| discriminate].
           injection Hj as <-. exact E.
      * intros j u Hlt Hj. apply lookup_lt_Some in Hb.
        rewrite lookup_app_l in Hj by lia. now apply (Hfirst j).
Qed.

Lemma argmin_spec (a : list Q) :
  a <> [] ->
  exists r m, argmin a = Ok r /\ a !! r = Some m /\
    (forall j v, a !! j = Some v -> m <= v) /\
    (forall j v, (j < r)%nat -> a !! j = Some v -> m < v).
Proof.
  destruct a as [| v a]; [congruence |]. intros _.
  destruct (argmin_from_spec a [v] 0%nat v) as [m Hm].
  - reflexivity.
  - intros [| j] u Hj; simpl in Hj; [| discriminate]. injection Hj as <-. lra.
  - intros j u Hj. lia.
  - exists (argmin_from 0 v 1 a), m. split; [reflexivity | exact Hm].
Qed.

(** ** Rounding *)

Lemma scale2_pos (n k : Z) : (0 < n)%Z -> (0 < scale2 n k)%Z.
Proof.
  intros H. unfold scale2.
  assert (0 < 2 ^ Z.max 0 k)%Z by (apply Z.pow_pos_nonneg; lia). nia.
Qed.

Lemma round_half_even_ge (n d : Z) : (n / d <= round_half_even n d)%Z.
Proof.
  unfold round_half_even.
  destruct (2 * (n mod d) ?= d)%Z; [destruct (Z.even (n / d)) | |]; lia.
Qed.

(** The scaled significand is at least 1: the numerator of the scaled
    quotient is not below its denominator. *)
Lemma scaled_ge_one (n d e : Z) :
  (0 < n)%Z -> (0 < d)%Z -> (e <= Z.log2 n - Z.log2 d)%Z ->
  (scale2 d (- (52 - e)) <= scale2 n (52 - e))%Z.
Proof.
  intros Hn Hd He.
  destruct (Z.log2_spec n Hn) as [Hn1 _].
  destruct (Z.log2_spec d Hd) as [_ Hd2].
  pose proof (Z.log2_nonneg n) as Hln. pose proof (Z.log2_nonneg d) as Hld.
  set (ln := Z.log2 n) in *. set (ld := Z.log2 d) in *.
  unfold scale2.
  destruct (Z_le_gt_dec 0 (52 - e)) as [Hsh | Hsh].
  - rewrite (Z.max_l 0 (- (52 - e))) by lia.
    rewrite (Z.max_r 0 (52 - e)) by lia.
    rewrite Z.pow_0_r, Z.mul_1_r.
    assert (H1 : (2 ^ Z.succ ld <= 2 ^ (ln + (52 - e)))%Z)
      by (apply Z.pow_le_mono_r; lia).
    rewrite Z.pow_add_r in H1 by lia.
    assert (H2 : (0 < 2 ^ (52 - e))%Z) by (apply Z.pow_pos_nonneg; lia).
    nia.
  - rewrite (Z.max_r 0 (- (52 - e))) by lia.
    rewrite (Z.max_l 0 (52 - e)) by lia.
    rewrite Z.pow_0_r, Z.mul_1_r.
    assert (H1 : (2 ^ (Z.succ ld + - (52 - e)) <= 2 ^ ln)%Z)
      by (apply Z.pow_le_mono_r; lia).
    rewrite Z.pow_add_r in H1 by lia.
    assert (H2 : (0 < 2 ^ (- (52 - e)))%Z) by (apply Z.pow_pos_nonneg; lia).
    nia.
Qed.

Lemma rnd53_zero (q : Q) : q == 0 -> rnd53 q = 0.
Proof.
  intros H. unfold Qeq in H. cbn in H.
  assert (Hn : Qnum q = 0%Z) by lia.
  unfold rnd53. rewrite Hn. reflexivity.
Qed.

(** Rounding never turns a difference that is not zero into zero. *)
Lemma rnd53_nonzero (q : Q) : rnd53 q == 0 -> q == 0.
Proof.
  intros H.
  destruct (Z.eq_dec (Qnum q) 0%Z) as [Hz | Hnz]; [unfold Qeq; cbn; lia | exfalso].
  unfold rnd53 in H.
  assert (Hn : (0 < Z.abs (Qnum q))%Z) by lia.
  destruct (Z.abs (Qnum q) =? 0)%Z eqn:E; [apply Z.eqb_eq in E; lia |].
  set (n := Z.abs (Qnum q)) in *. set (d := Zpos (Qden q)) in *.
  set (e := binade n d) in *.
  assert (He : (e <= Z.log2 n - Z.log2 d)%Z)
    by (unfold e, binade; cbv zeta;
        destruct (scale2 d (Z.log2 n - Z.log2 d) <=? scale2 n (- (Z.log2 n - Z.log2 d)))%Z;
        lia).
  assert (Hd : (0 < d)%Z) by (unfold d; lia).
  pose proof (scaled_ge_one n d e Hn Hd He) as Hge.
  pose proof (scale2_pos d (- (52 - e)) Hd) as HD.
  pose proof (round_half_even_ge (scale2 n (52 - e)) (scale2 d (- (52 - e)))) as Hm.
  assert (Hq : (1 <= scale2 n (52 - e) / scale2 d (- (52 - e)))%Z)
    by (apply Z.div_le_lower_bound; lia).
  set (m := round_half_even (scale2 n (52 - e)) (scale2 d (- (52 - e)))) in *.
  assert (Hmp : (0 < scale2 m (- (52 - e)))%Z) by (apply scale2_pos; lia).
  unfold Qeq in H. cbn in H. nia.
Qed.

(** ** Nearest-grid evaluation *)

Lemma nearest_value_spec (e : Elliptical) (x : Q) :
  wf_grid e ->
  exists i xi yi,
    nearest_value e x = Ok yi /\
    X e !! i = Some xi /\ Y e !! i = Some yi /\
    (forall j xj, X e !! j = Some xj -> distance x xi <= distance x xj) /\
    (forall j xj, (j < i)%nat -> X e !! j = Some xj -> distance x xi < distance x xj).
Proof.
  intros [Hne Hlen]. unfold nearest_value.
  set (d := map (distance x) (X e)).
  assert (Hd : d <> []).
  { unfold d. destruct (X e); [congruence | discriminate]. }
  destruct (argmin_spec d Hd) as (r & m & Hr & Hm & Hmin & Hfirst).
  rewrite Hr. cbn [obind].
  assert (Hrlt : (r < length (X e))%nat).
  { apply lookup_lt_Some in Hm. unfold d in Hm. now rewrite length_map in Hm. }
  destruct (lookup_lt_is_Some_2 (X e) r Hrlt) as [xi Hxi].
  assert (Hrlt' : (r < length (Y e))%nat) by lia.
  destruct (lookup_lt_is_Some_2 (Y e) r Hrlt') as [yi Hyi].
  exists r, xi, yi.
  assert (Hmeq : m = distance x xi).
  { unfold d in Hm. rewrite list_lookup_fmap in Hm. rewrite Hxi in Hm.
    cbn in Hm. now inversion Hm. }
  split; [unfold getitem; now rewrite Hyi |].
  split; [exact Hxi |]. split; [exact Hyi |]. split.
  - intros j xj Hj. rewrite <- Hmeq. apply (Hmin j).
    unfold d. rewrite list_lookup_fmap, Hj. reflexivity.
  - intros j xj Hlt Hj. rewrite <- Hmeq. apply (Hfirst j); [exact Hlt |].
    unfold d. rewrite list_lookup_fmap, Hj. reflexivity.
Qed.

Lemma nearest_value_fx_at (e : Elliptical) (x : Q) :
  wf_grid e -> nearest_value e x = Ok (fx_at e x).
Proof.
  intros H. destruct (nearest_value_spec e x H) as (i & xi & yi & Hv & _).
  unfold fx_at. now rewrite Hv.
Qed.

Lemma fx_run (x : Q) (s : World) :
  wf_grid (obj s) -> __fx x s = (Ok (fx_at (obj s) x), s).
Proof.
  intros H. unfold __fx, bind, get_self, lift.
  now rewrite (nearest_value_fx_at _ x H).
Qed.

(** ** Writes to [self.slice] leave the grid alone *)

Lemma emit_all_app (e : Elliptical) (t1 t2 : list (Q * Q)) :
  emit_all e (t1 ++ t2) = emit_all (emit_all e t1) t2.
Proof. unfold emit_all. apply fold_left_app. Qed.

Lemma emit_all_grid (tr : list (Q * Q)) :
  forall e, X (emit_all e tr) = X e /\ Y (emit_all e tr) = Y e.
Proof.
  induction tr as [| sl tr IH]; intros e; simpl; [auto |].
  destruct (IH (emit e sl)) as [HX HY]. rewrite HX, HY. auto.
Qed.

Lemma fx_at_grid (e e' : Elliptical) (x : Q) :
  X e' = X e -> Y e' = Y e -> fx_at e' x = fx_at e x.
Proof.
  intros HX HY. unfold fx_at, nearest_value. now rewrite HX, HY.
Qed.

Lemma wf_grid_same (e e' : Elliptical) :
  X e' = X e -> Y e' = Y e -> wf_grid e -> wf_grid e'.
Proof. unfold wf_grid. intros -> ->. auto. Qed.

Lemma fx_at_emit_all (e : Elliptical) (tr : list (Q * Q)) (x : Q) :
  fx_at (emit_all e tr) x = fx_at e x.
Proof. destruct (emit_all_grid tr e). now apply fx_at_grid. Qed.

Lemma wf_grid_emit_all (e : Elliptical) (tr : list (Q * Q)) :
  wf_grid e -> wf_grid (emit_all e tr).
Proof. destruct (emit_all_grid tr e). now apply wf_grid_same. Qed.

Lemma emit_all_figure (tr : list (Q * Q)) :
  forall e,
    map shown_slice (figure (emit_all e tr)) = rev tr ++ map shown_slice (figure e).
Proof.
  induction tr as [| sl tr IH]; intros e; simpl; [reflexivity |].
  rewrite IH. simpl. rewrite <- app_assoc. reflexivity.
Qed.

Lemma last_cons_default {A} (l : list A) :
  forall (a d d' : A), List.last (a :: l) d = List.last (a :: l) d'.
Proof.
  induction l as [| b l IH]; intros a d d'; [reflexivity |].
  change (List.last (b :: l) d = List.last (b :: l) d'). apply IH.
Qed.

Lemma emit_all_slice (tr : list (Q * Q)) :
  forall e, slice (emit_all e tr) = List.last tr (slice e).
Proof.
  induction tr as [| sl tr IH]; intros e; [reflexivity |].
  change (emit_all e (sl :: tr)) with (emit_all (emit e sl) tr).
  rewrite IH. destruct tr as [| p tr]; [reflexivity |].
  change (List.last (sl :: p :: tr) (slice e)) with (List.last (p :: tr) (slice e)).
  apply last_cons_default.
Qed.

Lemma emit_all_fields (tr : list (Q * Q)) :
  forall e,
    mode (emit_all e tr) = mode e /\ num_modes (emit_all e tr) = num_modes e /\
    update_fn (emit_all e tr) = update_fn e /\ curr_x (emit_all e tr) = curr_x e /\
    fx (emit_all e tr) = fx e /\ curr_y (emit_all e tr) = curr_y e /\
    horizontal (emit_all e tr) = horizontal e /\
    patch_xs (emit_all e tr) = patch_xs e /\ patch_ys (emit_all e tr) = patch_ys e.
Proof.
  induction tr as [| sl tr IH]; intros e; simpl; [repeat split |].
  destruct (IH (emit e sl)) as (H1 & H2 & H3 & H4 & H5 & H6 & H7 & H8 & H9).
  rewrite H1, H2, H3, H4, H5, H6, H7, H8, H9. repeat split.
Qed.

(** ** The two loops of [stepout] *)

Lemma world_eta (s : World) : mkWorld (obj s) (stream s) (pos s) = s.
Proof. now destruct s. Qed.

Lemma stepout_left_stop (fuel : nat) (y w l r : Q) (j : Z) (s : World) :
  wf_grid (obj s) ->
  (j <= 0)%Z \/ fx_at (obj s) l <= y ->
  stepout_left fuel y w l r j s = (Ok (l, j), s).
Proof.
  intros Hwf Hstop.
  destruct fuel; cbn [stepout_left]; (destruct (0 <? j)%Z eqn:Hj; [| reflexivity]);
    apply Z.ltb_lt in Hj; (destruct Hstop as [Hstop | Hstop]; [lia |]);
    apply Qltb_false in Hstop;
    unfold bind; rewrite (fx_run l s Hwf), Hstop; reflexivity.
Qed.

Lemma stepout_left_out (y w l r : Q) (j : Z) (s : World) :
  wf_grid (obj s) ->
  (0 < j)%Z -> y < fx_at (obj s) l ->
  stepout_left 0 y w l r j s = (OutOfFuel, s).
Proof.
  intros Hwf Hj Hy. cbn [stepout_left]. apply Z.ltb_lt in Hj. rewrite Hj.
  apply Qltb_true in Hy. unfold bind. rewrite (fx_run l s Hwf), Hy. reflexivity.
Qed.

Lemma stepout_left_step (fuel : nat) (y w l r : Q) (j : Z) (s : World) :
  wf_grid (obj s) ->
  (0 < j)%Z -> y < fx_at (obj s) l ->
  stepout_left (S fuel) y w l r j s =
  stepout_left fuel y w (l - w) r (j - 1)
    (mkWorld (emit (obj s) (l - w, r)) (stream s) (pos s)).
Proof.
  intros Hwf Hj Hy. cbn [stepout_left]. apply Z.ltb_lt in Hj. rewrite Hj.
  apply Qltb_true in Hy. unfold bind at 1. rewrite (fx_run l s Hwf), Hy.
  reflexivity.
Qed.

(** Whatever the fuel, the first loop of [stepout] raises nothing: it took [n]
    steps to the left, at most [j] of them, and either returned with its
    guard false or used all its fuel with its guard still true. *)
Lemma stepout_left_run (fuel : nat) :
  forall (y w l r : Q) (j : Z) (s : World),
    wf_grid (obj s) ->
    exists n : nat,
      (Z.of_nat n <= Z.max 0 j)%Z /\ (n <= fuel)%nat /\
      let s' := mkWorld (emit_all (obj s) (left_trace l r w n)) (stream s) (pos s) in
      (stepout_left fuel y w l r j s = (Ok (steps_down l w n, (j - Z.of_nat n)%Z), s') /\
       ((j - Z.of_nat n <= 0)%Z \/ fx_at (obj s) (steps_down l w n) <= y))
      \/
      (stepout_left fuel y w l r j s = (OutOfFuel, s') /\
       n = fuel /\ (0 < j - Z.of_nat n)%Z /\ y < fx_at (obj s) (steps_down l w n)).
Proof.
  induction fuel as [| fuel IH]; intros y w l r j s Hwf.
  - exists 0%nat. split; [lia |]. split; [lia |].
    cbn [left_trace emit_all fold_left steps_down Z.of_nat].
    rewrite world_eta, Z.sub_0_r. cbn zeta.
    destruct (Z_lt_le_dec 0 j) as [Hj | Hj];
      [destruct (Qlt_le_dec y (fx_at (obj s) l)) as [Hy | Hy] |].
    + right. rewrite stepout_left_out by assumption. auto.
    + left. rewrite stepout_left_stop by auto. auto.
    + left. rewrite stepout_left_stop by auto. auto.
  - destruct (Z_lt_le_dec 0 j) as [Hj | Hj];
      [destruct (Qlt_le_dec y (fx_at (obj s) l)) as [Hy | Hy] |].
    + rewrite (stepout_left_step fuel y w l r j s Hwf Hj Hy).
      set (s1 := mkWorld (emit (obj s) (l - w, r)) (stream s) (pos s)).
      destruct (IH y w (l - w) r (j - 1)%Z s1) as (n & Hn & Hfuel & Hres).
      { now apply (wf_grid_same (obj s)). }
      exists (S n). split; [lia |]. split; [lia |].
      cbn [left_trace steps_down].
      change (emit_all (obj s) ((l - w, r) :: left_trace (l - w) r w n))
        with (emit_all (obj s1) (left_trace (l - w) r w n)).
      change (stream s) with (stream s1). change (pos s) with (pos s1).
      replace (j - Z.of_nat (S n))%Z with (j - 1 - Z.of_nat n)%Z by lia.
      cbn zeta in Hres |- *.
      rewrite (fx_at_grid (obj s) (obj s1)) in Hres by reflexivity.
      destruct Hres as [[Hrun Hstop] | (Hrun & Hn' & Hj' & Hy')].
      * left. split; [exact Hrun | exact Hstop].
      * right. split; [exact Hrun |]. split; [lia |]. split; [lia | exact Hy'].
    + exists 0%nat. split; [lia |]. split; [lia |].
      cbn [left_trace emit_all fold_left steps_down Z.of_nat].
      rewrite world_eta, Z.sub_0_r. left. rewrite stepout_left_stop by auto. auto.
    + exists 0%nat. split; [lia |]. split; [lia |].
      cbn [left_trace emit_all fold_left steps_down Z.of_nat].
      rewrite world_eta, Z.sub_0_r. left. rewrite stepout_left_stop by auto.
      split; [reflexivity | left; lia].
Qed.

Lemma stepout_right_stop (fuel : nat) (y w l r : Q) (k : Z) (s : World) :
  wf_grid (obj s) ->
  (k <= 0)%Z \/ fx_at (obj s) r <= y ->
  stepout_right fuel y w l r k s = (Ok (r, k), s).
Proof.
  intros Hwf Hstop.
  destruct fuel; cbn [stepout_right]; (destruct (0 <? k)%Z eqn:Hk; [| reflexivity]);
    apply Z.ltb_lt in Hk; (destruct Hstop as [Hstop | Hstop]; [lia |]);
    apply Qltb_false in Hstop;
    unfold bind; rewrite (fx_run r s Hwf), Hstop; reflexivity.
Qed.

Lemma stepout_right_out (y w l r : Q) (k : Z) (s : World) :
  wf_grid (obj s) ->
  (0 < k)%Z -> y < fx_at (obj s) r ->
  stepout_right 0 y w l r k s = (OutOfFuel, s).
Proof.
  intros Hwf Hk Hy. cbn [stepout_right]. apply Z.ltb_lt in Hk. rewrite Hk.
  apply Qltb_true in Hy. unfold bind. rewrite (fx_run r s Hwf), Hy. reflexivity.
Qed.

Lemma stepout_right_step (fuel : nat) (y w l r : Q) (k : Z) (s : World) :
  wf_grid (obj s) ->
  (0 < k)%Z -> y < fx_at (obj s) r ->
  stepout_right (S fuel) y w l r k s =
  stepout_right fuel y w l (r + w) (k - 1)
    (mkWorld (emit (obj s) (l, r + w)) (stream s) (pos s)).
Proof.
  intros Hwf Hk Hy. cbn [stepout_right]. apply Z.ltb_lt in Hk. rewrite Hk.
  apply Qltb_true in Hy. unfold bind at 1. rewrite (fx_run r s Hwf), Hy.
  reflexivity.
Qed.

Lemma stepout_right_run (fuel : nat) :
  forall (y w l r : Q) (k : Z) (s : World),
    wf_grid (obj s) ->
    exists n : nat,
      (Z.of_nat n <= Z.max 0 k)%Z /\ (n <= fuel)%nat /\
      let s' := mkWorld (emit_all (obj s) (right_trace l r w n)) (stream s) (pos s) in
      (stepout_right fuel y w l r k s = (Ok (steps_up r w n, (k - Z.of_nat n)%Z), s') /\
       ((k - Z.of_nat n <= 0)%Z \/ fx_at (obj s) (steps_up r w n) <= y))
      \/
      (stepout_right fuel y w l r k s = (OutOfFuel, s') /\
       n = fuel /\ (0 < k - Z.of_nat n)%Z /\ y < fx_at (obj s) (steps_up r w n)).
Proof.
  induction fuel as [| fuel IH]; intros y w l r k s Hwf.
  - exists 0%nat. split; [lia |]. split; [lia |].
    cbn [right_trace emit_all fold_left steps_up Z.of_nat].
    rewrite world_eta, Z.sub_0_r. cbn zeta.
    destruct (Z_lt_le_dec 0 k) as [Hk | Hk];
      [destruct (Qlt_le_dec y (fx_at (obj s) r)) as [Hy | Hy] |].
    + right. rewrite stepout_right_out by assumption. auto.
    + left. rewrite stepout_right_stop by auto. auto.
    + left. rewrite stepout_right_stop by auto. auto.
  - destruct (Z_lt_le_dec 0 k) as [Hk | Hk];
      [destruct (Qlt_le_dec y (fx_at (obj s) r)) as [Hy | Hy] |].
    + rewrite (stepout_right_step fuel y w l r k s Hwf Hk Hy).
      set (s1 := mkWorld (emit (obj s) (l, r + w)) (stream s) (pos s)).
      destruct (IH y w l (r + w) (k - 1)%Z s1) as (n & Hn & Hfuel & Hres).
      { now apply (wf_grid_same (obj s)). }
      exists (S n). split; [lia |]. split; [lia |].
      cbn [right_trace steps_up].
      change (emit_all (obj s) ((l, r + w) :: right_trace l (r + w) w n))
        with (emit_all (obj s1) (right_trace l (r + w) w n)).
      change (stream s) with (stream s1). change (pos s) with (pos s1).
      replace (k - Z.of_nat (S n))%Z with (k - 1 - Z.of_nat n)%Z by lia.
      cbn zeta in Hres |- *.
      rewrite (fx_at_grid (obj s) (obj s1)) in Hres by reflexivity.
      destruct Hres as [[Hrun Hstop] | (Hrun & Hn' & Hk' & Hy')].
      * left. split; [exact Hrun | exact Hstop].
      * right. split; [exact Hrun |]. split; [lia |]. split; [lia | exact Hy'].
    + exists 0%nat. split; [lia |]. split; [lia |].
      cbn [right_trace emit_all fold_left steps_up Z.of_nat].
      rewrite world_eta, Z.sub_0_r. left. rewrite stepout_right_stop by auto. auto.
    + exists 0%nat. split; [lia |]. split; [lia |].
      cbn [right_trace emit_all fold_left steps_up Z.of_nat].
      rewrite world_eta, Z.sub_0_r. left. rewrite stepout_right_stop by auto.
      split; [reflexivity | left; lia].
Qed.

(** [stepout], whatever the fuel: what it returns, what it writes, and why
    each loop stopped. *)
Lemma stepout_any (fuel : nat) (x y w : Q) (m : Z) (s : World) :
  wf_grid (obj s) ->
  let u := stream s (pos s) in
  let v := stream s (S (pos s)) in
  let l0 := x - w * u in
  let r0 := l0 + w in
  let j := budget_left m v in
  let k := budget_right m v in
  exists nl nr : nat,
    (Z.of_nat nl <= Z.max 0 j)%Z /\
    (Z.of_nat nr <= Z.max 0 k)%Z /\
    let tr := left_trace l0 r0 w nl ++ right_trace (steps_down l0 w nl) r0 w nr in
    let s' := mkWorld (emit_all (obj s) tr) (stream s) (S (S (pos s))) in
    (stepout fuel x y w m s = (Ok (steps_down l0 w nl, steps_up r0 w nr), s') /\
     ((j - Z.of_nat nl <= 0)%Z \/ fx_at (obj s) (steps_down l0 w nl) <= y) /\
     ((k - Z.of_nat nr <= 0)%Z \/ fx_at (obj s) (steps_up r0 w nr) <= y))
    \/
    (stepout fuel x y w m s = (OutOfFuel, s') /\
     ((fuel < Z.to_nat j)%nat \/ (fuel < Z.to_nat k)%nat)).
Proof.
  intros Hwf u v l0 r0 j k.
  assert (Hunf : stepout fuel x y w m s =
    bind (stepout_left fuel y w l0 r0 j)
         (fun '(l, _) => bind (stepout_right fuel y w l r0 k)
                              (fun '(r, _) => ret (l, r)))
         (mkWorld (obj s) (stream s) (S (S (pos s))))) by reflexivity.
  rewrite Hunf. clear Hunf.
  destruct (stepout_left_run fuel y w l0 r0 j
              (mkWorld (obj s) (stream s) (S (S (pos s)))) Hwf)
    as (nl & Hnl & Hfl & Hleft).
  cbn zeta in Hleft. cbn [obj stream pos] in Hleft.
  destruct Hleft as [[Hleft Hstopl] | (Hleft & Hn & Hj & Hy)].
  - assert (Hwf3 : wf_grid (obj (mkWorld (emit_all (obj s) (left_trace l0 r0 w nl))
                                         (stream s) (S (S (pos s))))))
      by (apply wf_grid_emit_all; exact Hwf).
    destruct (stepout_right_run fuel y w (steps_down l0 w nl) r0 k _ Hwf3)
      as (nr & Hnr & Hfr & Hright).
    cbn zeta in Hright. cbn [obj stream pos] in Hright.
    rewrite fx_at_emit_all in Hright. rewrite <- emit_all_app in Hright.
    exists nl, nr. split; [exact Hnl |]. split; [exact Hnr |]. cbn zeta.
    unfold bind. rewrite Hleft. cbv beta iota.
    destruct Hright as [[Hright Hstopr] | (Hright & Hn & Hk & Hy)].
    + left. rewrite Hright. unfold ret. auto.
    + right. rewrite Hright. split; [reflexivity |]. right. lia.
  - exists nl, 0%nat. split; [exact Hnl |]. split; [lia |]. cbn zeta.
    cbn [right_trace]. rewrite app_nil_r.
    right. unfold bind. rewrite Hleft. split; [reflexivity |]. left. lia.
Qed.

(** With enough fuel for both budgets [stepout] returns. *)
Lemma stepout_run (fuel : nat) (x y w : Q) (m : Z) (s : World) :
  wf_grid (obj s) ->
  let u := stream s (pos s) in
  let v := stream s (S (pos s)) in
  let l0 := x - w * u in
  let r0 := l0 + w in
  let j := budget_left m v in
  let k := budget_right m v in
  (Z.to_nat j <= fuel)%nat ->
  (Z.to_nat k <= fuel)%nat ->
  exists nl nr : nat,
    (Z.of_nat nl <= Z.max 0 j)%Z /\
    (Z.of_nat nr <= Z.max 0 k)%Z /\
    stepout fuel x y w m s =
      (Ok (steps_down l0 w nl, steps_up r0 w nr),
       mkWorld (emit_all (obj s)
                  (left_trace l0 r0 w nl ++ right_trace (steps_down l0 w nl) r0 w nr))
               (stream s) (S (S (pos s)))) /\
    ((j - Z.of_nat nl <= 0)%Z \/ fx_at (obj s) (steps_down l0 w nl) <= y) /\
    ((k - Z.of_nat nr <= 0)%Z \/ fx_at (obj s) (steps_up r0 w nr) <= y).
Proof.
  intros Hwf u v l0 r0 j k Hj Hk.
  destruct (stepout_any fuel x y w m s Hwf) as (nl & nr & Hnl & Hnr & Hres).
  cbn zeta in Hres. fold u v l0 r0 j k in Hres.
  exists nl, nr. split; [exact Hnl |]. split; [exact Hnr |].
  destruct Hres as [(Hrun & Hl & Hr) | (_ & Hout)]; [auto | lia].
Qed.

(** ** Shapes of the written intervals *)

Lemma last_cons_last {A} (a : A) (l : list A) (d : A) :
  List.last (a :: l) d = List.last l a.
Proof.
  destruct l as [| b l]; [reflexivity |].
  change (List.last (b :: l) d = List.last (b :: l) a). apply last_cons_default.
Qed.

Lemma widening_app (t1 t2 : list (Q * Q)) :
  forall p, widening p (t1 ++ t2) <-> widening p t1 /\ widening (List.last t1 p) t2.
Proof.
  induction t1 as [| c t1 IH]; intros p.
  - simpl. tauto.
  - rewrite last_cons_last. simpl. rewrite IH. tauto.
Qed.

Lemma left_trace_last (n : nat) :
  forall l r w, List.last (left_trace l r w n) (l, r) = (steps_down l w n, r).
Proof.
  induction n as [| n IH]; intros l r w; [reflexivity |].
  cbn [left_trace steps_down]. rewrite last_cons_last. apply IH.
Qed.

Lemma right_trace_last (n : nat) :
  forall l r w, List.last (right_trace l r w n) (l, r) = (l, steps_up r w n).
Proof.
  induction n as [| n IH]; intros l r w; [reflexivity |].
  cbn [right_trace steps_up]. rewrite last_cons_last. apply IH.
Qed.

Lemma left_trace_widening (n : nat) :
  forall l r w, 0 <= w -> widening (l, r) (left_trace l r w n).
Proof.
  induction n as [| n IH]; intros l r w Hw; simpl; [exact I |].
  split; [lra |]. split; [lra |]. now apply IH.
Qed.

Lemma right_trace_widening (n : nat) :
  forall l r w, 0 <= w -> widening (l, r) (right_trace l r w n).
Proof.
  induction n as [| n IH]; intros l r w Hw; simpl; [exact I |].
  split; [lra |]. split; [lra |]. now apply IH.
Qed.

Lemma widening_brackets (x : Q) (tr : list (Q * Q)) :
  forall p, widening p tr -> brackets x p -> Forall (brackets x) tr.
Proof.
  induction tr as [| c tr IH]; intros p Hw Hb; [constructor |].
  destruct Hw as (Hl & Hr & Hw). destruct Hb as [Hb1 Hb2].
  assert (Hc : brackets x c) by (split; lra).
  constructor; [exact Hc |]. now apply (IH c).
Qed.

Lemma widening_last (tr : list (Q * Q)) :
  forall p, widening p tr ->
    fst (List.last tr p) <= fst p /\ snd p <= snd (List.last tr p).
Proof.
  induction tr as [| c tr IH]; intros p Hw; [simpl; split; lra |].
  destruct Hw as (Hl & Hr & Hw). rewrite last_cons_last.
  destruct (IH c Hw). split; lra.
Qed.

Lemma doubling_chain_widening (tr : list (Q * Q)) :
  forall p, fst p <= snd p -> doubling_chain p tr -> widening p tr.
Proof.
  induction tr as [| c tr IH]; intros p Hp Hc; [exact I |].
  destruct Hc as [[-> | ->] Hc]; cbn [widening fst snd].
  - split; [lra |]. split; [lra |]. apply IH; [cbn [fst snd]; lra | exact Hc].
  - split; [lra |]. split; [lra |]. apply IH; [cbn [fst snd]; lra | exact Hc].
Qed.

(** ** The loop of [double] *)

Lemma double_guard_run (y l r : Q) (s : World) :
  wf_grid (obj s) ->
  double_guard y l r s = (Ok (double_guard_at (obj s) y l r), s).
Proof.
  intros Hwf. unfold double_guard, double_guard_at, bind.
  rewrite (fx_run l s Hwf).
  destruct (Qltb y (fx_at (obj s) l)); [reflexivity |].
  rewrite (fx_run r s Hwf). reflexivity.
Qed.

(** The interval the body of the loop of [double] writes. *)
Lemma double_loop_stop (fuel : nat) (y l r : Q) (k : Z) (s : World) :
  wf_grid (obj s) ->
  (k <= 0)%Z \/ double_guard_at (obj s) y l r = false ->
  double_loop fuel y l r k s = (Ok (l, r), s).
Proof.
  intros Hwf Hstop.
  destruct fuel; cbn [double_loop]; (destruct (0 <? k)%Z eqn:Hk; [| reflexivity]);
    apply Z.ltb_lt in Hk; (destruct Hstop as [Hstop | Hstop]; [lia |]);
    unfold bind; rewrite (double_guard_run y l r s Hwf), Hstop; reflexivity.
Qed.

Lemma double_loop_out (y l r : Q) (k : Z) (s : World) :
  wf_grid (obj s) ->
  (0 < k)%Z -> double_guard_at (obj s) y l r = true ->
  double_loop 0 y l r k s = (OutOfFuel, s).
Proof.
  intros Hwf Hk Hg. cbn [double_loop]. apply Z.ltb_lt in Hk. rewrite Hk.
  unfold bind. rewrite (double_guard_run y l r s Hwf), Hg. reflexivity.
Qed.

Lemma double_loop_step (fuel : nat) (y l r : Q) (k : Z) (s : World) :
  wf_grid (obj s) ->
  (0 < k)%Z -> double_guard_at (obj s) y l r = true ->
  let nxt := if Qltb (stream s (pos s)) (1 # 2)
             then (l - (r - l), r) else (l, r + (r - l)) in
  double_loop (S fuel) y l r k s =
  double_loop fuel y (fst nxt) (snd nxt) k
    (mkWorld (emit (obj s) nxt) (stream s) (S (pos s))).
Proof.
  intros Hwf Hk Hg nxt. cbn [double_loop]. apply Z.ltb_lt in Hk. rewrite Hk.
  unfold bind at 1. rewrite (double_guard_run y l r s Hwf), Hg.
  unfold __refresh, bind, modify_self, random_uniform.
  cbn [obj stream pos].
  unfold emit, nxt. destruct (Qltb (stream s (pos s)) (1 # 2)); reflexivity.
Qed.

(** Whatever the fuel, the loop of [double] raises nothing; it has written a
    chain of doublings, and it either returned the last interval written with
    its guard false, or used all its fuel with its guard still true. *)
Lemma double_loop_run (fuel : nat) :
  forall (y l r : Q) (k : Z) (s : World),
    wf_grid (obj s) ->
    exists tr : list (Q * Q),
      doubling_chain (l, r) tr /\
      (length tr <= fuel)%nat /\
      let s' := mkWorld (emit_all (obj s) tr) (stream s) (pos s + length tr) in
      let final := List.last tr (l, r) in
      (double_loop fuel y l r k s = (Ok final, s') /\
       ((k <= 0)%Z \/ double_guard_at (obj s) y (fst final) (snd final) = false))
      \/
      (double_loop fuel y l r k s = (OutOfFuel, s') /\
       length tr = fuel /\ (0 < k)%Z /\
       double_guard_at (obj s) y (fst final) (snd final) = true).
Proof.
  induction fuel as [| fuel IH]; intros y l r k s Hwf.
  - exists []. split; [exact I |]. split; [simpl; lia |].
    cbn [emit_all fold_left length List.last fst snd].
    rewrite Nat.add_0_r, world_eta.
    destruct (Z_lt_le_dec 0 k) as [Hk | Hk].
    + destruct (double_guard_at (obj s) y l r) eqn:Hg.
      * right. rewrite double_loop_out by assumption. auto.
      * left. rewrite double_loop_stop by auto. auto.
    + left. rewrite double_loop_stop by auto. auto.
  - destruct (Z_lt_le_dec 0 k) as [Hk | Hk];
      [destruct (double_guard_at (obj s) y l r) eqn:Hg |].
    + rewrite (double_loop_step fuel y l r k s Hwf Hk Hg).
      set (nxt := if Qltb (stream s (pos s)) (1 # 2)
                  then (l - (r - l), r) else (l, r + (r - l))).
      set (s1 := mkWorld (emit (obj s) nxt) (stream s) (S (pos s))).
      destruct (IH y (fst nxt) (snd nxt) k s1) as (tr & Hch & Hlen & Hres).
      { now apply (wf_grid_same (obj s)). }
      assert (Hnxt : (fst nxt, snd nxt) = nxt) by now destruct nxt.
      rewrite Hnxt in Hch, Hres.
      exists (nxt :: tr). split.
      { split; [| exact Hch].
        unfold nxt. cbn [fst snd]. destruct (Qltb (stream s (pos s)) (1 # 2)); auto. }
      split; [simpl; lia |].
      rewrite last_cons_last.
      change (emit_all (obj s) (nxt :: tr)) with (emit_all (obj s1) tr).
      replace (pos s + length (nxt :: tr))%nat with (pos s1 + length tr)%nat
        by (simpl; lia).
      change (stream s) with (stream s1).
      assert (Hfx : forall a b, double_guard_at (obj s1) y a b
                                = double_guard_at (obj s) y a b).
      { intros a b. unfold double_guard_at.
        now rewrite !(fx_at_grid (obj s) (obj s1)). }
      cbn zeta in Hres. rewrite Hfx in Hres. cbn zeta.
      destruct Hres as [[Hrun Hstop] | (Hrun & Hl & Hk' & Hstop)].
      * left. split; [exact Hrun | exact Hstop].
      * right. split; [exact Hrun |]. split; [simpl; lia |]. auto.
    + exists []. split; [exact I |]. split; [simpl; lia |].
      cbn [emit_all fold_left length List.last fst snd].
      rewrite Nat.add_0_r, world_eta. left. rewrite double_loop_stop by auto. auto.
    + exists []. split; [exact I |]. split; [simpl; lia |].
      cbn [emit_all fold_left length List.last fst snd].
      rewrite Nat.add_0_r, world_eta. left. rewrite double_loop_stop by auto. auto.
Qed.

(** ** [double] as a whole *)

Lemma double_run (fuel : nat) (x y w : Q) (p : Z) (s : World) :
  wf_grid (obj s) ->
  let l0 := x - w * stream s (pos s) in
  let r0 := l0 + w in
  exists tr : list (Q * Q),
    doubling_chain (l0, r0) tr /\
    (length tr <= fuel)%nat /\
    let s' := mkWorld (emit_all (obj s) tr) (stream s) (S (pos s) + length tr) in
    let final := List.last tr (l0, r0) in
    (double fuel x y w p s = (Ok final, s') /\
     ((p <= 0)%Z \/ double_guard_at (obj s) y (fst final) (snd final) = false))
    \/
    (double fuel x y w p s = (OutOfFuel, s') /\
     length tr = fuel /\ (0 < p)%Z /\
     double_guard_at (obj s) y (fst final) (snd final) = true).
Proof.
  intros Hwf l0 r0.
  change (double fuel x y w p s)
    with (double_loop fuel y l0 r0 p (mkWorld (obj s) (stream s) (S (pos s)))).
  apply (double_loop_run fuel y l0 r0 p (mkWorld (obj s) (stream s) (S (pos s))) Hwf).
Qed.

Lemma initial_interval_brackets (x w u : Q) :
  0 <= w -> 0 <= u <= 1 -> brackets x (x - w * u, x - w * u + w).
Proof. intros Hw [Hu0 Hu1]. unfold brackets. cbn [fst snd]. split; nra. Qed.

Lemma initial_interval_ordered (x w u : Q) :
  0 <= w -> x - w * u <= x - w * u + w.
Proof. intros Hw. lra. Qed.

Lemma stepout_trace_widening (l r w : Q) (nl nr : nat) :
  0 <= w ->
  widening (l, r) (left_trace l r w nl ++ right_trace (steps_down l w nl) r w nr).
Proof.
  intros Hw. apply widening_app. split; [now apply left_trace_widening |].
  rewrite left_trace_last. now apply right_trace_widening.
Qed.

Lemma last_app_cons {A} (l1 : list A) :
  forall (a : A) (l2 : list A) (d d' : A),
    List.last (l1 ++ a :: l2) d = List.last (a :: l2) d'.
Proof.
  induction l1 as [| b l1 IH]; intros a l2 d d'.
  - apply last_cons_default.
  - change ((b :: l1) ++ a :: l2) with (b :: (l1 ++ a :: l2)).
    rewrite last_cons_last. destruct l1 as [| c l1].
    + cbn [app]. apply last_cons_default.
    + rewrite <- (IH a l2 b d'). reflexivity.
Qed.

Lemma stepout_trace_last (l r w : Q) (nl nr : nat) :
  List.last (left_trace l r w nl ++ right_trace (steps_down l w nl) r w nr) (l, r)
  = (steps_down l w nl, steps_up r w nr).
Proof.
  destruct nr as [| nr].
  - cbn [right_trace steps_up]. rewrite app_nil_r. apply left_trace_last.
  - cbn [right_trace].
    rewrite (last_app_cons _ _ _ _ (steps_down l w nl, r)).
    apply (right_trace_last (S nr)).
Qed.

(** ** [next_step], mode by mode *)

Lemma next_step_unfold (fuel : nat) (s : World) :
  num_modes (obj s) <> 0%Z ->
  next_step fuel s =
  bind (mode_work fuel (set_mode (next_mode (obj s)) (obj s)))
       (fun _ => __refresh)
       (mkWorld (set_mode (next_mode (obj s)) (obj s)) (stream s) (pos s)).
Proof.
  intros Hnz. apply Z.eqb_neq in Hnz.
  unfold next_step, bind at 1, get_self. unfold bind at 1, lift, py_mod.
  rewrite Hnz. reflexivity.
Qed.

(** Line 43 divides by [num_modes]: with no modes [next_step] raises before
    it changes anything. *)
Lemma next_step_zero (fuel : nat) (s : World) :
  num_modes (obj s) = 0%Z ->
  next_step fuel s = (Raise ZeroDivisionError, s).
Proof.
  intros Hz. unfold next_step, bind at 1, get_self. unfold bind at 1, lift, py_mod.
  rewrite Hz. reflexivity.
Qed.

Lemma next_step_mode4 (fuel : nat) (s : World) :
  num_modes (obj s) <> 0%Z ->
  next_mode (obj s) = 4%Z ->
  next_step fuel s =
  bind (bind (call_update_fn fuel (curr_x (obj s)) (curr_y (obj s)))
             (fun sl => modify_self (set_slice sl)))
       (fun _ => __refresh)
       (mkWorld (set_mode 4 (obj s)) (stream s) (pos s)).
Proof.
  intros Hnz H. rewrite (next_step_unfold fuel s Hnz), H. reflexivity.
Qed.

(** ** Rounding is monotone *)

Lemma scale2_Q (n k : Z) :
  inject_Z (scale2 n k) == inject_Z n * 2 ^ Z.max 0 k.
Proof.
  unfold scale2. rewrite inject_Z_mult, Zpower_Qpower by lia. reflexivity.
Qed.

Lemma pow2_pos (k : Z) : 0 < 2 ^ k.
Proof. apply Qpower_0_lt. reflexivity. Qed.

Lemma pow2_split (k : Z) : 2 ^ Z.max 0 k == 2 ^ k * 2 ^ Z.max 0 (- k).
Proof.
  destruct (Z_le_gt_dec 0 k) as [H | H].
  - rewrite (Z.max_r 0 k), (Z.max_l 0 (- k)) by lia.
    change (2 ^ 0) with 1. ring.
  - rewrite (Z.max_l 0 k), (Z.max_r 0 (- k)) by lia.
    rewrite <- Qpower_plus by discriminate.
    replace (k + - k)%Z with 0%Z by lia. reflexivity.
Qed.

(** The quotient [scale2 n k / scale2 d (- k)] is [n / d * 2^k]. *)
Lemma scaled_quotient (n d k : Z) :
  inject_Z (scale2 n k) * inject_Z d
  == inject_Z (scale2 d (- k)) * inject_Z n * 2 ^ k.
Proof.
  rewrite !scale2_Q, (pow2_split k). ring.
Qed.

Lemma round_half_even_spec (n d : Z) :
  (0 < d)%Z ->
  let m := round_half_even n d in
  (2 * m * d - d <= 2 * n <= 2 * m * d + d)%Z /\
  ((2 * n = 2 * m * d + d)%Z -> Z.even m = true) /\
  ((2 * n = 2 * m * d - d)%Z -> Z.even m = true).
Proof.
  intros Hd. unfold round_half_even.
  pose proof (Z.div_mod n d) as Hdm. pose proof (Z.mod_pos_bound n d Hd) as Hr.
  set (q := (n / d)%Z) in *. set (r := (n mod d)%Z) in *.
  assert (Hn : (n = d * q + r)%Z) by (apply Hdm; lia). clear Hdm.
  destruct (2 * r ?= d)%Z eqn:E.
  - apply Z.compare_eq in E.
    destruct (Z.even q) eqn:Ev; cbv zeta.
    + split; [nia |]. split; [intros _; exact Ev | intros H; nia].
    + split; [nia |]. split; [intros H; nia |].
      intros _. rewrite Z.even_add, Ev. reflexivity.
  - rewrite Z.compare_lt_iff in E. cbv zeta.
    split; [nia |]. split; intros H; nia.
  - rewrite Z.compare_gt_iff in E. cbv zeta.
    split; [nia |]. split; intros H; nia.
Qed.

Lemma round_half_even_mono (n1 d1 n2 d2 : Z) :
  (0 < d1)%Z -> (0 < d2)%Z -> (n1 * d2 <= n2 * d1)%Z ->
  (round_half_even n1 d1 <= round_half_even n2 d2)%Z.
Proof.
  intros Hd1 Hd2 Hle.
  destruct (round_half_even_spec n1 d1 Hd1) as ([Hlo1 Hhi1] & Hdn1 & Hup1).
  destruct (round_half_even_spec n2 d2 Hd2) as ([Hlo2 Hhi2] & Hdn2 & Hup2).
  set (m1 := round_half_even n1 d1) in *. set (m2 := round_half_even n2 d2) in *.
  destruct (Z_le_gt_dec m1 m2) as [H | H]; [exact H | exfalso].
  assert (Hm : (m2 + 1 <= m1)%Z) by lia.
  assert (H1 : ((2 * m2 + 1) * d1 <= 2 * n1)%Z) by nia.
  assert (H2 : (2 * n1 * d2 <= (2 * m2 + 1) * d1 * d2)%Z) by nia.
  assert (H3 : ((2 * m2 + 1) * d1 * d2 <= 2 * n1 * d2)%Z) by nia.
  assert (E1 : (2 * n1 = (2 * m2 + 1) * d1)%Z) by nia.
  assert (E2 : (2 * n2 = (2 * m2 + 1) * d2)%Z) by nia.
  assert (Em : (m1 = m2 + 1)%Z) by nia.
  assert (Ev2 : Z.even m2 = true) by (apply Hdn2; lia).
  assert (Ev1 : Z.even m1 = true) by (apply Hup1; nia).
  rewrite Em, Z.even_add, Ev2 in Ev1. discriminate.
Qed.

Lemma log2_spec_Q (n : Z) :
  (0 < n)%Z -> 2 ^ Z.log2 n <= inject_Z n /\ inject_Z n < 2 ^ (Z.log2 n + 1).
Proof.
  intros Hn. destruct (Z.log2_spec n Hn) as [H1 H2].
  pose proof (Z.log2_nonneg n) as H0.
  change (2 ^ Z.log2 n) with (inject_Z 2 ^ Z.log2 n).
  change (2 ^ (Z.log2 n + 1)) with (inject_Z 2 ^ (Z.log2 n + 1)).
  rewrite <- !Zpower_Qpower by lia. rewrite <- Zle_Qle, <- Zlt_Qlt.
  split; [exact H1 | exact H2].
Qed.

(** [binade] finds the power of two at or below the quotient. *)
Lemma binade_spec (n d : Z) :
  (0 < n)%Z -> (0 < d)%Z ->
  inject_Z d * 2 ^ binade n d <= inject_Z n /\
  inject_Z n < inject_Z d * 2 ^ (binade n d + 1).
Proof.
  intros Hn Hd.
  destruct (log2_spec_Q n Hn) as [Hn1 Hn2].
  destruct (log2_spec_Q d Hd) as [Hd1 Hd2].
  set (ln := Z.log2 n) in *. set (ld := Z.log2 d) in *.
  assert (Hdq : 0 < inject_Z d) by (change 0 with (inject_Z 0); now rewrite <- Zlt_Qlt).
  pose proof (pow2_pos (ln - ld)) as Hp0.
  pose proof (pow2_pos (ln - ld - 1)) as Hp1.
  pose proof (pow2_pos (ln - ld + 1)) as Hp2.
  pose proof (pow2_pos ld) as Hpd.
  assert (E1 : 2 ^ (ln + 1) == 2 ^ ld * 2 ^ (ln - ld + 1)).
  { rewrite <- Qpower_plus by discriminate.
    replace (ld + (ln - ld + 1))%Z with (ln + 1)%Z by lia. reflexivity. }
  assert (E2 : 2 ^ ln == 2 ^ (ld + 1) * 2 ^ (ln - ld - 1)).
  { rewrite <- Qpower_plus by discriminate.
    replace (ld + 1 + (ln - ld - 1))%Z with ln by lia. reflexivity. }
  unfold binade. fold ln ld. cbv zeta.
  pose proof (pow2_split (ln - ld)) as Hs.
  pose proof (pow2_pos (Z.max 0 (- (ln - ld)))) as Hpm.
  pose proof (scale2_Q d (ln - ld)) as Sd.
  pose proof (scale2_Q n (- (ln - ld))) as Sn.
  destruct (Z.leb_spec (scale2 d (ln - ld)) (scale2 n (- (ln - ld)))) as [T | T].
  - rewrite Zle_Qle, Sd, Sn, Hs in T. split; [nra |].
    rewrite E1 in Hn2. nra.
  - rewrite Zlt_Qlt, Sd, Sn, Hs in T.
    replace (ln - ld - 1 + 1)%Z with (ln - ld)%Z by lia.
    split; [| nra]. rewrite E2 in Hn1. nra.
Qed.

(** For [q > 0], [rnd53 q] is the rounded significand times the unit of the
    binade of [q]. *)
Lemma rnd53_pos_value (q : Q) :
  0 < q ->
  let e := binade (Qnum q) (Zpos (Qden q)) in
  let m := round_half_even (scale2 (Qnum q) (52 - e))
             (scale2 (Zpos (Qden q)) (- (52 - e))) in
  rnd53 q == inject_Z m * 2 ^ (e - 52).
Proof.
  intros Hq e m.
  assert (Hn : (0 < Qnum q)%Z) by (unfold Qlt in Hq; cbn in Hq; lia).
  unfold rnd53. rewrite (Z.abs_eq (Qnum q)) by lia.
  destruct (Qnum q =? 0)%Z eqn:E; [apply Z.eqb_eq in E; lia |].
  fold e. cbv zeta. fold m.
  rewrite (Z.sgn_pos (Qnum q) Hn), Z.mul_1_l.
  rewrite Qmake_Qdiv.
  assert (Hs1 : (0 < scale2 1 (52 - e))%Z) by (apply scale2_pos; lia).
  rewrite Z2Pos.id by exact Hs1.
  rewrite !scale2_Q, (pow2_split (52 - e)).
  replace (e - 52)%Z with (- (52 - e))%Z by lia.
  pose proof (pow2_pos (52 - e)) as P1.
  pose proof (pow2_pos (Z.max 0 (- (52 - e)))) as P2.
  rewrite (Qpower_opp 2 (52 - e)).
  change (inject_Z 1) with 1. field. split; lra.
Qed.

Lemma Qnum_pos (q : Q) : 0 < q -> (0 < Qnum q)%Z.
Proof. unfold Qlt. cbn. lia. Qed.

Lemma Qnum_value (q : Q) : inject_Z (Qnum q) == q * inject_Z (Zpos (Qden q)).
Proof.
  destruct q as [n d]. cbn [Qnum Qden]. rewrite (Qmake_Qdiv n d).
  field. intros H. discriminate H.
Qed.

Lemma Qden_pos (q : Q) : 0 < inject_Z (Zpos (Qden q)).
Proof. reflexivity. Qed.

Lemma binade_bounds (q : Q) :
  0 < q ->
  2 ^ binade (Qnum q) (Zpos (Qden q)) <= q /\
  q < 2 ^ (binade (Qnum q) (Zpos (Qden q)) + 1).
Proof.
  intros Hq.
  destruct (binade_spec (Qnum q) (Zpos (Qden q)) (Qnum_pos q Hq)) as [H1 H2]; [lia |].
  rewrite (Qnum_value q) in H1, H2. pose proof (Qden_pos q) as Hd.
  split; nra.
Qed.

Lemma scaled_value (q : Q) (k : Z) :
  inject_Z (scale2 (Qnum q) k)
  == inject_Z (scale2 (Zpos (Qden q)) (- k)) * (q * 2 ^ k).
Proof.
  pose proof (scaled_quotient (Qnum q) (Zpos (Qden q)) k) as H.
  rewrite (Qnum_value q) in H. pose proof (Qden_pos q) as Hd.
  nra.
Qed.

Lemma scale2_den_pos (q : Q) (k : Z) : 0 < inject_Z (scale2 (Zpos (Qden q)) k).
Proof.
  change 0 with (inject_Z 0). rewrite <- Zlt_Qlt. apply scale2_pos. lia.
Qed.

(** The rounded significand lies between [2^52] and [2^53]. *)
Lemma significand_bounds (q : Q) :
  0 < q ->
  let e := binade (Qnum q) (Zpos (Qden q)) in
  let m := round_half_even (scale2 (Qnum q) (52 - e))
             (scale2 (Zpos (Qden q)) (- (52 - e))) in
  2 ^ 52 <= inject_Z m <= 2 ^ 53.
Proof.
  intros Hq e m.
  destruct (binade_bounds q Hq) as [B1 B2]. fold e in B1, B2.
  pose proof (scaled_value q (52 - e)) as Hv.
  pose proof (scale2_den_pos q (- (52 - e))) as HD.
  assert (HDz : (0 < scale2 (Zpos (Qden q)) (- (52 - e)))%Z) by (apply scale2_pos; lia).
  destruct (round_half_even_spec (scale2 (Qnum q) (52 - e))
              (scale2 (Zpos (Qden q)) (- (52 - e))) HDz) as ([Hlo Hhi] & _).
  fold m in Hlo, Hhi.
  set (N := scale2 (Qnum q) (52 - e)) in *.
  set (D := scale2 (Zpos (Qden q)) (- (52 - e))) in *.
  pose proof (pow2_pos (52 - e)) as Pk.
  assert (E52 : 2 ^ e * 2 ^ (52 - e) == 2 ^ 52).
  { rewrite <- Qpower_plus by discriminate.
    replace (e + (52 - e))%Z with 52%Z by lia. reflexivity. }
  assert (E53 : 2 ^ (e + 1) * 2 ^ (52 - e) == 2 ^ 53).
  { rewrite <- Qpower_plus by discriminate.
    replace (e + 1 + (52 - e))%Z with 53%Z by lia. reflexivity. }
  assert (S1 : 2 ^ 52 <= q * 2 ^ (52 - e)) by (rewrite <- E52; nra).
  assert (S2 : q * 2 ^ (52 - e) < 2 ^ 53) by (rewrite <- E53; nra).
  assert (R1 : inject_Z D * 2 ^ 52 <= inject_Z N) by (rewrite Hv; nra).
  assert (R2 : inject_Z N < inject_Z D * 2 ^ 53) by (rewrite Hv; nra).
  change (2 ^ 52) with (inject_Z (2 ^ 52)) in R1 |- *.
  change (2 ^ 53) with (inject_Z (2 ^ 53)) in R2 |- *.
  rewrite <- inject_Z_mult, <- Zle_Qle in R1.
  rewrite <- inject_Z_mult, <- Zlt_Qlt in R2.
  rewrite <- !Zle_Qle.
  change (2 ^ 52)%Z with 4503599627370496%Z in *.
  change (2 ^ 53)%Z with 9007199254740992%Z in *.
  split; nia.
Qed.

Lemma rnd53_mono_pos (a b : Q) : 0 < a -> a <= b -> rnd53 a <= rnd53 b.
Proof.
  intros Ha Hab. assert (Hb : 0 < b) by lra.
  rewrite (rnd53_pos_value a Ha), (rnd53_pos_value b Hb).
  destruct (binade_bounds a Ha) as [A1 A2]. destruct (binade_bounds b Hb) as [B1 B2].
  destruct (significand_bounds a Ha) as [MA1 MA2].
  destruct (significand_bounds b Hb) as [MB1 MB2].
  set (ea := binade (Qnum a) (Zpos (Qden a))) in *.
  set (eb := binade (Qnum b) (Zpos (Qden b))) in *.
  assert (Hlt : (ea < eb + 1)%Z).
  { apply (Qpower_lt_compat_l_inv 2); [lra | reflexivity]. }
  destruct (Z.eq_dec ea eb) as [Heq | Hne].
  - rewrite <- Heq. clear MA1 MA2 MB1 MB2.
    pose proof (pow2_pos (ea - 52)) as Pe.
    assert (Hm : (round_half_even (scale2 (Qnum a) (52 - ea))
                    (scale2 (Zpos (Qden a)) (- (52 - ea)))
                  <= round_half_even (scale2 (Qnum b) (52 - ea))
                       (scale2 (Zpos (Qden b)) (- (52 - ea))))%Z).
    { apply round_half_even_mono; [apply scale2_pos; lia | apply scale2_pos; lia |].
      rewrite Zle_Qle, !inject_Z_mult.
      rewrite (scaled_value a (52 - ea)), (scaled_value b (52 - ea)).
      pose proof (scale2_den_pos a (- (52 - ea))) as DA.
      pose proof (scale2_den_pos b (- (52 - ea))) as DB.
      pose proof (pow2_pos (52 - ea)) as Pk.
      assert (Hk : a * 2 ^ (52 - ea) <= b * 2 ^ (52 - ea)) by nra.
      set (x := a * 2 ^ (52 - ea)) in *. set (y := b * 2 ^ (52 - ea)) in *.
      set (A := inject_Z (scale2 (Zpos (Qden a)) (- (52 - ea)))) in *.
      set (B := inject_Z (scale2 (Zpos (Qden b)) (- (52 - ea)))) in *.
      assert (HAB : 0 < A * B) by nra.
      apply (Qmult_le_l x y (A * B) HAB) in Hk. nra. }
    rewrite Zle_Qle in Hm. nra.
  - assert (Hle : (ea + 1 <= eb)%Z) by lia.
    pose proof (Qpower_le_compat_l 2 _ _ Hle) as Hp.
    assert (E1 : 2 ^ 53 * 2 ^ (ea - 52) == 2 ^ (ea + 1)).
    { rewrite <- Qpower_plus by discriminate.
      replace (53 + (ea - 52))%Z with (ea + 1)%Z by lia. reflexivity. }
    assert (E2 : 2 ^ 52 * 2 ^ (eb - 52) == 2 ^ eb).
    { rewrite <- Qpower_plus by discriminate.
      replace (52 + (eb - 52))%Z with eb by lia. reflexivity. }
    pose proof (pow2_pos (ea - 52)) as Pa. pose proof (pow2_pos (eb - 52)) as Pb.
    assert (Hp' : 2 ^ (ea + 1) <= 2 ^ eb) by (apply Hp; lra).
    rewrite <- E1, <- E2 in Hp'. nra.
Qed.

Lemma rnd53_nonneg (q : Q) : 0 <= q -> 0 <= rnd53 q.
Proof.
  intros Hq. destruct (Qlt_le_dec 0 q) as [Hpos | Hz].
  - rewrite (rnd53_pos_value q Hpos).
    destruct (significand_bounds q Hpos) as [M1 _].
    pose proof (pow2_pos (binade (Qnum q) (Zpos (Qden q)) - 52)) as P.
    pose proof (pow2_pos 52) as P52. nra.
  - rewrite (rnd53_zero q) by lra. lra.
Qed.

(** Rounding keeps the order of numbers that are not negative. *)
Lemma rnd53_mono (a b : Q) : 0 <= a -> a <= b -> rnd53 a <= rnd53 b.
Proof.
  intros Ha Hab. destruct (Qlt_le_dec 0 a) as [Hpos | Hz].
  - now apply rnd53_mono_pos.
  - rewrite (rnd53_zero a) by lra. apply rnd53_nonneg. lra.
Qed.

Lemma round_half_even_nonneg (n d : Z) :
  (0 <= n)%Z -> (0 < d)%Z -> (0 <= round_half_even n d)%Z.
Proof.
  intros Hn Hd. pose proof (round_half_even_ge n d) as H.
  pose proof (Z.div_pos n d Hn Hd). lia.
Qed.

(** Rounding commutes with the absolute value: it is symmetric about 0. *)
Lemma rnd53_abs (q : Q) : Qabs (rnd53 q) == rnd53 (Qabs q).
Proof.
  destruct q as [n d]. unfold rnd53. cbn [Qnum Qden Qabs].
  rewrite Z.abs_idemp.
  destruct (Z.abs n =? 0)%Z eqn:E; [reflexivity |].
  apply Z.eqb_neq in E. cbv zeta.
  set (sh := (52 - binade (Z.abs n) (Zpos d))%Z).
  set (m := round_half_even (scale2 (Z.abs n) sh) (scale2 (Zpos d) (- sh))).
  assert (Hm : (0 <= m)%Z).
  { apply round_half_even_nonneg.
    - unfold scale2. assert (0 < 2 ^ Z.max 0 sh)%Z by (apply Z.pow_pos_nonneg; lia).
      nia.
    - apply scale2_pos. lia. }
  assert (HM : (0 <= scale2 m (- sh))%Z).
  { unfold scale2. assert (0 < 2 ^ Z.max 0 (- sh))%Z by (apply Z.pow_pos_nonneg; lia).
    nia. }
  unfold Qabs. unfold Qeq. cbn [Qnum Qden].
  f_equal.
  rewrite Z.abs_mul, (Z.abs_eq (scale2 m (- sh))) by exact HM.
  f_equal. clear - E. lia.
Qed.

(** The computed distance follows the exact one: a point that is not
    farther is not computed to be farther. *)
Lemma distance_mono (x xi xj : Q) :
  Qabs (xj - x) <= Qabs (xi - x) -> distance x xj <= distance x xi.
Proof.
  intros H. unfold distance. rewrite !rnd53_abs.
  apply rnd53_mono; [apply Qabs_nonneg | exact H].
Qed.

(** * The interval searches bracket the point *)

Lemma stepout_result_brackets (x w u : Q) (nl nr : nat) :
  0 <= w -> 0 <= u <= 1 ->
  steps_down (x - w * u) w nl <= x /\ x <= steps_up (x - w * u + w) w nr.
Proof.
  intros Hw Hu.
  pose proof (stepout_trace_widening (x - w * u) (x - w * u + w) w nl nr Hw) as Hwd.
  apply widening_last in Hwd. rewrite stepout_trace_last in Hwd.
  cbn [fst snd] in Hwd.
  destruct (initial_interval_brackets x w u Hw Hu) as [H1 H2].
  cbn [fst snd] in H1, H2. split; lra.
Qed.

Lemma doubling_result_brackets (x w u : Q) (tr : list (Q * Q)) :
  0 <= w -> 0 <= u <= 1 ->
  doubling_chain (x - w * u, x - w * u + w) tr ->
  brackets x (List.last tr (x - w * u, x - w * u + w)).
Proof.
  intros Hw Hu Hch.
  apply doubling_chain_widening in Hch; [| cbn [fst snd]; lra].
  apply widening_last in Hch. cbn [fst snd] in Hch.
  destruct (initial_interval_brackets x w u Hw Hu) as [H1 H2].
  cbn [fst snd] in H1, H2. split; lra.
Qed.

(** C1, as the code has it.  On a constructed sampler (a grid that is not
    empty, with one density value per grid point), when the draw [u] that
    places the initial interval lies in [0,1], with the widths the methods
    have by default, which are the widths of every call the module makes:
    - [stepout] with [w = 1], for any budget [m], returns once the fuel
      covers its two budgets, and the pair [(l, r)] it returns has
      [l <= x <= r];
    - [double] with [w = 1/4], for any budget [p], never raises, and every
      pair [(l, r)] it returns has [l <= x <= r];
    - a [next_step] that runs Mode 4, with either strategy, never raises, and
      when it returns the stored slice has [slice.l <= curr_x <= slice.r]. *)
Theorem interval_search_brackets (s : World) :
  wf_grid (obj s) ->
  0 <= stream s (pos s) <= 1 ->
  (forall (x y : Q) (m : Z),
     exists N : nat, forall fuel : nat, (N <= fuel)%nat ->
       exists (l r : Q) (s' : World),
         stepout fuel x y 1 m s = (Ok (l, r), s') /\ l <= x <= r) /\
  (forall (x y : Q) (p : Z) (fuel : nat),
     match double fuel x y (1 # 4) p s with
     | (Ok (l, r), _) => l <= x <= r
     | (Raise _, _) => False
     | (OutOfFuel, _) => True
     end) /\
  (forall fuel : nat, mode (obj s) = 3%Z -> num_modes (obj s) = 5%Z ->
     match next_step fuel s with
     | (Ok _, s') =>
         fst (slice (obj s')) <= curr_x (obj s') <= snd (slice (obj s'))
     | (Raise _, _) => False
     | (OutOfFuel, _) => True
     end).
Proof.
  intros Hwf Hu.
  assert (Hw1 : 0 <= 1) by lra. assert (Hw4 : 0 <= 1 # 4) by lra.
  split; [| split].
  - intros x y m.
    exists (Z.to_nat (budget_left m (stream s (S (pos s))))
            + Z.to_nat (budget_right m (stream s (S (pos s)))))%nat.
    intros fuel Hfuel.
    destruct (stepout_run fuel x y 1 m s Hwf) as (nl & nr & _ & _ & Hrun & _);
      [lia | lia |].
    eexists _, _, _. split; [exact Hrun |].
    now apply stepout_result_brackets.
  - intros x y p fuel.
    destruct (double_run fuel x y (1 # 4) p s Hwf) as (tr & Hch & _ & Hres).
    cbn zeta in Hres.
    pose proof (doubling_result_brackets x (1 # 4) _ tr Hw4 Hu Hch) as Hb.
    destruct Hres as [[Hrun _] | [Hrun _]]; rewrite Hrun; [| exact I].
    destruct (List.last tr _) as [l r]. exact Hb.
  - intros fuel Hmode Hnum.
    assert (Hnz : num_modes (obj s) <> 0%Z) by lia.
    assert (Hnext : next_mode (obj s) = 4%Z).
    { unfold next_mode. rewrite Hmode, Hnum. reflexivity. }
    rewrite (next_step_mode4 fuel s Hnz Hnext).
    set (s4 := mkWorld (set_mode 4 (obj s)) (stream s) (pos s)).
    assert (Hwf4 : wf_grid (obj s4)) by exact Hwf.
    unfold bind at 1. unfold bind at 1. unfold call_update_fn, bind at 1, get_self.
    destruct (update_fn (obj s4)).
    + destruct (stepout_any fuel (curr_x (obj s)) (curr_y (obj s)) 1 40 s4 Hwf4)
        as (nl & nr & _ & _ & Hres).
      cbn zeta in Hres.
      destruct Hres as [(Hrun & _) | (Hrun & _)]; rewrite Hrun; [| exact I].
      unfold __refresh, modify_self. cbn [obj stream pos slice curr_x refresh_obj set_figure set_slice fst snd].
      destruct (emit_all_fields
                  (left_trace (curr_x (obj s) - 1 * stream s4 (pos s4))
                     (curr_x (obj s) - 1 * stream s4 (pos s4) + 1) 1 nl ++
                   right_trace
                     (steps_down (curr_x (obj s) - 1 * stream s4 (pos s4)) 1 nl)
                     (curr_x (obj s) - 1 * stream s4 (pos s4) + 1) 1 nr)
                  (obj s4)) as (_ & _ & _ & Hx & _).
      rewrite Hx. cbn [s4 obj curr_x set_mode].
      apply stepout_result_brackets; [lra | exact Hu].
    + destruct (double_run fuel (curr_x (obj s)) (curr_y (obj s)) (1 # 4) 5 s4 Hwf4)
        as (tr & Hch & _ & Hres).
      cbn zeta in Hres.
      pose proof (doubling_result_brackets (curr_x (obj s)) (1 # 4) _ tr Hw4 Hu Hch) as Hb.
      destruct Hres as [[Hrun _] | [Hrun _]]; rewrite Hrun; [| exact I].
      unfold __refresh, modify_self. cbn [obj stream pos slice curr_x refresh_obj set_figure set_slice fst snd].
      destruct (emit_all_fields tr (obj s4)) as (_ & _ & _ & Hx & _).
      rewrite Hx. cbn [s4 obj curr_x set_mode].
      exact Hb.
Qed.

Lemma interval_search_brackets_witness :
  let s := mkWorld (demo_ready Double)
             (stream_of [1 # 3; 1 # 3; 1 # 3; 2 # 3] (2 # 3)) 0 in
  (exists N : nat, forall fuel : nat, (N <= fuel)%nat ->
     exists (l r : Q) (s' : World),
       stepout fuel (-1) (1 # 2) 1 40 s = (Ok (l, r), s') /\ l <= -1 <= r) /\
  match double 6 (-1) (1 # 2) (1 # 4) 5 s with
  | (Ok (l, r), _) => l <= -1 <= r
  | (Raise _, _) => False
  | (OutOfFuel, _) => True
  end /\
  match next_step 6 s with
  | (Ok _, s') => fst (slice (obj s')) <= curr_x (obj s') <= snd (slice (obj s'))
  | (Raise _, _) => False
  | (OutOfFuel, _) => True
  end.
Proof.
  intros s.
  assert (Hwf : wf_grid (obj s)) by (split; [discriminate | reflexivity]).
  assert (Hu : 0 <= stream s (pos s) <= 1) by (split; vm_compute; discriminate).
  destruct (interval_search_brackets s Hwf Hu) as (H1 & H2 & H3).
  split; [| split].
  - apply H1.
  - apply H2.
  - apply H3; reflexivity.
Defined.

(** C1 as stated fails away from the default widths.  With a negative width
    the initial interval is inverted, [l > x > r], and the searches return
    it or move its ends further apart: [stepout] with [w = -1] returns
    [(5/2, -3/2)] for [x = 0], and [double] with [w = -1] and no budget
    returns [(1/2, -1/2)].  With the positive width 0.1 the exact interval
    contains [x], but the one float64 arithmetic computes does not: for the
    doubles [x = -0.9713760226542476] and [u = 0.9999999999999997] its right
    end is below [x]. *)
Lemma interval_search_counterexample :
  let s := mkWorld (demo_ready Stepout) (constant_stream (1 # 2)) 0 in
  0 <= stream s (pos s) <= 1 /\
  (exists l r : Q,
     fst (stepout 40 0 (1 # 2) (-1) 40 s) = Ok (l, r) /\
     l == 5 # 2 /\ r == -3 # 2 /\ ~ (l <= 0 <= r)) /\
  (exists l r : Q,
     fst (double 40 0 (1 # 2) (-1) 0 s) = Ok (l, r) /\
     l == 1 # 2 /\ r == -1 # 2 /\ ~ (l <= 0 <= r)) /\
  (let x := -136709021676947 # 140737488355328 in
   let w := 3602879701896397 # 36028797018963968 in
   let u := 9007199254740989 # 9007199254740992 in
   0 <= w /\ 0 <= u <= 1 /\
   brackets x (x - w * u, x - w * u + w) /\
   snd (initial_interval_rounded x w u) < x).
Proof.
  intros s. split; [split; vm_compute; discriminate |].
  split; [| split].
  - eexists _, _. split; [vm_compute; reflexivity |].
    split; [vm_compute; reflexivity |]. split; [vm_compute; reflexivity |].
    intros [H _]. vm_compute in H. apply H. reflexivity.
  - eexists _, _. split; [vm_compute; reflexivity |].
    split; [vm_compute; reflexivity |]. split; [vm_compute; reflexivity |].
    intros [H _]. vm_compute in H. apply H. reflexivity.
  - cbn zeta. split; [vm_compute; discriminate |].
    split; [split; vm_compute; discriminate |].
    split; [split; vm_compute; discriminate |].
    vm_compute. reflexivity.
Qed.

(** * Intermediate intervals only widen *)

(** C10, as the code has it.  On a constructed sampler, for a width
    [w >= 0], whatever the budget and however long the search has run (any
    fuel, returned or not): the intervals written to [self.slice] and sent to
    the display, in order, have non-increasing left ends and non-decreasing
    right ends starting from the initial interval, so each contains the
    initial interval; with the default width of the method ([1] for
    [stepout], [1/4] for [double]) and a first draw in [0,1], the initial
    interval and every interval written contain [x]. *)
Theorem slice_writes_only_widen (s : World) (x y w : Q) :
  wf_grid (obj s) ->
  0 <= w ->
  let l0 := x - w * stream s (pos s) in
  let r0 := l0 + w in
  (forall (m : Z) (fuel : nat),
     exists tr : list (Q * Q),
       obj (snd (stepout fuel x y w m s)) = emit_all (obj s) tr /\
       map shown_slice (figure (obj (snd (stepout fuel x y w m s))))
         = rev tr ++ map shown_slice (figure (obj s)) /\
       widening (l0, r0) tr /\
       (w = 1 -> 0 <= stream s (pos s) <= 1 ->
        Forall (brackets x) ((l0, r0) :: tr))) /\
  (forall (p : Z) (fuel : nat),
     exists tr : list (Q * Q),
       obj (snd (double fuel x y w p s)) = emit_all (obj s) tr /\
       map shown_slice (figure (obj (snd (double fuel x y w p s))))
         = rev tr ++ map shown_slice (figure (obj s)) /\
       widening (l0, r0) tr /\
       (w = (1 # 4) -> 0 <= stream s (pos s) <= 1 ->
        Forall (brackets x) ((l0, r0) :: tr))).
Proof.
  intros Hwf Hw l0 r0.
  assert (Hall : forall tr, widening (l0, r0) tr -> 0 <= stream s (pos s) <= 1 ->
                   Forall (brackets x) ((l0, r0) :: tr)).
  { intros tr Hwd Hu.
    assert (Hb : brackets x (l0, r0)) by now apply initial_interval_brackets.
    constructor; [exact Hb | now apply (widening_brackets x _ (l0, r0))]. }
  split.
  - intros m fuel.
    destruct (stepout_any fuel x y w m s Hwf) as (nl & nr & _ & _ & Hres).
    cbn zeta in Hres. fold l0 r0 in Hres.
    exists (left_trace l0 r0 w nl ++ right_trace (steps_down l0 w nl) r0 w nr).
    assert (Hwd : widening (l0, r0)
                    (left_trace l0 r0 w nl ++ right_trace (steps_down l0 w nl) r0 w nr))
      by now apply stepout_trace_widening.
    destruct Hres as [(Hrun & _) | (Hrun & _)]; rewrite Hrun; cbn [snd obj];
      (split; [reflexivity |]); (split; [apply emit_all_figure |]);
      (split; [exact Hwd | intros _ Hu; now apply Hall]).
  - intros p fuel.
    destruct (double_run fuel x y w p s Hwf) as (tr & Hch & _ & Hres).
    cbn zeta in Hres. fold l0 r0 in Hres, Hch.
    exists tr.
    assert (Hwd : widening (l0, r0) tr).
    { apply doubling_chain_widening; [| exact Hch]. unfold r0. cbn [fst snd]. lra. }
    destruct Hres as [(Hrun & _) | (Hrun & _)]; rewrite Hrun; cbn [snd obj];
      (split; [reflexivity |]); (split; [apply emit_all_figure |]);
      (split; [exact Hwd | intros _ Hu; now apply Hall]).
Qed.

Lemma slice_writes_only_widen_witness :
  let s := mkWorld (demo_ready Double)
             (stream_of [1 # 3; 1 # 3; 1 # 3; 2 # 3] (2 # 3)) 0 in
  exists tr : list (Q * Q),
    obj (snd (double 3 (-1) (1 # 2) (1 # 4) 5 s)) = emit_all (obj s) tr /\
    map shown_slice (figure (obj (snd (double 3 (-1) (1 # 2) (1 # 4) 5 s))))
      = rev tr ++ map shown_slice (figure (obj s)) /\
    widening (-1 - (1 # 4) * (1 # 3), -1 - (1 # 4) * (1 # 3) + (1 # 4)) tr /\
    Forall (brackets (-1))
      ((-1 - (1 # 4) * (1 # 3), -1 - (1 # 4) * (1 # 3) + (1 # 4)) :: tr).
Proof.
  intros s.
  assert (Hwf : wf_grid (obj s)) by (split; [discriminate | reflexivity]).
  assert (Hw : 0 <= 1 # 4) by (vm_compute; discriminate).
  assert (Hu : 0 <= stream s (pos s) <= 1) by (split; vm_compute; discriminate).
  destruct (slice_writes_only_widen s (-1) (1 # 2) (1 # 4) Hwf Hw) as (_ & H).
  destruct (H 5%Z 3%nat) as (tr & H1 & H2 & H3 & H4).
  exists tr. split; [exact H1 |]. split; [exact H2 |]. split; [exact H3 |].
  exact (H4 eq_refl Hu).
Defined.

(** C10 as stated fails for a negative width: [stepout] with [w = -1],
    [x = 0] and [u = 1/2] starts from the inverted interval [(1/2, -1/2)],
    which does not contain [x], and then moves the left end up twice and the
    right end down once.  For the positive width 0.1 the initial interval
    that float64 arithmetic computes for [x = -0.9713760226542476] and
    [u = 0.9999999999999997] does not contain [x] either. *)
Lemma slice_writes_counterexample :
  let s := mkWorld (demo_ready Stepout) (constant_stream (1 # 2)) 0 in
  let l0 := 0 - -1 * (1 # 2) in
  let r0 := l0 + -1 in
  let tr := left_trace l0 r0 (-1) 2 ++ right_trace (steps_down l0 (-1) 2) r0 (-1) 1 in
  map shown_slice (figure (obj (snd (stepout 40 0 (1 # 2) (-1) 40 s)))) = rev tr /\
  ~ brackets 0 (l0, r0) /\
  ~ widening (l0, r0) tr /\
  ~ Forall (brackets 0) tr /\
  (let x := -136709021676947 # 140737488355328 in
   let w := 3602879701896397 # 36028797018963968 in
   let u := 9007199254740989 # 9007199254740992 in
   0 <= w /\ 0 <= u <= 1 /\ ~ brackets x (initial_interval_rounded x w u)).
Proof.
  intros s l0 r0 tr. split; [vm_compute; reflexivity |].
  split; [| split; [| split]].
  - intros [H _]. vm_compute in H. apply H. reflexivity.
  - intros [H _]. vm_compute in H. apply H. reflexivity.
  - intros H. apply Forall_inv in H. destruct H as [H _].
    vm_compute in H. apply H. reflexivity.
  - cbn zeta. split; [vm_compute; discriminate |].
    split; [split; vm_compute; discriminate |].
    intros [_ H]. vm_compute in H. apply H. reflexivity.
Qed.

(** * The budgets of [stepout] *)

Lemma budget_sum (m : Z) (v : Q) :
  (budget_left m v + budget_right m v = m - 1)%Z.
Proof. unfold budget_right. lia. Qed.

Lemma budget_bounds (m : Z) (v : Q) :
  (1 <= m)%Z -> 0 <= v -> v < 1 ->
  (0 <= budget_left m v)%Z /\ (0 <= budget_right m v)%Z.
Proof.
  intros Hm Hv0 Hv1. unfold budget_right, budget_left.
  assert (Hm' : 1 <= inject_Z m) by (change 1 with (inject_Z 1); now rewrite <- Zle_Qle).
  assert (H0 : 0 <= inject_Z m * v) by nra.
  assert (H1 : inject_Z m * v < inject_Z m) by nra.
  split.
  - change 0%Z with (Qfloor 0). now apply Qfloor_resp_le.
  - pose proof (Qfloor_le (inject_Z m * v)) as Hfl.
    assert (Hlt : inject_Z (Qfloor (inject_Z m * v)) < inject_Z m) by lra.
    rewrite <- Zlt_Qlt in Hlt. lia.
Qed.




(** * [double] never counts its iterations *)

(** When the density at the right end stays above [y] and every later draw is
    below 1/2, the loop of [double] only moves its left end: its guard never
    becomes false, and it runs for as long as it is given fuel. *)
Lemma double_loop_stuck (fuel : nat) :
  forall (y l r : Q) (k : Z) (s : World),
    wf_grid (obj s) ->
    (0 < k)%Z ->
    y < fx_at (obj s) r ->
    (forall n, stream s n < 1 # 2) ->
    fst (double_loop fuel y l r k s) = OutOfFuel /\
    length (figure (obj (snd (double_loop fuel y l r k s))))
      = (fuel + length (figure (obj s)))%nat.
Proof.
  induction fuel as [| fuel IH]; intros y l r k s Hwf Hk Hy Hst.
  - rewrite double_loop_out; auto.
    unfold double_guard_at. apply Qltb_true in Hy. rewrite Hy. apply orb_true_r.
  - assert (Hg : double_guard_at (obj s) y l r = true).
    { unfold double_guard_at. apply Qltb_true in Hy. rewrite Hy. apply orb_true_r. }
    rewrite (double_loop_step fuel y l r k s Hwf Hk Hg).
    pose proof (Hst (pos s)) as Hv. apply Qltb_true in Hv. rewrite Hv.
    cbn [fst snd].
    destruct (IH y (l - (r - l)) r k
                (mkWorld (emit (obj s) (l - (r - l), r)) (stream s) (S (pos s))))
      as [H1 H2]; auto.
    split; [exact H1 |]. rewrite H2. unfold emit, refresh_obj, set_figure, set_slice.
    cbn [obj figure length]. lia.
Qed.

(** C3, at an input that shows the defect: with [p = 5], [x = -1],
    [y = 1/2] and every draw equal to 1/3, [double] is still running after
    any number of iterations, having written one interval per iteration. *)
Theorem double_ignores_budget (fuel : nat) :
  let s := mkWorld (demo_ready Double) (constant_stream (1 # 3)) 0 in
  fst (double fuel (-1) (1 # 2) (1 # 4) 5 s) = OutOfFuel /\
  length (figure (obj (snd (double fuel (-1) (1 # 2) (1 # 4) 5 s)))) = fuel.
Proof.
  intros s.
  change (double fuel (-1) (1 # 2) (1 # 4) 5 s)
    with (double_loop fuel (1 # 2) (-1 - (1 # 4) * (1 # 3))
            (-1 - (1 # 4) * (1 # 3) + (1 # 4)) 5
            (mkWorld (demo_ready Double) (constant_stream (1 # 3)) 1)).
  destruct (double_loop_stuck fuel (1 # 2) (-1 - (1 # 4) * (1 # 3))
              (-1 - (1 # 4) * (1 # 3) + (1 # 4)) 5
              (mkWorld (demo_ready Double) (constant_stream (1 # 3)) 1))
    as [H1 H2].
  - split; [discriminate | reflexivity].
  - lia.
  - vm_compute. reflexivity.
  - intros n. vm_compute. reflexivity.
  - split; [exact H1 |]. rewrite H2. cbn [obj demo_ready figure length]. lia.
Qed.
(** * Nearest-grid evaluation *)

(** C8, as the code has it.  On a grid that is not empty (with one density
    value per grid point), [__fx x] returns [Y[i]] for the index [i] whose
    distance to [x], as [np.abs(self.X - x)] computes it in float64, is at
    most that of every grid point and strictly below that of every grid
    point of lower index; a grid point that is exactly as near to [x] as
    [X[i]], or nearer, has the same computed distance; [__fx] changes
    nothing. *)
Theorem fx_returns_nearest (s : World) (x : Q) :
  X (obj s) <> [] ->
  length (Y (obj s)) = length (X (obj s)) ->
  exists (i : nat) (xi yi : Q),
    __fx x s = (Ok yi, s) /\
    X (obj s) !! i = Some xi /\ Y (obj s) !! i = Some yi /\
    (forall j xj, X (obj s) !! j = Some xj ->
       Qabs (rnd53 (xi - x)) <= Qabs (rnd53 (xj - x))) /\
    (forall j xj, (j < i)%nat -> X (obj s) !! j = Some xj ->
       Qabs (rnd53 (xi - x)) < Qabs (rnd53 (xj - x))) /\
    (forall j xj, X (obj s) !! j = Some xj ->
       Qabs (xj - x) <= Qabs (xi - x) ->
       Qabs (rnd53 (xj - x)) == Qabs (rnd53 (xi - x))).
Proof.
  intros Hne Hlen.
  destruct (nearest_value_spec (obj s) x (conj Hne Hlen))
    as (i & xi & yi & Hv & HX & HY & Hmin & Hfirst).
  exists i, xi, yi.
  split; [unfold __fx, bind, get_self, lift; now rewrite Hv |].
  split; [exact HX |]. split; [exact HY |].
  split; [exact Hmin |]. split; [exact Hfirst |].
  intros j xj Hj Hnear.
  apply Qle_antisym; [now apply distance_mono | now apply (Hmin j)].
Qed.

(** The point 1/2 is as far from the grid point 0 as from 1: the lower index
    wins. *)
Lemma fx_returns_nearest_witness :
  exists (i : nat) (xi yi : Q),
    __fx (1 # 2) (mkWorld demo_sampler (constant_stream 0) 0)
      = (Ok yi, mkWorld demo_sampler (constant_stream 0) 0) /\
    X demo_sampler !! i = Some xi /\ Y demo_sampler !! i = Some yi /\
    (forall j xj, X demo_sampler !! j = Some xj ->
       Qabs (rnd53 (xi - (1 # 2))) <= Qabs (rnd53 (xj - (1 # 2)))) /\
    (forall j xj, (j < i)%nat -> X demo_sampler !! j = Some xj ->
       Qabs (rnd53 (xi - (1 # 2))) < Qabs (rnd53 (xj - (1 # 2)))) /\
    (forall j xj, X demo_sampler !! j = Some xj ->
       Qabs (xj - (1 # 2)) <= Qabs (xi - (1 # 2)) ->
       Qabs (rnd53 (xj - (1 # 2))) == Qabs (rnd53 (xi - (1 # 2)))).
Proof.
  apply (fx_returns_nearest (mkWorld demo_sampler (constant_stream 0) 0) (1 # 2)).
  - discriminate.
  - reflexivity.
Defined.

(** C8 as stated fails where rounding hides the difference of two distances.
    On the grid [[-1, 1]] with [x = 2^-60] the point [1] is strictly nearer
    to [x] than [-1], but both differences round to distance 1, and
    [np.argmin] takes the first: [__fx] returns the density of [-1]. *)
Lemma fx_nearest_counterexample :
  let e := mkElliptical (-1) 5 Stepout [-1; 1] [10; 20] [] []
             (-1, -1) (-1) (-1) (-1) (-1) [] in
  let s := mkWorld e (constant_stream 0) 0 in
  let x := 1 # 1152921504606846976 in
  __fx x s = (Ok 10, s) /\
  Qabs (1 - x) < Qabs (-1 - x) /\
  Qabs (rnd53 (-1 - x)) == 1 /\ Qabs (rnd53 (1 - x)) == 1.
Proof.
  intros e s x. split; [vm_compute; reflexivity |].
  split; [vm_compute; reflexivity |].
  split; vm_compute; reflexivity.
Qed.

(** * Choosing the update function *)

(** C6.  [change_update_fn 0] returns with [stepout] selected and
    [change_update_fn 1] with [double] selected, whatever was selected
    before, and both leave every other attribute of the sampler and the
    random generator as they were; any other argument raises [RuntimeError]
    and leaves the sampler, its selected function included, and the
    generator as they were. *)
Theorem change_update_fn_spec (s : World) :
  (exists s' : World,
     change_update_fn 0 s = (Ok tt, s') /\
     update_fn (obj s') = Stepout /\ same_but_update_fn s s') /\
  (exists s' : World,
     change_update_fn 1 s = (Ok tt, s') /\
     update_fn (obj s') = Double /\ same_but_update_fn s s') /\
  (forall fn : Z, fn <> 0%Z -> fn <> 1%Z ->
     change_update_fn fn s = (Raise RuntimeError, s)).
Proof.
  split; [| split].
  - eexists. split; [reflexivity |]. split; [reflexivity |].
    unfold same_but_update_fn. cbn. repeat split.
  - eexists. split; [reflexivity |]. split; [reflexivity |].
    unfold same_but_update_fn. cbn. repeat split.
  - intros fn H0 H1. unfold change_update_fn.
    apply Z.eqb_neq in H0. apply Z.eqb_neq in H1. rewrite H0, H1. reflexivity.
Qed.

Lemma change_update_fn_spec_witness :
  let s := mkWorld (demo_ready Double) (constant_stream 0) 0 in
  (exists s' : World,
     change_update_fn 0 s = (Ok tt, s') /\
     update_fn (obj s') = Stepout /\ same_but_update_fn s s') /\
  (exists s' : World,
     change_update_fn 1 s = (Ok tt, s') /\
     update_fn (obj s') = Double /\ same_but_update_fn s s') /\
  change_update_fn 2 s = (Raise RuntimeError, s) /\
  change_update_fn (-1) s = (Raise RuntimeError, s).
Proof.
  intros s. destruct (change_update_fn_spec s) as (H0 & H1 & H2).
  split; [exact H0 |]. split; [exact H1 |].
  split; apply H2; discriminate.
Defined.


(** * Collapsing runs of boundary markers *)

Lemma collapse_loop_from (l : list Z) :
  forall (pre : list Z) (p : Z),
    fold_left collapse_step (seq (S (length pre)) (length l)) (pre ++ p :: l)
    = pre ++ p :: collapse_from p l.
Proof.
  induction l as [| d l IH]; intros pre p; [reflexivity |].
  cbn [length seq fold_left collapse_from].
  assert (Hstep : collapse_step (pre ++ p :: d :: l) (S (length pre))
                  = pre ++ p :: (if (p =? 0)%Z then d else 0%Z) :: l).
  { unfold collapse_step.
    replace (S (length pre) - 1)%nat with (length pre) by lia.
    rewrite list_lookup_middle by reflexivity. unfold default, from_option, id.
    destruct (p =? 0)%Z; cbn [negb]; [reflexivity |].
    rewrite insert_app_r_alt by lia.
    replace (S (length pre) - length pre)%nat with 1%nat by lia.
    reflexivity. }
  rewrite Hstep.
  replace (pre ++ p :: (if (p =? 0)%Z then d else 0%Z) :: l)
    with ((pre ++ [p]) ++ (if (p =? 0)%Z then d else 0%Z) :: l)
    by (rewrite <- app_assoc; reflexivity).
  replace (S (S (length pre))) with (S (length (pre ++ [p])))
    by (rewrite length_app; simpl; lia).
  rewrite IH. rewrite <- app_assoc. reflexivity.
Qed.

Lemma collapse_cons (d : Z) (l : list Z) :
  collapse (d :: l) = d :: collapse_from d l.
Proof.
  unfold collapse. cbn [length]. rewrite Nat.sub_succ, Nat.sub_0_r.
  apply (collapse_loop_from l [] d).
Qed.

Lemma collapse_from_length (l : list Z) :
  forall p, length (collapse_from p l) = length l.
Proof. induction l as [| d l IH]; intros p; simpl; [reflexivity | now rewrite IH]. Qed.

Lemma collapse_length (diff : list Z) : length (collapse diff) = length diff.
Proof.
  destruct diff as [| d l]; [reflexivity |].
  rewrite collapse_cons. simpl. now rewrite collapse_from_length.
Qed.

Lemma collapse_head (diff : list Z) : collapse diff !! 0%nat = diff !! 0%nat.
Proof. destruct diff as [| d l]; [reflexivity |]. now rewrite collapse_cons. Qed.

(** The recurrence the loop implements. *)
Lemma collapse_from_succ (l : list Z) :
  forall (p : Z) (i : nat) (d : Z),
    (p :: l) !! S i = Some d ->
    exists o, (p :: collapse_from p l) !! i = Some o /\
      (p :: collapse_from p l) !! S i = Some (if (o =? 0)%Z then d else 0%Z).
Proof.
  induction l as [| a l IH]; intros p i d Hd.
  - destruct i; discriminate.
  - destruct i as [| i].
    + cbn in Hd. injection Hd as <-. exists p. split; reflexivity.
    + cbn [collapse_from].
      change ((p :: a :: l) !! S (S i)) with ((a :: l) !! S i) in Hd.
      set (a' := if (p =? 0)%Z then a else 0%Z).
      assert (Hd' : (a' :: l) !! S i = Some d) by exact Hd.
      destruct (IH a' i d Hd') as (o & Ho & Hs).
      exists o. split; [exact Ho | exact Hs].
Qed.

Lemma collapse_succ (diff : list Z) (i : nat) (d : Z) :
  diff !! S i = Some d ->
  exists o, collapse diff !! i = Some o /\
    collapse diff !! S i = Some (if (o =? 0)%Z then d else 0%Z).
Proof.
  destruct diff as [| p l]; [discriminate |].
  rewrite collapse_cons. apply collapse_from_succ.
Qed.

(** A zero entry stays zero. *)
Lemma collapse_zero (diff : list Z) (i : nat) :
  diff !! i = Some 0%Z -> collapse diff !! i = Some 0%Z.
Proof.
  destruct i as [| i]; intros H.
  - now rewrite collapse_head.
  - destruct (collapse_succ diff i 0%Z H) as (o & _ & Hs).
    rewrite Hs. now destruct (o =? 0)%Z.
Qed.

(** C7, as the code has it.  Within a maximal run of entries of the
    sign-difference array that are not zero, the loop keeps the entries at
    even offsets from the start of the run (the first, the third, ...) and
    zeroes those at odd offsets. *)
Theorem collapse_keeps_even_offsets (diff : list Z) (s i : nat) (d : Z) :
  in_run diff s i ->
  diff !! i = Some d ->
  collapse diff !! i = Some (if Nat.even (i - s) then d else 0%Z).
Proof.
  intros (Hsi & Hstart & Hrun). revert d.
  induction i as [| i IH]; intros d Hd.
  - replace (0 - s)%nat with 0%nat by lia. cbn [Nat.even].
    now rewrite collapse_head.
  - destruct (collapse_succ diff i d Hd) as (o & Ho & Hs). rewrite Hs.
    destruct (decide (s = S i)) as [-> | Hne].
    + rewrite Nat.sub_diag. cbn [Nat.even].
      destruct Hstart as [H0 | Hprev]; [discriminate |].
      replace (S i - 1)%nat with i in Hprev by lia.
      rewrite (collapse_zero diff i Hprev) in Ho. injection Ho as <-. reflexivity.
    + assert (Hsi' : (s <= i)%nat) by lia.
      destruct (Hrun i) as (di & Hdi & Hnz); [lia |].
      assert (Hrun' : forall j, (s <= j <= i)%nat ->
                        exists d0, diff !! j = Some d0 /\ d0 <> 0%Z)
        by (intros j Hj; apply Hrun; lia).
      rewrite (IH Hsi' Hrun' di Hdi) in Ho. injection Ho as <-.
      replace (S i - s)%nat with (S (i - s)) by lia.
      rewrite Nat.even_succ, <- Nat.negb_even.
      destruct (Nat.even (i - s)); cbn [negb].
      * apply Z.eqb_neq in Hnz. now rewrite Hnz.
      * reflexivity.
Qed.

Lemma collapse_keeps_even_offsets_witness :
  collapse [0; 3; -2; 2; 0]%Z !! 3%nat = Some 2%Z.
Proof.
  apply (collapse_keeps_even_offsets [0; 3; -2; 2; 0]%Z 1 3 2).
  - split; [lia |]. split; [right; reflexivity |].
    intros j Hj.
    assert (Hc : j = 1%nat \/ j = 2%nat \/ j = 3%nat) by lia.
    destruct Hc as [-> | [-> | ->]]; eexists; (split; [reflexivity | discriminate]).
  - reflexivity.
Defined.

(** C7 as stated fails for a run of three markers: for densities
    [1, -1, 1, -1] and threshold 0 the sign differences are [-2, 2, -2], one
    run starting at index 0, and the loop keeps its third entry. *)
Lemma collapse_counterexample :
  np_diff (map (fun yv => np_sign (yv - 0)) [1; -1; 1; -1]) = [-2; 2; -2]%Z /\
  in_run [-2; 2; -2]%Z 0 2 /\
  collapse [-2; 2; -2]%Z = [-2; 0; -2]%Z /\
  collapse [-2; 2; -2]%Z !! 2%nat <> Some 0%Z.
Proof.
  split; [reflexivity |]. split.
  - split; [lia |]. split; [left; reflexivity |].
    intros j Hj.
    assert (Hc : j = 0%nat \/ j = 1%nat \/ j = 2%nat) by lia.
    destruct Hc as [-> | [-> | ->]]; eexists; (split; [reflexivity | discriminate]).
  - split; [reflexivity | discriminate].
Qed.

(** * Construction *)

Lemma mapM_ok {A B} (f : A -> Outcome B) (l : list A) :
  (forall a, In a l -> exists b, f a = Ok b) ->
  exists bs, mapM f l = Ok bs /\ length bs = length l.
Proof.
  induction l as [| a l IH]; intros H.
  - exists []. split; reflexivity.
  - destruct (H a) as [b Hb]; [now left |].
    destruct IH as (bs & Hbs & Hlen); [intros a' Ha'; apply H; now right |].
    exists (b :: bs). cbn [mapM obind]. rewrite Hb. cbn [obind]. rewrite Hbs.
    cbn [obind length]. split; [reflexivity | now rewrite Hlen].
Qed.

Lemma foldM_ok {A B} (f : A -> B -> Outcome A) (l : list B) :
  forall acc,
    (forall acc' b, In b l -> exists r, f acc' b = Ok r) ->
    exists r, foldM f acc l = Ok r.
Proof.
  induction l as [| b l IH]; intros acc H.
  - exists acc. reflexivity.
  - destruct (H acc b) as [r Hr]; [now left |].
    cbn [foldM]. rewrite Hr. cbn [obind].
    apply IH. intros acc' b' Hb'. apply H. now right.
Qed.

Lemma argwhere_from_bound (a : list Z) :
  forall i x, In x (argwhere_from i a) -> (i <= x < i + length a)%nat.
Proof.
  induction a as [| d a IH]; intros i x Hx; [destruct Hx |].
  cbn [argwhere_from] in Hx. cbn [length].
  destruct (d =? 0)%Z.
  - apply IH in Hx. lia.
  - destruct Hx as [<- | Hx]; [lia |]. apply IH in Hx. lia.
Qed.

Lemma np_diff_length (a : list Z) : length (np_diff a) = (length a - 1)%nat.
Proof.
  unfold np_diff. rewrite length_zip_with. destruct a; simpl; lia.
Qed.

Lemma find_patches_empty (values : list Q) (threshold : Q) :
  __find_patches [] values threshold = Raise IndexError.
Proof. reflexivity. Qed.

Lemma find_patches_ok (grid values : list Q) (threshold : Q) :
  grid <> [] ->
  length values = length grid ->
  exists p, __find_patches grid values threshold = Ok p.
Proof.
  intros Hne Hlen. unfold __find_patches.
  destruct grid as [| x0 grid']; [congruence |].
  set (grid := x0 :: grid') in *.
  set (n := length grid) in *.
  assert (Hn : (1 <= n)%nat) by (unfold n, grid; simpl; lia).
  set (diff := collapse (np_diff (map (fun yv => np_sign (yv - threshold)) values))).
  assert (Hdiff : length diff = (n - 1)%nat).
  { unfold diff. rewrite collapse_length, np_diff_length, length_map. lia. }
  set (aw := argwhere_nonzero diff).
  assert (Haw : forall x, In x aw -> (x < n - 1)%nat).
  { intros x Hx. apply argwhere_from_bound in Hx. lia. }
  change (getitem grid 0) with (@Ok Q x0). cbn [obind].
  set (X' := (x0 :: grid) ++ [List.last grid x0]).
  assert (HX' : length X' = (n + 2)%nat).
  { unfold X'. rewrite length_app. cbn [length]. fold n. lia. }
  set (inter := (0%nat :: aw) ++ [n]).
  assert (Hinter : length inter = (length aw + 2)%nat).
  { unfold inter. rewrite length_app. cbn [length]. lia. }
  apply foldM_ok. intros acc ind Hind.
  apply in_seq in Hind.
  unfold patch_step.
  (* start *)
  assert (Hstart : exists st, (0%nat :: aw) !! (ind - 1)%nat = Some st).
  { apply lookup_lt_is_Some_2. cbn [length]. lia. }
  destruct Hstart as [st Hst].
  assert (Hst' : inter !! (ind - 1)%nat = Some st).
  { unfold inter. rewrite lookup_app_l; [exact Hst |]. cbn [length]. lia. }
  assert (Hstn : (st < n)%nat).
  { destruct (ind - 1)%nat as [| q] eqn:Eq.
    - cbn in Hst. injection Hst as <-. lia.
    - cbn in Hst. apply list_elem_of_lookup_2 in Hst.
      apply list_elem_of_In in Hst. apply Haw in Hst. lia. }
  unfold getitem at 1. rewrite Hst'. cbn [obind].
  (* end *)
  assert (Hend : exists en, inter !! ind = Some en).
  { apply lookup_lt_is_Some_2. lia. }
  destruct Hend as [en Hen].
  assert (Henn : (en <= n)%nat).
  { apply list_elem_of_lookup_2 in Hen. apply list_elem_of_In in Hen.
    unfold inter in Hen. apply in_app_or in Hen.
    destruct Hen as [[<- | Hen] | [<- | []]]; [lia | | lia].
    apply Haw in Hen. lia. }
  unfold getitem at 1. rewrite Hen. cbn [obind].
  (* midpoint *)
  assert (Hmid : ((st + en) / 2 < n)%nat).
  { apply Nat.Div0.div_lt_upper_bound. lia. }
  destruct (getitem_lt values ((st + en) / 2)) as (ym & Hym & _); [lia |].
  rewrite Hym. cbn [obind].
  destruct (Qle_bool threshold ym); [| eexists; reflexivity].
  destruct (mapM_ok (getitem X') (range_down en st)) as (lower & Hlower & _).
  { intros a Ha. unfold range_down in Ha. apply in_rev in Ha. apply in_seq in Ha.
    destruct (getitem_lt X' a) as (v & Hv & _); [lia |]. now exists v. }
  rewrite Hlower. cbn [obind].
  destruct (mapM_ok (fun i => (let* xv := getitem X' i in
                                let* yv := getitem values i in Ok (xv, yv))%outcome)
              (seq st (en - st))) as (upper & Hupper & _).
  { intros a Ha. apply in_seq in Ha.
    destruct (getitem_lt X' a) as (v & Hv & _); [lia |].
    destruct (getitem_lt values a) as (v' & Hv' & _); [lia |].
    exists (v, v'). rewrite Hv. cbn [obind]. rewrite Hv'. reflexivity. }
  rewrite Hupper. cbn [obind]. eexists. reflexivity.
Qed.

Lemma Qceiling_nonpos (q : Q) : (Qceiling q <= 0)%Z <-> q <= 0.
Proof.
  split; intros H.
  - pose proof (Qle_ceiling q) as Hc.
    assert (Hz : inject_Z (Qceiling q) <= inject_Z 0) by now rewrite <- Zle_Qle.
    change (inject_Z 0) with 0 in Hz. lra.
  - pose proof (Qceiling_lt q) as Hc.
    assert (Hz : inject_Z (Qceiling q - 1) < inject_Z 0)
      by (change (inject_Z 0) with 0; lra).
    rewrite <- Zlt_Qlt in Hz. lia.
Qed.

Lemma quotient_nonpos (d step : Q) :
  ~ step == 0 ->
  (d / step <= 0 <-> (0 < step /\ d <= 0) \/ (step < 0 /\ 0 <= d)).
Proof.
  intros Hstep.
  assert (Hq : d / step * step == d) by (field; exact Hstep).
  set (q := d / step) in *.
  destruct (Q_dec step 0) as [[Hneg | Hpos] | Hz]; [| | contradiction].
  - split.
    + intros H. right. split; [exact Hneg | nra].
    + intros [[H _] | [_ H]]; [lra | nra].
  - split.
    + intros H. left. split; [exact Hpos | nra].
    + intros [[_ H] | [H _]]; [nra | lra].
Qed.

Lemma arange_len_zero (start stop step : Q) :
  ~ step == 0 ->
  (arange_len start stop step = 0%nat <->
   (0 < step /\ stop <= start) \/ (step < 0 /\ start <= stop)).
Proof.
  intros Hstep. unfold arange_len.
  assert (Hz : forall z : Z, Z.to_nat z = 0%nat <-> (z <= 0)%Z) by (intros z; lia).
  rewrite Hz, Qceiling_nonpos, (quotient_nonpos _ _ Hstep).
  split; intros [[H1 H2] | [H1 H2]]; [left | right | left | right]; split; lra.
Qed.

Lemma arange_zero_step (start stop step : Q) :
  step == 0 -> arange start stop step = Raise ZeroDivisionError.
Proof.
  intros H. unfold arange. apply Qeq_bool_iff in H. now rewrite H.
Qed.

Lemma arange_ok (start stop step : Q) :
  ~ step == 0 ->
  exists grid, arange start stop step = Ok grid /\
    length grid = arange_len start stop step /\
    (forall i, (i < arange_len start stop step)%nat ->
       grid !! i = Some (start + inject_Z (Z.of_nat i) * step)).
Proof.
  intros H. unfold arange.
  destruct (Qeq_bool step 0) eqn:E; [apply Qeq_bool_iff in E; contradiction |].
  eexists. split; [reflexivity |]. split.
  - now rewrite length_map, length_seq.
  - intros i Hi. rewrite list_lookup_fmap.
    assert (Hs : seq 0 (arange_len start stop step) !! i = Some i)
      by (apply lookup_seq; lia).
    rewrite Hs. reflexivity.
Qed.

(** What [__init__] leaves in a sampler it builds. *)
Lemma init_fields (density : Q -> Q) (x_low x_high x_step : Q) (e : Elliptical) :
  __init__ density x_low x_high x_step = Ok e ->
  arange x_low x_high x_step = Ok (X e) /\
  Y e = map density (X e) /\
  wf_grid e /\
  mode e = (-1)%Z /\ num_modes e = 5%Z /\ update_fn e = Stepout /\
  slice e = (-1, -1) /\ curr_x e = -1 /\ fx e = -1 /\ curr_y e = -1 /\
  horizontal e = -1 /\ figure e = [].
Proof.
  unfold __init__. intros H.
  destruct (arange x_low x_high x_step) as [grid | ex |] eqn:Hgrid;
    cbn [obind] in H; try discriminate.
  destruct (__find_patches grid (map density grid) 0) as [[pxs pys] | ex |] eqn:Hp;
    cbn [obind] in H; try discriminate.
  injection H as <-. cbn.
  repeat split; try reflexivity.
  - intros Hnil. cbn in Hnil. subst grid.
    rewrite find_patches_empty in Hp. discriminate.
  - cbn. now rewrite length_map.
Qed.

Lemma init_outcome (density : Q -> Q) (x_low x_high x_step : Q) :
  (x_step == 0 /\
   __init__ density x_low x_high x_step = Raise ZeroDivisionError) \/
  (~ x_step == 0 /\ arange_len x_low x_high x_step = 0%nat /\
   __init__ density x_low x_high x_step = Raise IndexError) \/
  (~ x_step == 0 /\ arange_len x_low x_high x_step <> 0%nat /\
   exists e, __init__ density x_low x_high x_step = Ok e).
Proof.
  destruct (Qeq_dec x_step 0) as [Hz | Hnz].
  - left. split; [exact Hz |]. unfold __init__.
    now rewrite (arange_zero_step _ _ _ Hz).
  - right. destruct (arange_ok x_low x_high x_step Hnz) as (grid & Hgrid & Hlen & _).
    unfold __init__. rewrite Hgrid. cbn [obind].
    destruct (Nat.eq_dec (arange_len x_low x_high x_step) 0%nat) as [H0 | Hpos].
    + left. split; [exact Hnz |]. split; [exact H0 |].
      rewrite H0 in Hlen. destruct grid; [| discriminate].
      reflexivity.
    + right. split; [exact Hnz |]. split; [exact Hpos |].
      destruct (find_patches_ok grid (map density grid) 0) as [[pxs pys] Hp].
      * intros ->. simpl in Hlen. congruence.
      * now rewrite length_map.
      * rewrite Hp. cbn [obind]. eexists. reflexivity.
Qed.

(** C5, as the code has it.  [__init__] checks nothing itself: it fails
    exactly when [np.arange] rejects a zero step or yields an empty grid, that
    is when the step is zero, or positive with [x_high <= x_low], or negative
    with [x_low <= x_high]; in every other case it builds a sampler. *)
Theorem init_fails_iff (density : Q -> Q) (x_low x_high x_step : Q) :
  ((exists ex, __init__ density x_low x_high x_step = Raise ex) <->
   (x_step == 0 \/ (0 < x_step /\ x_high <= x_low) \/
    (x_step < 0 /\ x_low <= x_high))) /\
  ((exists e, __init__ density x_low x_high x_step = Ok e) <->
   ((0 < x_step /\ x_low < x_high) \/ (x_step < 0 /\ x_high < x_low))).
Proof.
  pose proof (init_outcome density x_low x_high x_step) as Hout.
  split; split.
  - intros [ex Hex].
    destruct Hout as [[Hz _] | [(Hnz & H0 & _) | (_ & _ & [e He])]].
    + now left.
    + right. now apply (arange_len_zero _ _ _ Hnz).
    + congruence.
  - intros Hcond.
    destruct Hout as [[_ Hr] | [(_ & _ & Hr) | (Hnz & Hpos & _)]];
      [eexists; exact Hr | eexists; exact Hr |].
    destruct Hcond as [Hz | Hcond]; [contradiction |].
    apply (arange_len_zero _ _ _ Hnz) in Hcond. contradiction.
  - intros [e He].
    destruct Hout as [[_ Hr] | [(_ & _ & Hr) | (Hnz & Hpos & _)]];
      [congruence | congruence |].
    rewrite (arange_len_zero _ _ _ Hnz) in Hpos.
    destruct (Q_dec x_step 0) as [[Hneg | Hp] | Hz]; [| | contradiction].
    + right. split; [exact Hneg |].
      destruct (Qlt_le_dec x_high x_low) as [H | H]; [exact H |].
      exfalso. apply Hpos. right. split; assumption.
    + left. split; [exact Hp |].
      destruct (Qlt_le_dec x_low x_high) as [H | H]; [exact H |].
      exfalso. apply Hpos. left. split; assumption.
  - intros Hcond.
    destruct Hout as [[Hz _] | [(Hnz & H0 & _) | (_ & _ & He)]]; [| | exact He].
    + destruct Hcond as [[H _] | [H _]]; lra.
    + apply (arange_len_zero _ _ _ Hnz) in H0.
      destruct Hcond as [[H1 H2] | [H1 H2]]; destruct H0 as [[H3 H4] | [H3 H4]]; lra.
Qed.

(** C5 as stated fails for an inverted domain walked with a negative step:
    [x_low >= x_high] and [x_step <= 0], and a sampler is built. *)
Lemma init_counterexample :
  -3 <= 2 /\ -1 <= 0 /\
  exists e, __init__ demo_density 2 (-3) (-1) = Ok e /\
            X e = [2; 1; 0; -1; -2] /\ Y e = [0; 1; 1; 1; 0].
Proof.
  split; [vm_compute; discriminate |]. split; [vm_compute; discriminate |].
  eexists. split; [vm_compute; reflexivity |]. split; reflexivity.
Qed.

Lemma demo_sampler_built : __init__ demo_density (-2) 3 1 = Ok demo_sampler.
Proof. vm_compute. reflexivity. Qed.

(** * The first step *)

Lemma fx_at_in (e : Elliptical) (x : Q) : wf_grid e -> In (fx_at e x) (Y e).
Proof.
  intros Hwf.
  destruct (nearest_value_spec e x Hwf) as (i & xi & yi & Hv & _ & HY & _).
  unfold fx_at. rewrite Hv. apply list_elem_of_In.
  now apply (list_elem_of_lookup_2 _ i).
Qed.

(** The rejection loop stops at once when the candidate is in the slice. *)
Lemma reject_loop_accept (fuel : nat) (s : World) :
  wf_grid (obj s) ->
  curr_y (obj s) <= fx_at (obj s) (curr_x (obj s)) ->
  reject_loop fuel s = (Ok tt, s).
Proof.
  intros Hwf Hy. apply Qltb_false in Hy.
  destruct fuel; cbn [reject_loop]; unfold bind at 1, get_self;
    unfold bind at 1; rewrite (fx_run _ s Hwf), Hy; reflexivity.
Qed.

Lemma next_step_mode0_accept (fuel : nat) (s : World) :
  wf_grid (obj s) ->
  num_modes (obj s) <> 0%Z ->
  next_mode (obj s) = 0%Z ->
  let x := fst (slice (obj s))
           + (snd (slice (obj s)) - fst (slice (obj s))) * stream s (pos s) in
  curr_y (obj s) <= fx_at (obj s) x ->
  next_step fuel s =
  (Ok tt,
   mkWorld (refresh_obj (set_curr_y (-1) (set_fx (-1) (set_horizontal (-1)
              (set_curr_x x (set_mode 0 (obj s)))))))
           (stream s) (S (pos s))).
Proof.
  intros Hwf Hnz Hmode x Hy.
  rewrite (next_step_unfold fuel s Hnz), Hmode.
  unfold mode_work. cbn [mode set_mode Z.eqb].
  unfold bind at 1. unfold bind at 1.
  unfold __sample_x, random_uniform_in, random_uniform, bind at 1, get_self.
  unfold bind at 1, ret. cbn [obj stream pos slice set_mode]. fold x.
  unfold bind at 1, modify_self at 1. cbn [obj stream pos].
  unfold bind at 1.
  rewrite reject_loop_accept; [reflexivity | exact Hwf | exact Hy].
Qed.

(** The first [next_step] after [__init__], over a density that is nowhere
    negative. *)
Lemma first_step_run
    (density : Q -> Q) (x_low x_high x_step : Q) (e : Elliptical)
    (st : nat -> Q) (p : nat) (fuel : nat) :
  __init__ density x_low x_high x_step = Ok e ->
  (forall x, 0 <= density x) ->
  let x := fst (slice e) + (snd (slice e) - fst (slice e)) * st p in
  next_step fuel (mkWorld e st p) =
  (Ok tt,
   mkWorld (refresh_obj (set_curr_y (-1) (set_fx (-1) (set_horizontal (-1)
              (set_curr_x x (set_mode 0 e))))))
           st (S p)).
Proof.
  intros Hinit Hdens x.
  destruct (init_fields _ _ _ _ _ Hinit)
    as (_ & HY & Hwf & Hmode & Hnum & _ & _ & _ & _ & Hy & _).
  apply (next_step_mode0_accept fuel (mkWorld e st p)).
  - exact Hwf.
  - cbn [obj]. rewrite Hnum. discriminate.
  - unfold next_mode. cbn [obj]. rewrite Hmode, Hnum. reflexivity.
  - cbn [obj stream pos]. rewrite Hy. fold x.
    pose proof (fx_at_in e x Hwf) as Hin.
    rewrite HY in Hin. apply in_map_iff in Hin. destruct Hin as (g & <- & _).
    specialize (Hdens g). lra.
Qed.

(** C9.  On the first [next_step] of a sampler built by [__init__] over a
    density that is nowhere negative: whatever the fuel, also none, the call
    returns, so the body of the rejection loop has not run; it has consumed
    exactly one sample, stored that candidate as [curr_x], and is in mode 0. *)
Theorem first_step_accepts_first_draw
    (density : Q -> Q) (x_low x_high x_step : Q) (e : Elliptical)
    (st : nat -> Q) (p : nat) (fuel : nat) :
  __init__ density x_low x_high x_step = Ok e ->
  (forall x, 0 <= density x) ->
  exists s',
    next_step fuel (mkWorld e st p) = (Ok tt, s') /\
    pos s' = S p /\
    mode (obj s') = 0%Z /\
    curr_x (obj s') = fst (slice e) + (snd (slice e) - fst (slice e)) * st p.
Proof.
  intros Hinit Hdens.
  eexists. split.
  - apply (first_step_run density x_low x_high x_step e st p fuel Hinit Hdens).
  - cbn. repeat split.
Qed.

Lemma first_step_accepts_first_draw_witness :
  exists s',
    next_step 0 (mkWorld demo_sampler (constant_stream (1 # 2)) 0) = (Ok tt, s') /\
    pos s' = 1%nat /\
    mode (obj s') = 0%Z /\
    curr_x (obj s') = -1 + (-1 - -1) * (1 # 2).
Proof.
  apply (first_step_accepts_first_draw demo_density (-2) 3 1 demo_sampler
           (constant_stream (1 # 2)) 0 0).
  - vm_compute. reflexivity.
  - intros x. unfold demo_density.
    destruct (Qle_bool (-1) x && Qle_bool x 1); vm_compute; discriminate.
Defined.

(** C4, as the code has it.  [__init__] leaves [slice = (-1, -1)], and the
    first [next_step] samples [x] from that pair: over a density that is
    nowhere negative it stores [-1 + (-1 - -1) u], which is [-1] whatever the
    sample [u] and whatever the domain. *)
Theorem first_x_from_sentinel
    (density : Q -> Q) (x_low x_high x_step : Q) (e : Elliptical)
    (st : nat -> Q) (p : nat) (fuel : nat) :
  __init__ density x_low x_high x_step = Ok e ->
  (forall x, 0 <= density x) ->
  slice e = (-1, -1) /\
  fst (__sample_x (mkWorld e st p)) = Ok (-1 + (-1 - -1) * st p) /\
  exists s',
    next_step fuel (mkWorld e st p) = (Ok tt, s') /\
    curr_x (obj s') = -1 + (-1 - -1) * st p /\
    curr_x (obj s') == -1.
Proof.
  intros Hinit Hdens.
  destruct (init_fields _ _ _ _ _ Hinit)
    as (_ & _ & _ & _ & _ & _ & Hslice & _).
  split; [exact Hslice |]. split.
  - unfold __sample_x, random_uniform_in, random_uniform, bind, get_self, ret.
    cbn [obj stream pos fst]. rewrite Hslice. reflexivity.
  - eexists. split.
    + apply (first_step_run density x_low x_high x_step e st p fuel Hinit Hdens).
    + cbn [obj curr_x refresh_obj set_figure set_curr_y set_fx set_horizontal
             set_curr_x].
      rewrite Hslice. cbn [fst snd]. split; [reflexivity | ring].
Qed.

Lemma first_x_from_sentinel_witness :
  slice demo_sampler = (-1, -1) /\
  fst (__sample_x (mkWorld demo_sampler (constant_stream (1 # 2)) 0))
    = Ok (-1 + (-1 - -1) * (1 # 2)) /\
  exists s',
    next_step 0 (mkWorld demo_sampler (constant_stream (1 # 2)) 0) = (Ok tt, s') /\
    curr_x (obj s') = -1 + (-1 - -1) * (1 # 2) /\
    curr_x (obj s') == -1.
Proof.
  apply (first_x_from_sentinel demo_density (-2) 3 1 demo_sampler
           (constant_stream (1 # 2)) 0 0).
  - vm_compute. reflexivity.
  - intros x. unfold demo_density.
    destruct (Qle_bool (-1) x && Qle_bool x 1); vm_compute; discriminate.
Defined.

(** C4 as stated fails: over the domain [0, 5) the first [x] is [-1], which
    is outside the domain, and is not the uniform draw [0 + (5 - 0) u]. *)
Lemma first_x_counterexample :
  exists e s',
    __init__ demo_density 0 5 1 = Ok e /\
    next_step 0 (mkWorld e (constant_stream (1 # 2)) 0) = (Ok tt, s') /\
    curr_x (obj s') == -1 /\
    ~ (0 <= curr_x (obj s') <= 5) /\
    ~ curr_x (obj s') == 0 + (5 - 0) * (1 # 2).
Proof.
  eexists. eexists.
  split; [vm_compute; reflexivity |].
  split; [vm_compute; reflexivity |].
  split; [vm_compute; reflexivity |].
  split.
  - intros [H _]. vm_compute in H. apply H. reflexivity.
  - intros H. vm_compute in H. discriminate H.
Qed.

(** * Further properties of the state machine *)

Lemma same_setup_refl (e : Elliptical) : same_setup e e.
Proof. repeat split. Qed.

Lemma same_setup_trans (e1 e2 e3 : Elliptical) :
  same_setup e1 e2 -> same_setup e2 e3 -> same_setup e1 e3.
Proof.
  unfold same_setup. intros (A1 & A2 & A3 & A4 & A5 & A6) (B1 & B2 & B3 & B4 & B5 & B6).
  repeat split; congruence.
Qed.

Lemma same_setup_emit_all (e : Elliptical) (tr : list (Q * Q)) :
  same_setup e (emit_all e tr).
Proof.
  destruct (emit_all_grid tr e) as [HX HY].
  destruct (emit_all_fields tr e) as (_ & Hn & Hu & _ & _ & _ & _ & Hp1 & Hp2).
  repeat split; assumption.
Qed.

Lemma same_setup_wf (e e' : Elliptical) :
  same_setup e e' -> wf_grid e -> wf_grid e'.
Proof. intros (HX & HY & _). now apply wf_grid_same. Qed.

Lemma resample_setup (n : nat) :
  forall e st p,
    same_setup e (resample e st p n) /\
    mode (resample e st p n) = mode e /\
    slice (resample e st p n) = slice e /\
    fx (resample e st p n) = fx e /\
    curr_y (resample e st p n) = curr_y e /\
    horizontal (resample e st p n) = horizontal e /\
    figure (resample e st p n) = figure e.
Proof.
  induction n as [| n IH]; intros e st p; [repeat split |].
  cbn [resample].
  destruct (IH (set_curr_x (fst (slice e) + (snd (slice e) - fst (slice e)) * st p) e)
              st (S p)) as (Hs & Hm & Hsl & Hf & Hy & Hh & Hfig).
  split; [| now repeat split].
  eapply same_setup_trans; [| exact Hs]. repeat split.
Qed.

Lemma resample_curr_x (n : nat) :
  forall e st p,
    curr_x (resample e st p (S n))
    = fst (slice e) + (snd (slice e) - fst (slice e)) * st (p + n)%nat.
Proof.
  induction n as [| n IH]; intros e st p.
  - cbn [resample curr_x set_curr_x]. now rewrite Nat.add_0_r.
  - change (resample e st p (S (S n)))
      with (resample (set_curr_x (fst (slice e) + (snd (slice e) - fst (slice e)) * st p) e)
              st (S p) (S n)).
    rewrite IH. cbn [slice set_curr_x]. f_equal. f_equal. f_equal. lia.
Qed.

Lemma reject_loop_out (s : World) :
  wf_grid (obj s) ->
  fx_at (obj s) (curr_x (obj s)) < curr_y (obj s) ->
  reject_loop 0 s = (OutOfFuel, s).
Proof.
  intros Hwf Hy. apply Qltb_true in Hy.
  cbn [reject_loop]. unfold bind at 1, get_self.
  unfold bind at 1. rewrite (fx_run _ s Hwf), Hy. reflexivity.
Qed.

Lemma reject_loop_step (fuel : nat) (s : World) :
  wf_grid (obj s) ->
  fx_at (obj s) (curr_x (obj s)) < curr_y (obj s) ->
  reject_loop (S fuel) s =
  reject_loop fuel
    (mkWorld (resample (obj s) (stream s) (pos s) 1) (stream s) (S (pos s))).
Proof.
  intros Hwf Hy. apply Qltb_true in Hy.
  cbn [reject_loop]. unfold bind at 1, get_self.
  unfold bind at 1. rewrite (fx_run _ s Hwf), Hy. reflexivity.
Qed.

(** Whatever the fuel, the rejection loop raises nothing: it has drawn [n]
    new candidates, and either returned with the last candidate in the slice
    or used all its fuel with the last candidate rejected. *)
Lemma reject_loop_run (fuel : nat) :
  forall s : World,
    wf_grid (obj s) ->
    exists n : nat,
      (n <= fuel)%nat /\
      let e' := resample (obj s) (stream s) (pos s) n in
      let s' := mkWorld e' (stream s) (pos s + n) in
      (reject_loop fuel s = (Ok tt, s') /\ curr_y e' <= fx_at e' (curr_x e'))
      \/
      (reject_loop fuel s = (OutOfFuel, s') /\ n = fuel /\
       fx_at e' (curr_x e') < curr_y e').
Proof.
  induction fuel as [| fuel IH]; intros s Hwf.
  - exists 0%nat. split; [lia |]. cbn [resample]. rewrite Nat.add_0_r, world_eta.
    cbn zeta.
    destruct (Qlt_le_dec (fx_at (obj s) (curr_x (obj s))) (curr_y (obj s))) as [Hy | Hy].
    + right. rewrite reject_loop_out by assumption. auto.
    + left. rewrite reject_loop_accept by assumption. auto.
  - destruct (Qlt_le_dec (fx_at (obj s) (curr_x (obj s))) (curr_y (obj s))) as [Hy | Hy].
    + rewrite (reject_loop_step fuel s Hwf Hy).
      set (s1 := mkWorld (resample (obj s) (stream s) (pos s) 1) (stream s) (S (pos s))).
      destruct (IH s1) as (n & Hn & Hres); [exact Hwf |].
      exists (S n). split; [lia |].
      change (resample (obj s) (stream s) (pos s) (S n))
        with (resample (obj s1) (stream s1) (pos s1) n).
      replace (pos s + S n)%nat with (pos s1 + n)%nat by (cbn [s1 pos]; lia).
      change (stream s) with (stream s1).
      cbn zeta in Hres |- *.
      destruct Hres as [[Hrun Hok] | (Hrun & Hn' & Hrej)].
      * left. split; [exact Hrun | exact Hok].
      * right. split; [exact Hrun |]. split; [lia | exact Hrej].
    + exists 0%nat. split; [lia |]. cbn [resample]. rewrite Nat.add_0_r, world_eta.
      left. rewrite reject_loop_accept by assumption. auto.
Qed.

(** ** Each mode of [next_step] *)

Lemma next_step_mode0 (fuel : nat) (s : World) :
  wf_grid (obj s) ->
  num_modes (obj s) <> 0%Z ->
  next_mode (obj s) = 0%Z ->
  exists n : nat,
    (n <= fuel)%nat /\
    let e1 := resample (set_mode 0 (obj s)) (stream s) (pos s) (S n) in
    (next_step fuel s =
       (Ok tt,
        mkWorld (refresh_obj (set_curr_y (-1) (set_fx (-1) (set_horizontal (-1) e1))))
                (stream s) (pos s + S n)) /\
     curr_y (obj s) <= fx_at (obj s) (curr_x e1))
    \/
    (next_step fuel s = (OutOfFuel, mkWorld e1 (stream s) (pos s + S n)) /\
     n = fuel /\ fx_at (obj s) (curr_x e1) < curr_y (obj s)).
Proof.
  intros Hwf Hnz Hmode.
  set (s1 := mkWorld (resample (set_mode 0 (obj s)) (stream s) (pos s) 1)
                     (stream s) (S (pos s))).
  assert (Hunf : next_step fuel s =
            bind (bind (reject_loop fuel)
                    (fun _ => bind (modify_self (set_horizontal (-1)))
                       (fun _ => bind (modify_self (set_fx (-1)))
                          (fun _ => modify_self (set_curr_y (-1))))))
                 (fun _ => __refresh) s1).
  { rewrite (next_step_unfold fuel s Hnz), Hmode. reflexivity. }
  rewrite Hunf. clear Hunf.
  destruct (reject_loop_run fuel s1) as (n & Hn & Hres); [exact Hwf |].
  exists n. split; [exact Hn |].
  change (resample (set_mode 0 (obj s)) (stream s) (pos s) (S n))
    with (resample (obj s1) (stream s1) (pos s1) n).
  replace (pos s + S n)%nat with (pos s1 + n)%nat by (cbn [s1 pos]; lia).
  cbn zeta in Hres |- *.
  destruct (resample_setup n (obj s1) (stream s1) (pos s1))
    as ((HX & HY & _) & _ & _ & _ & Hcy & _).
  rewrite (fx_at_grid (obj s) _ _ HX HY) in Hres.
  rewrite Hcy in Hres. change (curr_y (obj s1)) with (curr_y (obj s)) in Hres.
  destruct Hres as [[Hrun Hok] | (Hrun & Hn' & Hrej)].
  - left. split; [| exact Hok].
    unfold bind at 1. unfold bind at 1. rewrite Hrun. reflexivity.
  - right. split; [| split; [exact Hn' | exact Hrej]].
    unfold bind at 1. unfold bind at 1. rewrite Hrun. reflexivity.
Qed.

Lemma next_step_mode1 (fuel : nat) (s : World) :
  wf_grid (obj s) ->
  num_modes (obj s) <> 0%Z ->
  next_mode (obj s) = 1%Z ->
  next_step fuel s =
  (Ok tt,
   mkWorld (refresh_obj (set_fx (fx_at (obj s) (curr_x (obj s))) (set_mode 1 (obj s))))
           (stream s) (pos s)).
Proof.
  intros Hwf Hnz Hmode.
  assert (Hunf : next_step fuel s =
            bind (bind (__fx (curr_x (obj s))) (fun f => modify_self (set_fx f)))
                 (fun _ => __refresh)
                 (mkWorld (set_mode 1 (obj s)) (stream s) (pos s))).
  { rewrite (next_step_unfold fuel s Hnz), Hmode. reflexivity. }
  rewrite Hunf. unfold bind at 1. unfold bind at 1.
  rewrite (fx_run _ (mkWorld (set_mode 1 (obj s)) (stream s) (pos s)) Hwf).
  reflexivity.
Qed.

Lemma next_step_mode2 (fuel : nat) (s : World) :
  num_modes (obj s) <> 0%Z ->
  next_mode (obj s) = 2%Z ->
  next_step fuel s =
  (Ok tt,
   mkWorld (refresh_obj (set_slice (-1, -1)
              (set_curr_y (0 + (fx (obj s) - 0) * stream s (pos s))
                 (set_mode 2 (obj s)))))
           (stream s) (S (pos s))).
Proof.
  intros Hnz Hmode. rewrite (next_step_unfold fuel s Hnz), Hmode. reflexivity.
Qed.

Lemma next_step_mode3 (fuel : nat) (s : World) :
  num_modes (obj s) <> 0%Z ->
  next_mode (obj s) = 3%Z ->
  next_step fuel s =
  (Ok tt,
   mkWorld (refresh_obj (set_horizontal (curr_y (obj s)) (set_mode 3 (obj s))))
           (stream s) (pos s)).
Proof.
  intros Hnz Hmode. rewrite (next_step_unfold fuel s Hnz), Hmode. reflexivity.
Qed.

Lemma next_step_other (fuel : nat) (s : World) :
  num_modes (obj s) <> 0%Z ->
  next_mode (obj s) <> 0%Z -> next_mode (obj s) <> 1%Z ->
  next_mode (obj s) <> 2%Z -> next_mode (obj s) <> 3%Z ->
  next_mode (obj s) <> 4%Z ->
  next_step fuel s =
  (Ok tt, mkWorld (refresh_obj (set_mode (next_mode (obj s)) (obj s)))
                  (stream s) (pos s)).
Proof.
  intros Hnz H0 H1 H2 H3 H4. rewrite (next_step_unfold fuel s Hnz).
  unfold mode_work. cbn [mode set_mode].
  apply Z.eqb_neq in H0, H1, H2, H3, H4. rewrite H0, H1, H2, H3, H4.
  reflexivity.
Qed.

(** Mode 4 with each strategy, whatever the fuel. *)
Lemma next_step_mode4_run (fuel : nat) (s : World) :
  wf_grid (obj s) ->
  num_modes (obj s) <> 0%Z ->
  next_mode (obj s) = 4%Z ->
  exists (tr : list (Q * Q)) (n : nat),
    let e4 := emit_all (set_mode 4 (obj s)) tr in
    (exists sl,
       next_step fuel s =
         (Ok tt, mkWorld (refresh_obj (set_slice sl e4)) (stream s) (pos s + n)))
    \/
    next_step fuel s = (OutOfFuel, mkWorld e4 (stream s) (pos s + n)).
Proof.
  intros Hwf Hnz Hmode. rewrite (next_step_mode4 fuel s Hnz Hmode).
  set (s4 := mkWorld (set_mode 4 (obj s)) (stream s) (pos s)).
  assert (Hwf4 : wf_grid (obj s4)) by exact Hwf.
  set (run := bind (bind (call_update_fn fuel (curr_x (obj s)) (curr_y (obj s)))
                      (fun sl => modify_self (set_slice sl)))
                   (fun _ => __refresh) s4).
  assert (Hrun : exists (tr : list (Q * Q)) (n : nat),
            (exists sl, run = (Ok tt, mkWorld (refresh_obj (set_slice sl (emit_all (obj s4) tr)))
                                        (stream s) (pos s + n))) \/
            run = (OutOfFuel, mkWorld (emit_all (obj s4) tr) (stream s) (pos s + n))).
  { unfold run, call_update_fn, bind, get_self.
    destruct (update_fn (obj s4)).
    - destruct (stepout_any fuel (curr_x (obj s)) (curr_y (obj s)) 1 40 s4 Hwf4)
        as (nl & nr & _ & _ & Hres).
      cbn zeta in Hres. eexists _, 2%nat.
      replace (pos s + 2)%nat with (S (S (pos s))) by lia.
      destruct Hres as [(Hrun & _) | (Hrun & _)]; rewrite Hrun.
      + left. eexists. reflexivity.
      + right. reflexivity.
    - destruct (double_run fuel (curr_x (obj s)) (curr_y (obj s)) (1 # 4) 5 s4 Hwf4)
        as (tr & _ & _ & Hres).
      cbn zeta in Hres. exists tr, (S (length tr)).
      replace (pos s + S (length tr))%nat with (S (pos s4) + length tr)%nat
        by (cbn [s4 pos]; lia).
      destruct Hres as [(Hrun & _) | (Hrun & _)]; rewrite Hrun.
      + left. eexists. reflexivity.
      + right. reflexivity. }
  destruct Hrun as (tr & n & Hrun). exists tr, n. exact Hrun.
Qed.

(** The frame of [next_step]: what it leaves alone. *)
Lemma next_step_frame (fuel : nat) (s : World) :
  wf_grid (obj s) ->
  num_modes (obj s) <> 0%Z ->
  same_setup (obj s) (obj (snd (next_step fuel s))) /\
  mode (obj (snd (next_step fuel s))) = ((mode (obj s) + 1) mod num_modes (obj s))%Z /\
  stream (snd (next_step fuel s)) = stream s /\
  (pos s <= pos (snd (next_step fuel s)))%nat /\
  (forall ex, fst (next_step fuel s) <> Raise ex).
Proof.
  intros Hwf Hnz. fold (next_mode (obj s)).
  destruct (Z.eq_dec (next_mode (obj s)) 0%Z) as [H0 | H0].
  { destruct (next_step_mode0 fuel s Hwf Hnz H0) as (n & _ & Hres). cbn zeta in Hres.
    destruct (resample_setup (S n) (set_mode 0 (obj s)) (stream s) (pos s))
      as (Hs & Hm & _).
    destruct Hres as [[Hrun _] | [Hrun _]]; rewrite Hrun; cbn [fst snd obj stream pos];
      (split; [| split; [| split; [reflexivity | split; [lia | discriminate]]]]).
    - destruct Hs as (A1 & A2 & A3 & A4 & A5 & A6). repeat split; assumption.
    - cbn [mode refresh_obj set_figure set_curr_y set_fx set_horizontal].
      rewrite Hm, H0. reflexivity.
    - exact Hs.
    - rewrite Hm, H0. reflexivity. }
  destruct (Z.eq_dec (next_mode (obj s)) 1%Z) as [H1 | H1].
  { rewrite (next_step_mode1 fuel s Hwf Hnz H1). cbn [fst snd obj stream pos].
    rewrite H1. repeat split; try reflexivity; try lia; discriminate. }
  destruct (Z.eq_dec (next_mode (obj s)) 2%Z) as [H2 | H2].
  { rewrite (next_step_mode2 fuel s Hnz H2). cbn [fst snd obj stream pos].
    rewrite H2. repeat split; try reflexivity; try lia; discriminate. }
  destruct (Z.eq_dec (next_mode (obj s)) 3%Z) as [H3 | H3].
  { rewrite (next_step_mode3 fuel s Hnz H3). cbn [fst snd obj stream pos].
    rewrite H3. repeat split; try reflexivity; try lia; discriminate. }
  destruct (Z.eq_dec (next_mode (obj s)) 4%Z) as [H4 | H4].
  { destruct (next_step_mode4_run fuel s Hwf Hnz H4) as (tr & n & Hres). cbn zeta in Hres.
    pose proof (same_setup_emit_all (set_mode 4 (obj s)) tr) as Hs.
    destruct (emit_all_fields tr (set_mode 4 (obj s))) as (Hm & _).
    destruct Hres as [[sl Hrun] | Hrun]; rewrite Hrun; cbn [fst snd obj stream pos];
      (split; [| split; [| split; [reflexivity | split; [lia | discriminate]]]]).
    - destruct Hs as (A1 & A2 & A3 & A4 & A5 & A6). repeat split; assumption.
    - cbn [mode refresh_obj set_figure set_slice]. rewrite Hm, H4. reflexivity.
    - exact Hs.
    - rewrite Hm, H4. reflexivity. }
  rewrite (next_step_other fuel s Hnz H0 H1 H2 H3 H4). cbn [fst snd obj stream pos].
  repeat split; try reflexivity; try lia; discriminate.
Qed.

(** X1.  On a constructed sampler [next_step] raises only when there are no
    modes: with [num_modes = 0] it raises [ZeroDivisionError] and changes
    nothing.  With [num_modes <> 0], whatever it does (return or keep
    running), it raises nothing, leaves the grid, the density values, the
    patches, the number of modes and the selected strategy alone, moves the
    mode to [(mode + 1) mod num_modes], and only consumes samples of the
    stream; the same setup is kept over any number of presses of the
    button. *)
Theorem next_step_keeps_setup (fuel : nat) (s : World) :
  wf_grid (obj s) ->
  (num_modes (obj s) = 0%Z ->
   next_step fuel s = (Raise ZeroDivisionError, s)) /\
  (num_modes (obj s) <> 0%Z ->
   (same_setup (obj s) (obj (snd (next_step fuel s))) /\
    mode (obj (snd (next_step fuel s))) = ((mode (obj s) + 1) mod num_modes (obj s))%Z /\
    stream (snd (next_step fuel s)) = stream s /\
    (pos s <= pos (snd (next_step fuel s)))%nat /\
    (forall ex, fst (next_step fuel s) <> Raise ex)) /\
   (forall n : nat,
      same_setup (obj s) (obj (snd (press fuel n s))) /\
      stream (snd (press fuel n s)) = stream s /\
      (pos s <= pos (snd (press fuel n s)))%nat /\
      (forall ex, fst (press fuel n s) <> Raise ex))).
Proof.
  intros Hwf. split; [apply next_step_zero |].
  intros Hnz. split; [now apply next_step_frame |].
  intros n. revert s Hwf Hnz. induction n as [| n IH]; intros s Hwf Hnz.
  - cbn. split; [apply same_setup_refl |]. split; [reflexivity |].
    split; [lia | discriminate].
  - change (press fuel (S n) s)
      with (match next_step fuel s with
            | (Ok _, s') => press fuel n s'
            | (Raise ex, s') => (Raise ex, s')
            | (OutOfFuel, s') => (OutOfFuel, s')
            end).
    destruct (next_step_frame fuel s Hwf Hnz) as (Hs & _ & Hst & Hp & Hex).
    destruct (next_step fuel s) as [[[] | ex |] s1]; cbn [fst snd] in *.
    + assert (Hnz1 : num_modes (obj s1) <> 0%Z)
        by (destruct Hs as (_ & _ & _ & _ & H5 & _); congruence).
      destruct (IH s1 (same_setup_wf _ _ Hs Hwf) Hnz1) as (Hs' & Hst' & Hp' & Hex').
      split; [now apply (same_setup_trans _ (obj s1)) |].
      split; [congruence |]. split; [lia | exact Hex'].
    + now destruct (Hex ex).
    + split; [exact Hs |]. split; [exact Hst |]. split; [exact Hp | discriminate].
Qed.

Lemma next_step_keeps_setup_witness :
  let s := mkWorld (demo_ready Double) (constant_stream (1 # 3)) 0 in
  let s0 := mkWorld (mkElliptical 3 0 Double [-2; -1; 0; 1; 2] [0; 1; 1; 1; 0]
                       [] [] (-1, -1) (-1) 1 (1 # 2) (1 # 2) [])
                    (constant_stream (1 # 3)) 0 in
  same_setup (obj s) (obj (snd (next_step 3 s))) /\
  mode (obj (snd (next_step 3 s))) = 4%Z /\
  next_step 3 s0 = (Raise ZeroDivisionError, s0).
Proof.
  intros s s0.
  assert (Hwf : wf_grid (obj s)) by (split; [discriminate | reflexivity]).
  assert (Hwf0 : wf_grid (obj s0)) by (split; [discriminate | reflexivity]).
  destruct (next_step_keeps_setup 3 s Hwf) as (_ & H).
  destruct H as ((H1 & H2 & _) & _); [discriminate |].
  destruct (next_step_keeps_setup 3 s0 Hwf0) as (H0 & _).
  split; [exact H1 |]. split; [exact H2 |]. apply H0. reflexivity.
Defined.


(** ** Pressing the button repeatedly *)

Lemma press_succ (fuel n : nat) (s : World) :
  press fuel (S n) s =
  match next_step fuel s with
  | (Ok _, s') => press fuel n s'
  | (Raise ex, s') => (Raise ex, s')
  | (OutOfFuel, s') => (OutOfFuel, s')
  end.
Proof. reflexivity. Qed.

(** X2.  The modes are visited cyclically: on a constructed sampler with five
    modes, [n + 1] presses that all return leave the sampler in mode
    [(mode + n + 1) mod 5]; from [__init__] (mode -1) that is [n mod 5]. *)
Theorem press_modes (fuel n : nat) :
  forall s : World,
    wf_grid (obj s) ->
    num_modes (obj s) = 5%Z ->
    fst (press fuel (S n) s) = Ok tt ->
    mode (obj (snd (press fuel (S n) s)))
    = ((mode (obj s) + 1 + Z.of_nat n) mod 5)%Z.
Proof.
  induction n as [| n IH]; intros s Hwf Hnum Hok; rewrite press_succ in Hok |- *;
    (assert (Hnz : num_modes (obj s) <> 0%Z) by (rewrite Hnum; discriminate));
    destruct (next_step_frame fuel s Hwf Hnz) as (Hs & Hm & _);
    destruct (next_step fuel s) as [[[] | ex |] s1]; cbn [fst snd] in *;
    try discriminate.
  - cbn [press ret snd]. rewrite Hm, Hnum. f_equal. lia.
  - assert (Hwf1 : wf_grid (obj s1)) by now apply (same_setup_wf (obj s)).
    assert (Hnum1 : num_modes (obj s1) = 5%Z)
      by (destruct Hs as (_ & _ & _ & _ & H5 & _); congruence).
    rewrite (IH s1 Hwf1 Hnum1 Hok), Hm, Hnum.
    replace ((mode (obj s) + 1) mod 5 + 1 + Z.of_nat n)%Z
      with ((mode (obj s) + 1) mod 5 + (1 + Z.of_nat n))%Z by lia.
    rewrite Z.add_mod_idemp_l by lia. f_equal. lia.
Qed.

Lemma press_modes_witness :
  mode (obj (snd (press 40 7 (mkWorld demo_sampler (constant_stream (1 # 3)) 0))))
  = 1%Z.
Proof.
  apply (press_modes 40 6 (mkWorld demo_sampler (constant_stream (1 # 3)) 0)).
  - split; [discriminate | reflexivity].
  - reflexivity.
  - vm_compute. reflexivity.
Defined.

(** ** The display follows the state *)

Lemma emit_all_frames (tr : list (Q * Q)) :
  forall e, exists new,
    figure (emit_all e tr) = new ++ figure e /\ length new = length tr.
Proof.
  induction tr as [| sl tr IH]; intros e.
  - exists []. split; reflexivity.
  - destruct (IH (emit e sl)) as (new & Hnew & Hlen).
    exists (new ++ [frame_of (set_slice sl e)]). split.
    + change (emit_all e (sl :: tr)) with (emit_all (emit e sl) tr).
      rewrite Hnew, <- app_assoc. reflexivity.
    + rewrite length_app. cbn [length]. lia.
Qed.

Lemma resample_figure (n : nat) (e : Elliptical) (st : nat -> Q) (p : nat) :
  figure (resample e st p n) = figure e.
Proof. now destruct (resample_setup n e st p) as (_ & _ & _ & _ & _ & _ & H). Qed.

(** X3.  When [next_step] returns on a constructed sampler, the newest frame
    of the display shows the state the sampler now has, the frames shown
    before are all still there, and outside Mode 4 exactly one frame was
    added. *)
Theorem display_in_sync (fuel : nat) (s : World) :
  wf_grid (obj s) ->
  fst (next_step fuel s) = Ok tt ->
  exists new : list Frame,
    figure (obj (snd (next_step fuel s)))
    = frame_of (obj (snd (next_step fuel s))) :: new ++ figure (obj s) /\
    (next_mode (obj s) <> 4%Z -> new = []).
Proof.
  intros Hwf Hok.
  destruct (Z.eq_dec (num_modes (obj s)) 0%Z) as [Hz | Hnz].
  { rewrite (next_step_zero fuel s Hz) in Hok. discriminate. }
  destruct (Z.eq_dec (next_mode (obj s)) 0%Z) as [H0 | H0].
  { destruct (next_step_mode0 fuel s Hwf Hnz H0) as (n & _ & Hres). cbn zeta in Hres.
    destruct Hres as [[Hrun _] | [Hrun _]]; rewrite Hrun in Hok |- *;
      [| discriminate].
    exists []. split; [| reflexivity]. cbn [snd obj app].
    unfold refresh_obj at 1. cbn [figure set_figure]. f_equal.
    cbn [figure set_curr_y set_fx set_horizontal].
    now rewrite resample_figure. }
  destruct (Z.eq_dec (next_mode (obj s)) 1%Z) as [H1 | H1].
  { rewrite (next_step_mode1 fuel s Hwf Hnz H1). exists []. split; reflexivity. }
  destruct (Z.eq_dec (next_mode (obj s)) 2%Z) as [H2 | H2].
  { rewrite (next_step_mode2 fuel s Hnz H2). exists []. split; reflexivity. }
  destruct (Z.eq_dec (next_mode (obj s)) 3%Z) as [H3 | H3].
  { rewrite (next_step_mode3 fuel s Hnz H3). exists []. split; reflexivity. }
  destruct (Z.eq_dec (next_mode (obj s)) 4%Z) as [H4 | H4].
  { destruct (next_step_mode4_run fuel s Hwf Hnz H4) as (tr & n & Hres). cbn zeta in Hres.
    destruct Hres as [[sl Hrun] | Hrun]; rewrite Hrun in Hok |- *; [| discriminate].
    destruct (emit_all_frames tr (set_mode 4 (obj s))) as (new & Hnew & _).
    exists new. split; [| intros Hne; contradiction]. cbn [snd obj].
    unfold refresh_obj at 1. cbn [figure set_figure set_slice]. f_equal.
    exact Hnew. }
  rewrite (next_step_other fuel s Hnz H0 H1 H2 H3 H4). exists []. split; reflexivity.
Qed.

Lemma display_in_sync_witness :
  let s := mkWorld (demo_ready Stepout) (constant_stream (1 # 3)) 0 in
  exists new : list Frame,
    figure (obj (snd (next_step 40 s)))
    = frame_of (obj (snd (next_step 40 s))) :: new ++ figure (obj s) /\
    (next_mode (obj s) <> 4%Z -> new = []).
Proof.
  intros s.
  apply (display_in_sync 40 s).
  - split; [discriminate | reflexivity].
  - vm_compute. reflexivity.
Defined.

(** ** The height of the slice *)

(** X4.  Mode 2 draws the height between 0 and the stored density value:
    on a sampler with modes ([num_modes <> 0]) whose next mode is 2, when
    [fx >= 0] and the sample is in [0,1], the step returns with
    [0 <= curr_y <= fx], has consumed exactly one sample, has reset the slice
    to [(-1, -1)] and has kept [curr_x], [fx] and [horizontal]. *)
Theorem slice_height_in_range (fuel : nat) (s : World) :
  num_modes (obj s) <> 0%Z ->
  next_mode (obj s) = 2%Z ->
  0 <= fx (obj s) ->
  0 <= stream s (pos s) <= 1 ->
  fst (next_step fuel s) = Ok tt /\
  0 <= curr_y (obj (snd (next_step fuel s))) <= fx (obj (snd (next_step fuel s))) /\
  slice (obj (snd (next_step fuel s))) = (-1, -1) /\
  pos (snd (next_step fuel s)) = S (pos s) /\
  curr_x (obj (snd (next_step fuel s))) = curr_x (obj s) /\
  fx (obj (snd (next_step fuel s))) = fx (obj s) /\
  horizontal (obj (snd (next_step fuel s))) = horizontal (obj s).
Proof.
  intros Hnz Hmode Hfx [Hu0 Hu1]. rewrite (next_step_mode2 fuel s Hnz Hmode).
  cbn. repeat split; try reflexivity.
  - change (0 <= 0 + (fx (obj s) - 0) * stream s (pos s)). nra.
  - change (0 + (fx (obj s) - 0) * stream s (pos s) <= fx (obj s)). nra.
Qed.

Lemma slice_height_in_range_witness :
  let s := mkWorld (mkElliptical 1 5 Stepout [-2; -1; 0; 1; 2] [0; 1; 1; 1; 0]
                      [] [] (-1, -1) (-1) 1 (-1) (-1) [])
                   (constant_stream (1 # 3)) 1 in
  fst (next_step 0 s) = Ok tt /\
  0 <= curr_y (obj (snd (next_step 0 s))) <= fx (obj (snd (next_step 0 s))) /\
  slice (obj (snd (next_step 0 s))) = (-1, -1) /\
  pos (snd (next_step 0 s)) = 2%nat /\
  curr_x (obj (snd (next_step 0 s))) = curr_x (obj s) /\
  fx (obj (snd (next_step 0 s))) = fx (obj s) /\
  horizontal (obj (snd (next_step 0 s))) = horizontal (obj s).
Proof.
  intros s. apply (slice_height_in_range 0 s).
  - discriminate.
  - reflexivity.
  - vm_compute. discriminate.
  - split; vm_compute; discriminate.
Defined.

(** ** Mode 0 after the first iteration *)

(** X5.  A Mode 0 that returns has accepted a candidate that lies in the
    slice of the previous height: [y <= density(curr_x)] for the [y] stored
    before the step; the candidate is the last of the [k + 1] samples drawn,
    scaled into the stored interval, and lies in that interval when the
    interval is ordered and the sample is in [0,1]; [fx], [curr_y] and
    [horizontal] are reset to -1 and the stored interval is kept. *)
Theorem mode0_accepts_in_slice (fuel : nat) (s : World) :
  wf_grid (obj s) ->
  next_mode (obj s) = 0%Z ->
  fst (next_step fuel s) = Ok tt ->
  exists k : nat,
    (k <= fuel)%nat /\
    pos (snd (next_step fuel s)) = S (pos s + k) /\
    curr_x (obj (snd (next_step fuel s)))
    = fst (slice (obj s))
      + (snd (slice (obj s)) - fst (slice (obj s))) * stream s (pos s + k)%nat /\
    curr_y (obj s) <= fx_at (obj s) (curr_x (obj (snd (next_step fuel s)))) /\
    fx (obj (snd (next_step fuel s))) = -1 /\
    curr_y (obj (snd (next_step fuel s))) = -1 /\
    horizontal (obj (snd (next_step fuel s))) = -1 /\
    slice (obj (snd (next_step fuel s))) = slice (obj s) /\
    (fst (slice (obj s)) <= snd (slice (obj s)) ->
     0 <= stream s (pos s + k)%nat <= 1 ->
     brackets (curr_x (obj (snd (next_step fuel s)))) (slice (obj s))).
Proof.
  intros Hwf Hmode Hok.
  destruct (Z.eq_dec (num_modes (obj s)) 0%Z) as [Hz | Hnz].
  { rewrite (next_step_zero fuel s Hz) in Hok. discriminate. }
  destruct (next_step_mode0 fuel s Hwf Hnz Hmode) as (n & Hn & Hres). cbn zeta in Hres.
  destruct Hres as [[Hrun Hacc] | [Hrun _]]; rewrite Hrun in Hok |- *; [| discriminate].
  exists n. split; [exact Hn |]. cbn [snd obj pos].
  destruct (resample_setup (S n) (set_mode 0 (obj s)) (stream s) (pos s))
    as (_ & _ & Hsl & _).
  pose proof (resample_curr_x n (set_mode 0 (obj s)) (stream s) (pos s)) as Hx.
  cbn [slice set_mode] in Hx, Hsl.
  cbn [curr_x fx curr_y horizontal slice refresh_obj set_figure set_curr_y set_fx
         set_horizontal].
  rewrite Hx in Hacc |- *. rewrite Hsl.
  split; [lia |]. split; [reflexivity |]. split; [exact Hacc |].
  repeat (split; [reflexivity |]).
  intros Hord [Hu0 Hu1]. unfold brackets. split; nra.
Qed.

Lemma mode0_accepts_in_slice_witness :
  let s := mkWorld (mkElliptical 4 5 Stepout [-2; -1; 0; 1; 2] [0; 1; 1; 1; 0]
                      [] [] (-2, 2) (-1) 1 (1 # 2) (1 # 2) [])
                   (stream_of [0; 1; 1 # 2] 0) 0 in
  exists k : nat,
    (k <= 5)%nat /\
    pos (snd (next_step 5 s)) = S (pos s + k) /\
    curr_x (obj (snd (next_step 5 s)))
    = fst (slice (obj s))
      + (snd (slice (obj s)) - fst (slice (obj s))) * stream s (pos s + k)%nat /\
    curr_y (obj s) <= fx_at (obj s) (curr_x (obj (snd (next_step 5 s)))) /\
    fx (obj (snd (next_step 5 s))) = -1 /\
    curr_y (obj (snd (next_step 5 s))) = -1 /\
    horizontal (obj (snd (next_step 5 s))) = -1 /\
    slice (obj (snd (next_step 5 s))) = slice (obj s) /\
    (fst (slice (obj s)) <= snd (slice (obj s)) ->
     0 <= stream s (pos s + k)%nat <= 1 ->
     brackets (curr_x (obj (snd (next_step 5 s)))) (slice (obj s))).
Proof.
  intros s. apply (mode0_accepts_in_slice 5 s).
  - split; [discriminate | reflexivity].
  - reflexivity.
  - vm_compute. reflexivity.
Defined.

(** The rejection loop has no retry bound: when every candidate falls where
    the density is below the previous height, Mode 0 is still running after
    any number of rounds. *)
Lemma reject_loop_stuck (fuel : nat) :
  forall s : World,
    wf_grid (obj s) ->
    fx_at (obj s) (curr_x (obj s)) < curr_y (obj s) ->
    (forall n, fx_at (obj s)
                 (fst (slice (obj s))
                  + (snd (slice (obj s)) - fst (slice (obj s))) * stream s n)
               < curr_y (obj s)) ->
    fst (reject_loop fuel s) = OutOfFuel /\
    pos (snd (reject_loop fuel s)) = (pos s + fuel)%nat.
Proof.
  induction fuel as [| fuel IH]; intros s Hwf Hrej Hall.
  - rewrite reject_loop_out by assumption. cbn [fst snd]. split; [reflexivity | lia].
  - rewrite (reject_loop_step fuel s Hwf Hrej).
    destruct (IH (mkWorld (resample (obj s) (stream s) (pos s) 1) (stream s) (S (pos s))))
      as [H1 H2].
    + exact Hwf.
    + cbn [obj resample curr_x curr_y set_curr_x].
      rewrite (fx_at_grid (obj s)) by reflexivity. apply Hall.
    + intros n. cbn [obj stream resample slice curr_y set_curr_x].
      rewrite (fx_at_grid (obj s)) by reflexivity. apply Hall.
    + split; [exact H1 |]. rewrite H2. cbn [pos]. lia.
Qed.

(** X6.  Mode 0 has no retry bound.  On a constructed sampler with modes
    ([num_modes <> 0]) whose next mode is 0 and whose stored height is above
    the density at every candidate the stream produces,
    [next_step] is still running after any number of rounds of the rejection
    loop, having consumed one sample per round. *)
Theorem mode0_can_spin (fuel : nat) (s : World) :
  wf_grid (obj s) ->
  num_modes (obj s) <> 0%Z ->
  next_mode (obj s) = 0%Z ->
  (forall n, fx_at (obj s)
               (fst (slice (obj s))
                + (snd (slice (obj s)) - fst (slice (obj s))) * stream s n)
             < curr_y (obj s)) ->
  fst (next_step fuel s) = OutOfFuel /\
  pos (snd (next_step fuel s)) = (pos s + 1 + fuel)%nat.
Proof.
  intros Hwf Hnz Hmode Hall.
  set (s1 := mkWorld (resample (set_mode 0 (obj s)) (stream s) (pos s) 1)
                     (stream s) (S (pos s))).
  assert (Hunf : next_step fuel s =
            bind (bind (reject_loop fuel)
                    (fun _ => bind (modify_self (set_horizontal (-1)))
                       (fun _ => bind (modify_self (set_fx (-1)))
                          (fun _ => modify_self (set_curr_y (-1))))))
                 (fun _ => __refresh) s1).
  { rewrite (next_step_unfold fuel s Hnz), Hmode. reflexivity. }
  rewrite Hunf. clear Hunf.
  destruct (reject_loop_stuck fuel s1) as [H1 H2].
  - exact Hwf.
  - cbn [s1 obj resample curr_x curr_y set_curr_x set_mode slice].
    rewrite (fx_at_grid (obj s)) by reflexivity. apply Hall.
  - intros n. cbn [s1 obj stream resample curr_y set_curr_x set_mode slice].
    rewrite (fx_at_grid (obj s)) by reflexivity. apply Hall.
  - unfold bind.
    destruct (reject_loop fuel s1) as [o s2]. cbn [fst snd] in H1, H2. subst o.
    cbn [fst snd]. split; [reflexivity |]. rewrite H2. cbn [s1 pos]. lia.
Qed.

Lemma mode0_can_spin_witness :
  let s := mkWorld (mkElliptical 4 5 Stepout [-2; -1; 0; 1; 2] [0; 1; 1; 1; 0]
                      [] [] (-2, 2) (-1) 1 (1 # 2) (1 # 2) [])
                   (constant_stream 0) 0 in
  fst (next_step 100 s) = OutOfFuel /\
  pos (snd (next_step 100 s)) = 101%nat.
Proof.
  intros s. apply (mode0_can_spin 100 s).
  - split; [discriminate | reflexivity].
  - discriminate.
  - reflexivity.
  - intros n. vm_compute. reflexivity.
Defined.

(** * Further properties of the interval searches *)



(** ** [double] *)

(** X9.  With no budget ([p <= 0]) [double] returns the initial interval at
    once: it consumes one sample, evaluates no density (so it returns even on
    a sampler without grid) and writes nothing. *)
Theorem double_without_budget (fuel : nat) (x y w : Q) (p : Z) (s : World) :
  (p <= 0)%Z ->
  double fuel x y w p s =
  (Ok (x - w * stream s (pos s), x - w * stream s (pos s) + w),
   mkWorld (obj s) (stream s) (S (pos s))).
Proof.
  intros Hp.
  change (double fuel x y w p s)
    with (double_loop fuel y (x - w * stream s (pos s))
            (x - w * stream s (pos s) + w) p
            (mkWorld (obj s) (stream s) (S (pos s)))).
  apply Z.ltb_ge in Hp. destruct fuel; cbn [double_loop]; rewrite Hp; reflexivity.
Qed.

Lemma double_without_budget_witness :
  double 0 0 (1 # 2) (1 # 4) 0
    (mkWorld (mkElliptical 3 5 Double [] [] [] [] (-1, -1) 0 0 (1 # 2) (1 # 2) [])
             (constant_stream (1 # 2)) 0)
  = (Ok (0 - (1 # 4) * (1 # 2), 0 - (1 # 4) * (1 # 2) + (1 # 4)),
     mkWorld (mkElliptical 3 5 Double [] [] [] [] (-1, -1) 0 0 (1 # 2) (1 # 2) [])
             (constant_stream (1 # 2)) 1).
Proof.
  apply (double_without_budget 0 0 (1 # 2) (1 # 4) 0). lia.
Defined.

(** X10.  When [double] returns with a budget [p > 0], the density at both
    ends of the interval it returns is at most [y]; it has written [n]
    intervals and consumed [n] samples after the first, for some [n] within
    the fuel. *)
Theorem double_ends_outside_slice (fuel : nat) (x y w : Q) (p : Z) (s : World)
    (l r : Q) (s' : World) :
  wf_grid (obj s) ->
  (0 < p)%Z ->
  double fuel x y w p s = (Ok (l, r), s') ->
  fx_at (obj s) l <= y /\ fx_at (obj s) r <= y /\
  exists n : nat,
    (n <= fuel)%nat /\
    pos s' = (S (pos s) + n)%nat /\
    length (figure (obj s')) = (n + length (figure (obj s)))%nat.
Proof.
  intros Hwf Hp Hret.
  destruct (double_run fuel x y w p s Hwf) as (tr & Hch & Hlen & Hres).
  cbn zeta in Hres.
  destruct Hres as [(Hrun & Hstop) | (Hrun & _)]; rewrite Hrun in Hret;
    [| discriminate].
  injection Hret as Hlast <-.
  destruct Hstop as [Hstop | Hstop]; [lia |].
  rewrite Hlast in Hstop. cbn [fst snd] in Hstop.
  unfold double_guard_at in Hstop. apply orb_false_iff in Hstop.
  destruct Hstop as [H1 H2]. apply Qltb_false in H1, H2.
  split; [exact H1 |]. split; [exact H2 |].
  exists (length tr). split; [exact Hlen |].
  split; [reflexivity |]. cbn [obj].
  destruct (emit_all_frames tr (obj s)) as (new & Hnew & Hn).
  rewrite Hnew, length_app. lia.
Qed.

Lemma double_ends_outside_slice_witness :
  let s := mkWorld (demo_ready Double)
             (stream_of [1 # 3; 1 # 3; 1 # 3; 2 # 3] (2 # 3)) 0 in
  exists (l r : Q) (s' : World),
    double 6 (-1) (1 # 2) (1 # 4) 5 s = (Ok (l, r), s') /\
    fx_at (obj s) l <= 1 # 2 /\ fx_at (obj s) r <= 1 # 2 /\
    exists n : nat,
      (n <= 6)%nat /\
      pos s' = (S (pos s) + n)%nat /\
      length (figure (obj s')) = (n + length (figure (obj s)))%nat.
Proof.
  intros s.
  assert (Hwf : wf_grid (obj s)) by (split; [discriminate | reflexivity]).
  destruct (double 6 (-1) (1 # 2) (1 # 4) 5 s) as [out s'] eqn:Hd.
  destruct out as [[l r] | ex |].
  - exists l, r, s'. split; [reflexivity |].
    apply (double_ends_outside_slice 6 (-1) (1 # 2) (1 # 4) 5 s l r s' Hwf);
      [lia | exact Hd].
  - exfalso. vm_compute in Hd. discriminate Hd.
  - exfalso. vm_compute in Hd. discriminate Hd.
Defined.

Lemma double_loop_below (fuel : nat) :
  forall (y l r : Q) (k : Z) (s : World),
    wf_grid (obj s) ->
    (0 < k)%Z ->
    (forall v, In v (Y (obj s)) -> y < v) ->
    fst (double_loop fuel y l r k s) = OutOfFuel /\
    pos (snd (double_loop fuel y l r k s)) = (pos s + fuel)%nat /\
    length (figure (obj (snd (double_loop fuel y l r k s))))
    = (fuel + length (figure (obj s)))%nat.
Proof.
  induction fuel as [| fuel IH]; intros y l r k s Hwf Hk Hbelow;
    assert (Hg : double_guard_at (obj s) y l r = true)
      by (unfold double_guard_at;
          pose proof (Hbelow _ (fx_at_in (obj s) l Hwf)) as Hy;
          apply Qltb_true in Hy; now rewrite Hy).
  - rewrite double_loop_out by assumption. cbn [fst snd]. repeat split; lia.
  - rewrite (double_loop_step fuel y l r k s Hwf Hk Hg).
    match goal with
    | |- context [double_loop fuel y ?a ?b k ?s1] =>
        destruct (IH y a b k s1) as (H1 & H2 & H3);
          [exact Hwf | exact Hk | exact Hbelow |];
          split; [exact H1 |]; rewrite H2, H3; cbn [pos obj];
          unfold emit, refresh_obj, set_figure, set_slice; cbn [figure length];
          split; lia
    end.
Qed.

(** X11.  [double] cannot return while [y] is below the density everywhere
    on the grid: with a budget [p > 0] it is still running after any number
    of iterations, whatever the samples, having written one interval and
    consumed one sample per iteration. *)
Theorem double_never_returns_below_density
    (fuel : nat) (x y w : Q) (p : Z) (s : World) :
  wf_grid (obj s) ->
  (0 < p)%Z ->
  (forall v, In v (Y (obj s)) -> y < v) ->
  fst (double fuel x y w p s) = OutOfFuel /\
  pos (snd (double fuel x y w p s)) = (S (pos s) + fuel)%nat /\
  length (figure (obj (snd (double fuel x y w p s))))
  = (fuel + length (figure (obj s)))%nat.
Proof.
  intros Hwf Hp Hbelow.
  change (double fuel x y w p s)
    with (double_loop fuel y (x - w * stream s (pos s))
            (x - w * stream s (pos s) + w) p
            (mkWorld (obj s) (stream s) (S (pos s)))).
  apply (double_loop_below fuel y _ _ p (mkWorld (obj s) (stream s) (S (pos s))));
    assumption.
Qed.

Lemma double_never_returns_below_density_witness :
  let s := mkWorld (mkElliptical 3 5 Double [-1; 0; 1] [1 # 10; 1; 1 # 10] [] []
                      (-1, -1) 0 1 (1 # 20) (1 # 20) [])
                   (stream_of [1 # 3; 2 # 3; 1 # 3] (2 # 3)) 0 in
  fst (double 7 0 (1 # 20) (1 # 4) 5 s) = OutOfFuel /\
  pos (snd (double 7 0 (1 # 20) (1 # 4) 5 s)) = 8%nat /\
  length (figure (obj (snd (double 7 0 (1 # 20) (1 # 4) 5 s)))) = 7%nat.
Proof.
  intros s. apply (double_never_returns_below_density 7 0 (1 # 20) (1 # 4) 5 s).
  - split; [discriminate | reflexivity].
  - lia.
  - intros v [<- | [<- | [<- | []]]]; vm_compute; reflexivity.
Defined.

(** * Further properties of region extraction *)

Lemma foldM_preserves {A B} (f : A -> B -> Outcome A) (P : A -> Prop) :
  (forall a b r, f a b = Ok r -> P a -> P r) ->
  forall (l : list B) (acc r : A), foldM f acc l = Ok r -> P acc -> P r.
Proof.
  intros Hstep. induction l as [| b l IH]; intros acc r Hr Hacc.
  - cbn in Hr. injection Hr as <-. exact Hacc.
  - cbn [foldM] in Hr. destruct (f acc b) as [a' | ex |] eqn:Hf; cbn [obind] in Hr;
      try discriminate.
    apply (IH a' r Hr). now apply (Hstep acc b).
Qed.

Lemma mapM_length {A B} (f : A -> Outcome B) (l : list A) :
  forall bs, mapM f l = Ok bs -> length bs = length l.
Proof.
  induction l as [| a l IH]; intros bs H.
  - cbn in H. injection H as <-. reflexivity.
  - cbn [mapM] in H. destruct (f a) as [b | |]; cbn [obind] in H; try discriminate.
    destruct (mapM f l) as [bs' | |]; cbn [obind] in H; try discriminate.
    injection H as <-. cbn [length]. now rewrite (IH bs').
Qed.

Lemma patch_step_same_lengths (X' Y : list Q) (threshold : Q)
    (intersections : list nat) (acc r : list (list Q) * list (list Q)) (ind : nat) :
  patch_step X' Y threshold intersections acc ind = Ok r ->
  same_lengths acc -> same_lengths r.
Proof.
  unfold patch_step. intros H Hacc.
  destruct (getitem intersections (ind - 1)) as [st | |]; cbn [obind] in H;
    try discriminate.
  destruct (getitem intersections ind) as [en | |]; cbn [obind] in H;
    try discriminate.
  destruct (getitem Y ((st + en) / 2)) as [ym | |]; cbn [obind] in H;
    try discriminate.
  destruct (Qle_bool threshold ym); [| injection H as <-; exact Hacc].
  destruct (mapM (getitem X') (range_down en st)) as [lower | |]; cbn [obind] in H;
    try discriminate.
  destruct (mapM _ (seq st (en - st))) as [upper | |]; cbn [obind] in H;
    try discriminate.
  injection H as <-. unfold same_lengths. cbn [fst snd].
  apply Forall2_app; [exact Hacc |].
  constructor; [| constructor].
  now rewrite !length_app, !length_map.
Qed.

(** X12.  [__find_patches] on matching arrays fails exactly on an empty
    grid, with [IndexError]; otherwise it returns as many lists of x
    coordinates as lists of y coordinates, and the two lists of each patch
    have the same length. *)
Theorem find_patches_shape (grid values : list Q) (threshold : Q) :
  length values = length grid ->
  match __find_patches grid values threshold with
  | Ok (pxs, pys) =>
      grid <> [] /\
      Forall2 (fun xs ys : list Q => length xs = length ys) pxs pys
  | Raise ex => grid = [] /\ ex = IndexError
  | OutOfFuel => False
  end.
Proof.
  intros Hlen. destruct grid as [| x0 grid'].
  - rewrite find_patches_empty. split; reflexivity.
  - destruct (find_patches_ok (x0 :: grid') values threshold) as [[pxs pys] Hp];
      [discriminate | exact Hlen |].
    rewrite Hp. split; [discriminate |].
    unfold __find_patches in Hp. cbn [getitem lookup list_lookup obind] in Hp.
    change (getitem (x0 :: grid') 0) with (@Ok Q x0) in Hp. cbn [obind] in Hp.
    refine (foldM_preserves _ same_lengths _ _ _ _ Hp _).
    + intros a b r. apply patch_step_same_lengths.
    + constructor.
Qed.

Lemma find_patches_shape_witness :
  match __find_patches [0; 1; 2; 3; 4; 5] [1; -1; 1; -1; 1; 1] 0 with
  | Ok (pxs, pys) =>
      [0; 1; 2; 3; 4; 5] <> [] /\
      Forall2 (fun xs ys : list Q => length xs = length ys) pxs pys
  | Raise ex => [0; 1; 2; 3; 4; 5] = [] /\ ex = IndexError
  | OutOfFuel => False
  end.
Proof.
  apply (find_patches_shape [0; 1; 2; 3; 4; 5] [1; -1; 1; -1; 1; 1] 0).
  reflexivity.
Defined.

Lemma np_sign_pos (q : Q) : 0 < q -> np_sign q = 1%Z.
Proof.
  intros H. unfold np_sign. apply Z.sgn_pos.
  unfold Qlt in H. cbn in H. lia.
Qed.

Lemma np_diff_repeat (c : Z) (n : nat) :
  np_diff (repeat c n) = repeat 0%Z (n - 1).
Proof.
  destruct n as [| n]; [reflexivity |].
  unfold np_diff. cbn [repeat tail]. rewrite Nat.sub_succ, Nat.sub_0_r.
  induction n as [| n IH]; [reflexivity |].
  cbn [repeat zip_with]. rewrite Z.sub_diag. f_equal. exact IH.
Qed.

Lemma collapse_from_zeros (n : nat) :
  collapse_from 0 (repeat 0%Z n) = repeat 0%Z n.
Proof. induction n as [| n IH]; [reflexivity |]. cbn. now rewrite IH. Qed.

Lemma collapse_zeros (n : nat) : collapse (repeat 0%Z n) = repeat 0%Z n.
Proof.
  destruct n as [| n]; [reflexivity |].
  cbn [repeat]. rewrite collapse_cons. now rewrite collapse_from_zeros.
Qed.

Lemma argwhere_from_zeros (n : nat) :
  forall i, argwhere_from i (repeat 0%Z n) = [].
Proof. induction n as [| n IH]; intros i; [reflexivity |]. cbn. apply IH. Qed.

Lemma mapM_getitem_seq {A} (L : list A) (k : nat) :
  forall a, (a + k <= length L)%nat ->
    mapM (getitem L) (seq a k) = Ok (take k (drop a L)).
Proof.
  induction k as [| k IH]; intros a Hk; [reflexivity |].
  cbn [seq mapM].
  destruct (getitem_lt L a) as (v & Hv & Hlook); [lia |].
  rewrite Hv. cbn [obind]. rewrite (IH (S a)) by lia. cbn [obind].
  rewrite (drop_S L v a Hlook). reflexivity.
Qed.

Lemma mapM_pair_seq {A B} (L1 : list A) (L2 : list B) (k : nat) :
  forall a, (a + k <= length L1)%nat -> (a + k <= length L2)%nat ->
    mapM (fun i => (let* xv := getitem L1 i in
                    let* yv := getitem L2 i in Ok (xv, yv))%outcome) (seq a k)
    = Ok (zip (take k (drop a L1)) (take k (drop a L2))).
Proof.
  induction k as [| k IH]; intros a H1 H2; [reflexivity |].
  cbn [seq mapM].
  destruct (getitem_lt L1 a) as (v1 & Hv1 & Hl1); [lia |].
  destruct (getitem_lt L2 a) as (v2 & Hv2 & Hl2); [lia |].
  rewrite Hv1. cbn [obind]. rewrite Hv2. cbn [obind].
  rewrite (IH (S a)) by lia. cbn [obind].
  rewrite (drop_S L1 v1 a Hl1), (drop_S L2 v2 a Hl2). reflexivity.
Qed.

Lemma mapM_app {A B} (f : A -> Outcome B) (l1 l2 : list A) (b1 b2 : list B) :
  mapM f l1 = Ok b1 -> mapM f l2 = Ok b2 -> mapM f (l1 ++ l2) = Ok (b1 ++ b2).
Proof.
  revert b1. induction l1 as [| a l1 IH]; intros b1 H1 H2.
  - cbn in H1. injection H1 as <-. exact H2.
  - cbn [mapM app] in H1 |- *.
    destruct (f a) as [b | |]; cbn [obind] in H1 |- *; try discriminate.
    destruct (mapM f l1) as [bs | |] eqn:E; cbn [obind] in H1; try discriminate.
    injection H1 as <-. rewrite (IH bs eq_refl H2). reflexivity.
Qed.

Lemma mapM_rev {A B} (f : A -> Outcome B) (l : list A) :
  forall bs, mapM f l = Ok bs -> mapM f (rev l) = Ok (rev bs).
Proof.
  induction l as [| a l IH]; intros bs H.
  - cbn in H. injection H as <-. reflexivity.
  - cbn [mapM] in H.
    destruct (f a) as [b | |] eqn:Ea; cbn [obind] in H; try discriminate.
    destruct (mapM f l) as [bs' | |] eqn:E; cbn [obind] in H; try discriminate.
    injection H as <-. cbn [rev].
    apply mapM_app; [now apply IH |]. cbn [mapM]. rewrite Ea. reflexivity.
Qed.

(** X13.  Where the density is above the threshold at every grid point (as
    for the density of the module with threshold 0), [__find_patches] returns
    one patch: its x coordinates are the grid reversed followed by the first
    grid point and the grid without its last point, its y coordinates the
    threshold once per grid point followed by the density values. *)
Theorem find_patches_above (x0 : Q) (grid' values : list Q) (threshold : Q) :
  length values = S (length grid') ->
  (forall v, In v values -> threshold < v) ->
  __find_patches (x0 :: grid') values threshold
  = Ok ([rev (x0 :: grid') ++ take (S (length grid')) (x0 :: x0 :: grid')],
        [map (fun _ => threshold) (rev (x0 :: grid')) ++ values]).
Proof.
  intros Hlen Habove.
  set (grid := x0 :: grid'). set (n := S (length grid')).
  assert (Hn : length grid = n) by reflexivity.
  assert (Hlen' : length values = n) by exact Hlen.
  clearbody n. clear Hlen.
  unfold __find_patches.
  assert (Hsigns : map (fun yv => np_sign (yv - threshold)) values = repeat 1%Z n).
  { rewrite <- Hlen', <- map_const. apply map_ext_in.
    intros v Hv. apply np_sign_pos. specialize (Habove v Hv). lra. }
  rewrite Hsigns, np_diff_repeat, collapse_zeros.
  unfold argwhere_nonzero. rewrite argwhere_from_zeros.
  change (getitem grid 0) with (@Ok Q x0). cbn [obind app length Nat.sub seq foldM].
  rewrite Hn. unfold patch_step.
  change (getitem [0%nat; n] (1 - 1)) with (@Ok nat 0%nat).
  change (getitem [0%nat; n] 1) with (@Ok nat n). cbn [obind].
  destruct (getitem_lt values ((0 + n) / 2)) as (ym & Hym & Hlook).
  { rewrite Hlen'. apply Nat.Div0.div_lt_upper_bound.
    assert (1 <= n)%nat by (rewrite <- Hn; unfold grid; cbn [length]; lia). lia. }
  rewrite Hym. cbn [obind].
  assert (Hin : In ym values).
  { apply list_elem_of_In. now apply (list_elem_of_lookup_2 _ ((0 + n) / 2)). }
  assert (Hle : Qle_bool threshold ym = true).
  { apply Qle_bool_iff. specialize (Habove ym Hin). lra. }
  rewrite Hle.
  change (x0 :: grid ++ [List.last grid x0])
    with ((x0 :: grid) ++ [List.last grid x0]).
  set (X' := (x0 :: grid) ++ [List.last grid x0]).
  assert (HX' : length X' = S (S n)).
  { unfold X'. rewrite length_app. cbn [length]. rewrite Hn. lia. }
  assert (Hlower : mapM (getitem X') (range_down n 0) = Ok (rev grid)).
  { unfold range_down. rewrite Nat.sub_0_r. apply mapM_rev.
    rewrite mapM_getitem_seq by lia. f_equal.
    unfold X'. cbn [app drop]. rewrite <- Hn. apply take_app_length. }
  rewrite Hlower. cbn [obind]. rewrite Nat.sub_0_r.
  rewrite mapM_pair_seq by lia. cbn [obind]. rewrite !drop_0.
  f_equal. cbn [fst snd app].
  assert (Htv : take n values = values) by (apply take_ge; lia).
  assert (Htx : take n X' = take n (x0 :: grid)).
  { unfold X'. apply take_app_le. cbn [length]. rewrite Hn. lia. }
  rewrite Htv, Htx.
  assert (Hl1 : length (take n (x0 :: grid)) = n).
  { rewrite length_take. cbn [length]. rewrite Hn. lia. }
  change (map fst) with (@fmap list _ (Q * Q) Q fst).
  change (map snd) with (@fmap list _ (Q * Q) Q snd).
  rewrite fst_zip by lia. rewrite snd_zip by lia. reflexivity.
Qed.

Lemma find_patches_above_witness :
  __find_patches [-1; 0; 1] [1 # 10; 1; 1 # 10] 0
  = Ok ([rev [-1; 0; 1] ++ take 3 [-1; -1; 0; 1]],
        [map (fun _ => 0) (rev [-1; 0; 1]) ++ [1 # 10; 1; 1 # 10]]).
Proof.
  apply (find_patches_above (-1) [0; 1] [1 # 10; 1; 1 # 10] 0).
  - reflexivity.
  - intros v [<- | [<- | [<- | []]]]; vm_compute; reflexivity.
Defined.

(** ** The markers the collapse leaves *)

Lemma collapse_no_adjacent_aux (diff : list Z) (i : nat) (a b : Z) :
  collapse diff !! i = Some a ->
  collapse diff !! S i = Some b ->
  a = 0%Z \/ b = 0%Z.
Proof.
  intros Ha Hb.
  assert (Hlt : (S i < length diff)%nat).
  { apply lookup_lt_Some in Hb. now rewrite collapse_length in Hb. }
  destruct (lookup_lt_is_Some_2 diff (S i) Hlt) as [d Hd].
  destruct (collapse_succ diff i d Hd) as (o & Ho & Hs).
  rewrite Ho in Ha. injection Ha as <-. rewrite Hs in Hb. injection Hb as <-.
  destruct (o =? 0)%Z eqn:E; [left; now apply Z.eqb_eq | now right].
Qed.

Lemma collapse_idempotent_aux (diff : list Z) :
  collapse (collapse diff) = collapse diff.
Proof.
  apply list_eq. intros i. induction i as [| i IH].
  - apply collapse_head.
  - destruct (collapse diff !! S i) as [b |] eqn:Hb.
    + destruct (collapse_succ (collapse diff) i b Hb) as (o & Ho & Hs).
      rewrite Hs. rewrite IH in Ho.
      destruct (collapse_no_adjacent_aux diff i o b Ho Hb) as [-> | ->].
      * reflexivity.
      * now destruct (o =? 0)%Z.
    + apply lookup_ge_None. apply lookup_ge_None in Hb.
      rewrite collapse_length. exact Hb.
Qed.

(** X14.  The collapse keeps the length and the first entry of the
    sign-difference array, leaves no two adjacent markers, and collapsing
    its result again changes nothing. *)
Theorem collapse_result (diff : list Z) :
  length (collapse diff) = length diff /\
  collapse diff !! 0%nat = diff !! 0%nat /\
  (forall (i : nat) (a b : Z),
     collapse diff !! i = Some a -> collapse diff !! S i = Some b ->
     a = 0%Z \/ b = 0%Z) /\
  collapse (collapse diff) = collapse diff.
Proof.
  split; [apply collapse_length |]. split; [apply collapse_head |].
  split; [apply collapse_no_adjacent_aux | apply collapse_idempotent_aux].
Qed.

Lemma collapse_result_witness :
  (-2)%Z = 0%Z \/ 0%Z = 0%Z.
Proof.
  destruct (collapse_result [-2; 2; -2; 2; 0; 1; 1]%Z) as (_ & _ & H & _).
  apply (H 2%nat (-2)%Z 0%Z); reflexivity.
Defined.

(** * Further properties of nearest-grid evaluation *)

Lemma fx_at_value (e : Elliptical) (x : Q) :
  wf_grid e ->
  exists (i : nat) (xi : Q),
    X e !! i = Some xi /\ Y e !! i = Some (fx_at e x) /\
    (forall j xj, X e !! j = Some xj -> distance x xi <= distance x xj) /\
    (forall j xj, (j < i)%nat -> X e !! j = Some xj -> distance x xi < distance x xj).
Proof.
  intros Hwf.
  destruct (nearest_value_spec e x Hwf) as (i & xi & yi & Hv & HX & HY & Hmin & Hfirst).
  exists i, xi. unfold fx_at. rewrite Hv. auto.
Qed.

Lemma Qabs_zero (q : Q) : Qabs q <= 0 -> q == 0.
Proof.
  intros H. apply Qabs_Qle_condition in H. lra.
Qed.

Lemma distance_self (x : Q) : distance x x == 0.
Proof.
  unfold distance. rewrite (rnd53_zero (x - x)) by ring. reflexivity.
Qed.

(** The computed distance is zero only at the point itself. *)
Lemma distance_zero (x xi : Q) : distance x xi <= 0 -> xi == x.
Proof.
  unfold distance. intros H. apply Qabs_zero, rnd53_nonzero in H. lra.
Qed.

(** X15.  At a grid point that no earlier grid point equals, [__fx] returns
    the density stored for that point. *)
Theorem fx_at_a_grid_point (s : World) (i : nat) (xi yi : Q) :
  wf_grid (obj s) ->
  X (obj s) !! i = Some xi ->
  Y (obj s) !! i = Some yi ->
  (forall j xj, (j < i)%nat -> X (obj s) !! j = Some xj -> ~ xj == xi) ->
  __fx xi s = (Ok yi, s).
Proof.
  intros Hwf HX HY Hfresh. rewrite (fx_run xi s Hwf). f_equal. f_equal.
  destruct (fx_at_value (obj s) xi Hwf) as (i0 & x0 & HX0 & HY0 & Hmin & Hfirst).
  pose proof (distance_self xi) as Hzero.
  destruct (lt_eq_lt_dec i0 i) as [[Hlt | Heq] | Hgt].
  - exfalso. apply (Hfresh i0 x0 Hlt HX0).
    pose proof (Hmin i xi HX) as Hle. rewrite Hzero in Hle.
    now apply distance_zero.
  - subst i0. congruence.
  - exfalso. pose proof (Hfirst i xi Hgt HX) as Hlt. rewrite Hzero in Hlt.
    pose proof (Qabs_nonneg (rnd53 (x0 - xi))) as Hnn. unfold distance in Hlt. lra.
Qed.

Lemma fx_at_a_grid_point_witness :
  __fx 1 (mkWorld demo_sampler (constant_stream 0) 0)
  = (Ok 1, mkWorld demo_sampler (constant_stream 0) 0).
Proof.
  apply (fx_at_a_grid_point (mkWorld demo_sampler (constant_stream 0) 0) 3 1 1).
  - split; [discriminate | reflexivity].
  - reflexivity.
  - reflexivity.
  - intros j xj Hj Hlook.
    assert (Hc : j = 0%nat \/ j = 1%nat \/ j = 2%nat) by lia.
    destruct Hc as [-> | [-> | ->]]; cbn in Hlook; injection Hlook as <-;
      intros H; vm_compute in H; discriminate H.
Defined.

(** X16.  On a grid whose first point is the least (as on an increasing
    grid), [__fx] clamps on the left: at or below the first grid point it
    returns the first density value.  Rounding keeps the order of the
    computed distances, so this holds however far below the grid [x] is.
    There is no such clamp on the right: far above the grid all computed
    distances are equal and the first value is returned. *)
Theorem fx_clamps_below_grid (s : World) (x x0 y0 : Q) :
  wf_grid (obj s) ->
  first_is_least (X (obj s)) ->
  X (obj s) !! 0%nat = Some x0 ->
  Y (obj s) !! 0%nat = Some y0 ->
  x <= x0 ->
  __fx x s = (Ok y0, s).
Proof.
  intros Hwf Hleast HX0 HY0 Hx.
  rewrite (fx_run x s Hwf). f_equal. f_equal.
  destruct (fx_at_value (obj s) x Hwf) as (i & xi & HXi & HYi & _ & Hfirst).
  destruct i as [| i]; [congruence | exfalso].
  pose proof (Hfirst 0%nat x0 (Nat.lt_0_succ i) HX0) as Hlt.
  pose proof (Hleast x0 xi (S i) HX0 HXi) as Hord.
  assert (Hle : distance x x0 <= distance x xi).
  { apply distance_mono.
    rewrite (Qabs_pos (x0 - x)), (Qabs_pos (xi - x)) by lra. lra. }
  lra.
Qed.

Lemma demo_grid_first_is_least : first_is_least [-2; -1; 0; 1; 2].
Proof.
  intros x0 xj j H0 Hj. cbn in H0. injection H0 as <-.
  do 5 (destruct j as [| j]; [cbn in Hj; injection Hj as <-; vm_compute; discriminate |]).
  discriminate Hj.
Qed.

Lemma fx_clamps_below_grid_witness :
  let e := mkElliptical (-1) 5 Stepout [-2; -1; 0; 1; 2] [10; 20; 30; 40; 50] [] []
             (-1, -1) (-1) (-1) (-1) (-1) [] in
  let s := mkWorld e (constant_stream 0) 0 in
  __fx (-1000000000000000000) s = (Ok 10, s) /\
  __fx 1000000000000000000 s = (Ok 10, s).
Proof.
  intros e s. split.
  - apply (fx_clamps_below_grid s (-1000000000000000000) (-2) 10).
    + split; [discriminate | reflexivity].
    + exact demo_grid_first_is_least.
    + reflexivity.
    + reflexivity.
    + vm_compute. discriminate.
  - vm_compute. reflexivity.
Defined.
(** * Switching the strategy *)

(** X18.  On a sampler with modes ([num_modes <> 0]) whose next mode is 4,
    the strategy chosen through the radio buttons is the one the next
    Mode 4 runs, with the default width and budget of that method: after
    [radio_handler 0] the slice stored is the interval [stepout] returns for
    [(curr_x, curr_y, 1, 40)], after [radio_handler 1] the one [double]
    returns for [(curr_x, curr_y, 1/4, 5)]. *)
Theorem radio_then_search (fuel : nat) (s : World) :
  num_modes (obj s) <> 0%Z ->
  next_mode (obj s) = 4%Z ->
  (forall sl s',
     stepout fuel (curr_x (obj s)) (curr_y (obj s)) 1 40
       (mkWorld (set_mode 4 (set_update_fn Stepout (obj s))) (stream s) (pos s))
     = (Ok sl, s') ->
     bind (radio_handler 0) (fun _ => callback fuel) s
     = (Ok tt, mkWorld (refresh_obj (set_slice sl (obj s'))) (stream s') (pos s'))) /\
  (forall sl s',
     double fuel (curr_x (obj s)) (curr_y (obj s)) (1 # 4) 5
       (mkWorld (set_mode 4 (set_update_fn Double (obj s))) (stream s) (pos s))
     = (Ok sl, s') ->
     bind (radio_handler 1) (fun _ => callback fuel) s
     = (Ok tt, mkWorld (refresh_obj (set_slice sl (obj s'))) (stream s') (pos s'))).
Proof.
  intros Hnz Hmode. split; intros sl s' Hrun.
  - unfold bind at 1, radio_handler, callback. cbn [change_update_fn Z.eqb modify_self].
    rewrite next_step_mode4 by assumption.
    unfold bind at 1. unfold bind at 1. unfold call_update_fn, bind at 1, get_self.
    cbn [obj stream pos update_fn set_mode set_update_fn curr_x curr_y].
    cbn [obj stream pos update_fn set_mode set_update_fn curr_x curr_y] in Hrun.
    rewrite Hrun. reflexivity.
  - unfold bind at 1, radio_handler, callback.
    change (change_update_fn 1 s)
      with (@Ok unit tt, mkWorld (set_update_fn Double (obj s)) (stream s) (pos s)).
    cbv beta iota.
    rewrite next_step_mode4 by assumption.
    unfold bind at 1. unfold bind at 1. unfold call_update_fn, bind at 1, get_self.
    cbn [obj stream pos update_fn set_mode set_update_fn curr_x curr_y].
    cbn [obj stream pos update_fn set_mode set_update_fn curr_x curr_y] in Hrun.
    rewrite Hrun. reflexivity.
Qed.

Lemma radio_then_search_witness :
  fst (bind (radio_handler 0) (fun _ => callback 40)
         (mkWorld (demo_ready Double) (constant_stream (1 # 3)) 0)) = Ok tt /\
  slice (obj (snd (bind (radio_handler 0) (fun _ => callback 40)
                     (mkWorld (demo_ready Double) (constant_stream (1 # 3)) 0))))
  = (-7 # 3, 5 # 3).
Proof.
  assert (Hnz : num_modes (demo_ready Double) <> 0%Z) by discriminate.
  destruct (radio_then_search 40 (mkWorld (demo_ready Double) (constant_stream (1 # 3)) 0)
              Hnz eq_refl) as [H _].
  rewrite (H (-7 # 3, 5 # 3)
             (snd (stepout 40 (-1) (1 # 2) 1 40
                     (mkWorld (set_mode 4 (set_update_fn Stepout (demo_ready Double)))
                              (constant_stream (1 # 3)) 0)))).
  - split; reflexivity.
  - vm_compute. reflexivity.
Defined.

(** * One whole iteration *)

Lemma fx_at_nonneg (density : Q -> Q) (e : Elliptical) (x : Q) :
  wf_grid e -> Y e = map density (X e) -> (forall z, 0 <= density z) ->
  0 <= fx_at e x.
Proof.
  intros Hwf HY Hdens. pose proof (fx_at_in e x Hwf) as Hin.
  rewrite HY in Hin. apply in_map_iff in Hin. destruct Hin as (g & <- & _).
  apply Hdens.
Qed.

(** X19.  The first five presses after construction, over a density that is
    nowhere negative, with samples in [0,1) and fuel covering the budget of
    [stepout]: all five return; the sampler is then in mode 4, has consumed
    four samples, and holds [curr_x = -1], [fx] the density at the grid point
    nearest to [curr_x], a height with [0 <= curr_y <= fx] that is also shown
    as [horizontal], and a slice that brackets [curr_x]. *)
Theorem first_iteration
    (density : Q -> Q) (x_low x_high x_step : Q) (e : Elliptical)
    (st : nat -> Q) (fuel : nat) :
  __init__ density x_low x_high x_step = Ok e ->
  (forall x, 0 <= density x) ->
  (forall n, 0 <= st n /\ st n < 1) ->
  (40 <= fuel)%nat ->
  exists s' : World,
    press fuel 5 (mkWorld e st 0) = (Ok tt, s') /\
    mode (obj s') = 4%Z /\
    pos s' = 4%nat /\
    curr_x (obj s') == -1 /\
    fx (obj s') = fx_at e (curr_x (obj s')) /\
    0 <= curr_y (obj s') <= fx (obj s') /\
    horizontal (obj s') = curr_y (obj s') /\
    brackets (curr_x (obj s')) (slice (obj s')).
Proof.
  intros Hinit Hdens Hst Hfuel.
  destruct (init_fields _ _ _ _ _ Hinit)
    as (_ & HY & Hwf & Hmode & Hnum & Hupd & Hslice & _).
  (* Mode 0 *)
  set (x1 := fst (slice e) + (snd (slice e) - fst (slice e)) * st 0%nat).
  set (e1 := refresh_obj (set_curr_y (-1) (set_fx (-1) (set_horizontal (-1)
               (set_curr_x x1 (set_mode 0 e)))))).
  assert (H1 : next_step fuel (mkWorld e st 0) = (Ok tt, mkWorld e1 st 1))
    by apply (first_step_run density x_low x_high x_step e st 0 fuel Hinit Hdens).
  (* Mode 1 *)
  set (e2 := refresh_obj (set_fx (fx_at e1 x1) (set_mode 1 e1))).
  assert (H2 : next_step fuel (mkWorld e1 st 1) = (Ok tt, mkWorld e2 st 1)).
  { apply (next_step_mode1 fuel (mkWorld e1 st 1)); [exact Hwf | |].
    - cbn. rewrite Hnum. discriminate.
    - unfold next_mode. cbn. rewrite Hnum. reflexivity. }
  (* Mode 2 *)
  set (y3 := 0 + (fx_at e1 x1 - 0) * st 1%nat).
  set (e3 := refresh_obj (set_slice (-1, -1) (set_curr_y y3 (set_mode 2 e2)))).
  assert (H3 : next_step fuel (mkWorld e2 st 1) = (Ok tt, mkWorld e3 st 2)).
  { apply (next_step_mode2 fuel (mkWorld e2 st 1)).
    - cbn. rewrite Hnum. discriminate.
    - unfold next_mode. cbn. rewrite Hnum. reflexivity. }
  (* Mode 3 *)
  set (e4 := refresh_obj (set_horizontal y3 (set_mode 3 e3))).
  assert (H4 : next_step fuel (mkWorld e3 st 2) = (Ok tt, mkWorld e4 st 2)).
  { apply (next_step_mode3 fuel (mkWorld e3 st 2)).
    - cbn. rewrite Hnum. discriminate.
    - unfold next_mode. cbn. rewrite Hnum. reflexivity. }
  (* Mode 4 *)
  assert (Hwf4 : wf_grid (set_mode 4 e4)) by exact Hwf.
  destruct (budget_bounds 40 (st 3%nat)) as [Hj Hk];
    [lia | apply Hst | apply Hst |].
  pose proof (budget_sum 40 (st 3%nat)) as Hsum.
  destruct (stepout_run fuel x1 y3 1 40 (mkWorld (set_mode 4 e4) st 2) Hwf4)
    as (nl & nr & _ & _ & Hrun & _).
  { cbn [stream pos]. lia. }
  { cbn [stream pos]. lia. }
  cbn [obj stream pos] in Hrun.
  set (tr := left_trace (x1 - 1 * st 2%nat) (x1 - 1 * st 2%nat + 1) 1 nl ++
             right_trace (steps_down (x1 - 1 * st 2%nat) 1 nl)
               (x1 - 1 * st 2%nat + 1) 1 nr) in *.
  set (sl := (steps_down (x1 - 1 * st 2%nat) 1 nl,
              steps_up (x1 - 1 * st 2%nat + 1) 1 nr)) in *.
  set (e5 := refresh_obj (set_slice sl (emit_all (set_mode 4 e4) tr))).
  assert (H5 : next_step fuel (mkWorld e4 st 2) = (Ok tt, mkWorld e5 st 4)).
  { rewrite next_step_mode4;
      [| cbn; rewrite Hnum; discriminate
       | unfold next_mode; cbn; rewrite Hnum; reflexivity].
    unfold bind at 1. unfold bind at 1. unfold call_update_fn, bind at 1, get_self.
    cbn [obj stream pos].
    assert (Hu : update_fn (set_mode 4 e4) = Stepout) by exact Hupd.
    rewrite Hu.
    change (curr_x e4) with x1. change (curr_y e4) with y3.
    rewrite Hrun. reflexivity. }
  exists (mkWorld e5 st 4). split.
  { rewrite press_succ, H1, press_succ, H2, press_succ, H3, press_succ, H4,
      press_succ, H5. reflexivity. }
  destruct (emit_all_fields tr (set_mode 4 e4))
    as (Em & _ & _ & Ex & Ef & Ey & Eh & _).
  cbn [obj pos]. unfold e5.
  cbn [mode curr_x fx curr_y horizontal slice refresh_obj set_figure set_slice].
  rewrite Em, Ex, Ef, Ey, Eh.
  change (curr_x (set_mode 4 e4)) with x1.
  change (fx (set_mode 4 e4)) with (fx_at e1 x1).
  change (curr_y (set_mode 4 e4)) with y3.
  change (horizontal (set_mode 4 e4)) with y3.
  split; [reflexivity |]. split; [reflexivity |].
  split; [unfold x1; rewrite Hslice; cbn [fst snd]; ring |].
  split; [apply fx_at_grid; reflexivity |].
  assert (Hf0 : 0 <= fx_at e1 x1).
  { rewrite (fx_at_grid e e1) by reflexivity.
    now apply (fx_at_nonneg density). }
  destruct (Hst 1%nat) as [Hu0 Hu1].
  split; [unfold y3; split; nra |]. split; [reflexivity |].
  unfold brackets, sl. cbn [fst snd].
  apply stepout_result_brackets; [lra |].
  destruct (Hst 2%nat). split; lra.
Qed.

Lemma first_iteration_witness :
  exists s' : World,
    press 40 5 (mkWorld demo_sampler (constant_stream (1 # 3)) 0) = (Ok tt, s') /\
    mode (obj s') = 4%Z /\
    pos s' = 4%nat /\
    curr_x (obj s') == -1 /\
    fx (obj s') = fx_at demo_sampler (curr_x (obj s')) /\
    0 <= curr_y (obj s') <= fx (obj s') /\
    horizontal (obj s') = curr_y (obj s') /\
    brackets (curr_x (obj s')) (slice (obj s')).
Proof.
  apply (first_iteration demo_density (-2) 3 1 demo_sampler (constant_stream (1 # 3)) 40).
  - vm_compute. reflexivity.
  - intros x. unfold demo_density.
    destruct (Qle_bool (-1) x && Qle_bool x 1); vm_compute; discriminate.
  - intros n. split; [vm_compute; discriminate | vm_compute; reflexivity].
  - lia.
Defined.
